(** * Song database: preprocessing, loader and analytical queries

    A shallow embedding of the four Python modules of the repository
    ([CW_Preprocessing.py], [Artist.py], [Genres.py], [Top5.py]) and the
    properties of the normalisation and aggregation engine.

    Modelling conventions.
    - A Python [str] is a [string] (a sequence of 8-bit characters);
      case folding and white space are those of the ASCII range.
    - Python floats and SQLite REAL values are modelled by the rational
      numbers they denote ([Q]), with the two infinities and the missing
      value beside them in the cells of a data frame; the rounding error
      of the individual binary64 operations is outside this part of the
      model.  The weight check, which is decided at the edge of a
      tolerance, and the ranking value are given a second time on
      binary64 numbers (module [Binary64]); the properties of the weight
      check are proved there.
    - A cell of a text column may be missing: a row of a data frame has
      optional text cells ([row]); a [record] is a row in which they are
      present, and [frame] gives the rows a list of records stands for.
    - The order in which Python visits a set of strings depends on the
      hash seed of the run; it is a parameter of the loader, of which
      the statements assume no more than that it visits every element
      once.
    - A raised exception is a result [inl e]; a value is [inr v].
    - The SQLite store is a record of four tables, each a list of rows in
      insertion order.  A SQL statement is the list comprehension it
      denotes.  Where SQL or pandas leaves the order of ties open, the
      model uses a stable sort, and no theorem depends on that choice. *)

From Stdlib Require Import ZArith QArith Qabs Qround Qminmax String Ascii List
  Bool Lia Lqa Permutation Sorted.
From Stdlib Require PrimFloat FloatOps FloatAxioms SpecFloat.
From stdpp Require Import base option list gmap strings.
Import ListNotations.

Close Scope Q_scope.
Local Open Scope string_scope.
Local Open Scope list_scope.

(** ** Exceptions *)

Inductive exn : Type :=
| IntegrityError   (* sqlite3: UNIQUE / PRIMARY KEY / NOT NULL violated *)
| OperationalError (* sqlite3: malformed SQL *)
| KeyError         (* dict lookup of an absent key *)
| TypeError        (* comparison of a str with a float *)
| ValueError.      (* raised by the code itself *)

Definition result (A : Type) : Type := exn + A.

Definition ok {A} (a : A) : result A := inr a.
Definition raise {A} (e : exn) : result A := inl e.

Definition bind {A B} (m : result A) (k : A -> result B) : result B :=
  match m with
  | inl e => inl e
  | inr a => k a
  end.

Notation "'let*' x ':=' m 'in' k" := (bind m (fun x => k))
  (at level 10, x pattern, m at level 100, k at level 200).

(** A [for] loop whose body may raise. *)
Fixpoint for_each {A S} (body : S -> A -> result S) (l : list A) (s : S)
  : result S :=
  match l with
  | [] => ok s
  | x :: t => let* s' := body s x in for_each body t s'
  end.

(** ** Strings *)

Module Str.

(** White space of [str.strip] and [str.split] in the ASCII range. *)
Definition isspace (c : ascii) : bool :=
  let n := nat_of_ascii c in
  (((9 <=? n) && (n <=? 13)) || ((28 <=? n) && (n <=? 32)))%nat.

Definition lower_char (c : ascii) : ascii :=
  let n := nat_of_ascii c in
  if ((65 <=? n) && (n <=? 90))%nat then ascii_of_nat (n + 32) else c.

(** [s.lower()] *)
Fixpoint lower (s : string) : string :=
  match s with
  | EmptyString => EmptyString
  | String c t => String (lower_char c) (lower t)
  end.

Fixpoint lstrip (s : string) : string :=
  match s with
  | EmptyString => EmptyString
  | String c t => if isspace c then lstrip t else s
  end.

Fixpoint rev_acc (s acc : string) : string :=
  match s with
  | EmptyString => acc
  | String c t => rev_acc t (String c acc)
  end.

Definition rev (s : string) : string := rev_acc s EmptyString.

(** [s.strip()] *)
Definition strip (s : string) : string := rev (lstrip (rev (lstrip s))).

(** [s.split(sep)] for a one-character separator: the pieces between
    the separators, empty pieces included; [cur] is the piece being
    read, reversed. *)
Fixpoint split_on_acc (sep : ascii) (s cur : string) : list string :=
  match s with
  | EmptyString => [rev cur]
  | String c t =>
      if Ascii.eqb c sep then rev cur :: split_on_acc sep t EmptyString
      else split_on_acc sep t (String c cur)
  end.

Definition split_on (sep : ascii) (s : string) : list string :=
  split_on_acc sep s EmptyString.

(** [s.split()]: the maximal runs of non-space characters. *)
Fixpoint split_ws_acc (s cur : string) : list string :=
  match s with
  | EmptyString =>
      match cur with EmptyString => [] | _ => [rev cur] end
  | String c t =>
      if isspace c then
        match cur with
        | EmptyString => split_ws_acc t EmptyString
        | _ => rev cur :: split_ws_acc t EmptyString
        end
      else split_ws_acc t (String c cur)
  end.

Definition split_ws (s : string) : list string := split_ws_acc s EmptyString.

End Str.

(** ** Data frame cells and song records *)

(** What [pd.to_numeric] reads in a [str]: nothing (the string is not
    the spelling of a number, or spells the missing value), a finite
    number, or an infinity. *)
Inductive reading : Type :=
| Unreadable
| Reads (q : Q)
| ReadsInf (negative : bool).

(** A cell of a numeric column as [read_csv] may deliver it: a finite
    number, an infinity, the missing value, or a [str].  [read_csv]
    gives a column with one field that is not a number the type of
    text, and then every field of the column is a [str], the fields
    that spell numbers too: a [str] carries what it reads as. *)
Inductive cell : Type :=
| Num (q : Q)
| Inf (negative : bool)
| NaN
| Text (s : string) (as_number : reading).

(** One row of the data frame after [load_and_clean_data].  [T] is the
    type of a cell of the text columns and [B] of the [explicit]
    column: as pandas delivers them they may be missing ([row]); a
    [record] is a row in which they are present.  The [duration] and
    the [year] are the integers of two [int64] columns. *)
Record record_of (T B : Type) : Type := mkRecord {
  artist : T;
  song : T;
  duration : Z;
  explicit : B;
  year : Z;
  popularity : cell;
  danceability : cell;
  speechiness : cell;
  genres : list string
}.

Arguments mkRecord {T B}.
Arguments artist {T B}.
Arguments song {T B}.
Arguments duration {T B}.
Arguments explicit {T B}.
Arguments year {T B}.
Arguments popularity {T B}.
Arguments danceability {T B}.
Arguments speechiness {T B}.
Arguments genres {T B}.

Definition row : Type := record_of (option string) (option bool).

Definition record : Type := record_of string bool.

(** The row of the frame a record stands for, and the frame a list of
    records stands for. *)
Definition complete (r : record) : row :=
  mkRecord (Some (artist r)) (Some (song r)) (duration r) (Some (explicit r))
           (year r) (popularity r) (danceability r) (speechiness r) (genres r).

Definition frame (df : list record) : list row := List.map complete df.

(** [load_and_clean_data], genre column: [str.split(',')] on the cell,
    each piece stripped ([[]] when the cell is missing), then the empty
    pieces and the pieces equal to ['set()'] removed.  A missing genre
    cell is [None]. *)
Definition clean_genres (genre : option string) : list string :=
  let pieces :=
    match genre with
    | Some s => List.map Str.strip (Str.split_on "," s)
    | None => []
    end in
  List.filter (fun g => negb (String.eqb g "") && negb (String.eqb g "set()"))
              pieces.

(** ** SQL and data frame operators *)

(** The distinct values of a list, in order of first appearance. *)
Fixpoint distinct {K} (eqb : K -> K -> bool) (l : list K) : list K :=
  match l with
  | [] => []
  | x :: t => x :: List.filter (fun y => negb (eqb x y)) (distinct eqb t)
  end.

Module SQL.

(** [l JOIN r ON on] *)
Definition join {A B} (on : A -> B -> bool) (l : list A) (r : list B)
  : list (A * B) :=
  flat_map (fun a => List.map (pair a) (List.filter (on a) r)) l.

(** [GROUP BY key]: one group per distinct key, holding its rows. *)
Definition group_by {A K} (eqb : K -> K -> bool) (key : A -> K)
    (rows : list A) : list (K * list A) :=
  List.map (fun k => (k, List.filter (fun r => eqb k (key r)) rows))
           (distinct eqb (List.map key rows)).

Definition sum (l : list Q) : Q := fold_right Qplus 0%Q l.

(** [AVG(x)] over the rows of a group (groups are never empty). *)
Definition avg (l : list Q) : Q := (sum l / inject_Z (Z.of_nat (length l)))%Q.

(** [ROUND(x, n)]: to [n] decimal places, a half away from zero. *)
Definition round (x : Q) (n : nat) : Q :=
  let p := inject_Z (10 ^ Z.of_nat n) in
  if Qle_bool 0%Q x
  then Qred (inject_Z (Qfloor (x * p + (1 # 2))) / p)%Q
  else Qred (- (inject_Z (Qfloor (- x * p + (1 # 2))) / p))%Q.

Fixpoint insert_sorted {A} (le : A -> A -> bool) (x : A) (l : list A)
  : list A :=
  match l with
  | [] => [x]
  | y :: t => if le x y then x :: l else y :: insert_sorted le x t
  end.

(** [ORDER BY] / [sort_values]: a stable insertion sort. *)
Definition order_by {A} (le : A -> A -> bool) (l : list A) : list A :=
  fold_right (insert_sorted le) [] l.

Definition is_percent (c : ascii) : bool := Ascii.eqb c "%".
Definition is_underscore (c : ascii) : bool := Ascii.eqb c "_".

(** [s LIKE p]: [%] stands for any run of characters, [_] for any one
    character, and letters compare without regard to case. *)
Fixpoint like (p : string) : string -> bool :=
  match p with
  | EmptyString =>
      fun s => match s with EmptyString => true | String _ _ => false end
  | String c p' =>
      if is_percent c then
        fix any (s : string) : bool :=
          like p' s ||
          match s with
          | EmptyString => false
          | String _ t => any t
          end
      else
        fun s =>
          match s with
          | EmptyString => false
          | String d t =>
              (is_underscore c
               || Ascii.eqb (Str.lower_char c) (Str.lower_char d))
              && like p' t
          end
  end.

End SQL.

(** ** The filter stage ([filter_data]) *)

Definition Qltb (x y : Q) : bool := negb (Qle_bool y x).

(** A column is evaluated as a whole: one bad cell fails the expression. *)
Fixpoint mapM {A B} (f : A -> result B) (l : list A) : result (list B) :=
  match l with
  | [] => ok []
  | x :: t => let* y := f x in let* ys := mapM f t in ok (y :: ys)
  end.

Module Series.

(** [pd.to_numeric(c, errors='coerce')]: a [str] becomes the number it
    spells, and the missing value when it spells none. *)
Definition to_numeric (c : cell) : cell :=
  match c with
  | Text _ Unreadable => NaN
  | Text _ (Reads q) => Num q
  | Text _ (ReadsInf negative) => Inf negative
  | _ => c
  end.

Definition notna (c : cell) : bool :=
  match c with
  | NaN => false
  | _ => true
  end.

(** [c > x], [c >= x], [c <= x] against a float: false on the missing
    value, a [TypeError] on a [str]. *)
Definition gt (x : Q) (c : cell) : result bool :=
  match c with
  | Num q => ok (Qltb x q)
  | Inf negative => ok (negb negative)
  | NaN => ok false
  | Text _ _ => raise TypeError
  end.

Definition ge (x : Q) (c : cell) : result bool :=
  match c with
  | Num q => ok (Qle_bool x q)
  | Inf negative => ok (negb negative)
  | NaN => ok false
  | Text _ _ => raise TypeError
  end.

Definition le (x : Q) (c : cell) : result bool :=
  match c with
  | Num q => ok (Qle_bool q x)
  | Inf negative => ok negative
  | NaN => ok false
  | Text _ _ => raise TypeError
  end.

(** [col.between(left, right)] is [(col >= left) & (col <= right)]. *)
Definition between (left right : Q) (col : list cell) : result (list bool) :=
  let* lmask := mapM (ge left) col in
  let* rmask := mapM (le right) col in
  ok (zip_with andb lmask rmask).

(** [df[mask]] *)
Definition select {A} (df : list A) (mask : list bool) : list A :=
  List.map fst (List.filter snd (combine df mask)).

(** Equality of two cells of a text column; [unique] takes the missing
    values for one value. *)
Definition text_eqb (x y : option string) : bool :=
  match x, y with
  | Some a, Some b => String.eqb a b
  | None, None => true
  | _, _ => false
  end.

(** [col.unique()] on a text column: the distinct cells in order of
    first appearance. *)
Definition unique (col : list (option string)) : list (option string) :=
  distinct text_eqb col.

End Series.

Definition set_popularity {T B} (c : cell) (r : record_of T B)
  : record_of T B :=
  mkRecord (artist r) (song r) (duration r) (explicit r) (year r)
           c (danceability r) (speechiness r) (genres r).

Definition set_danceability {T B} (c : cell) (r : record_of T B)
  : record_of T B :=
  mkRecord (artist r) (song r) (duration r) (explicit r) (year r)
           (popularity r) c (speechiness r) (genres r).

(** Two cells of a text column; the missing value is [None]. *)
Definition is_missing (x : option string) : bool :=
  match x with
  | None => true
  | Some _ => false
  end.

Definition text_leb (x y : option string) : bool :=
  match x, y with
  | Some a, Some b => String.leb a b
  | None, _ => true
  | Some _, None => false
  end.

(** [sorted(l)] on the values of a text column: a [str] and the missing
    value, which is a float, cannot be compared, so a list that holds
    both raises; a list of [str] is put in order, and a list that holds
    nothing but the missing value is returned as it is. *)
Definition sorted (l : list (option string)) : result (list (option string)) :=
  if existsb is_missing l && existsb (fun x => negb (is_missing x)) l
  then raise TypeError
  else ok (SQL.order_by text_leb l).

(** [filter_data]: the popularity and danceability columns are replaced
    by their coerced values, the speechiness column is used as it is; the
    six masks are built column by column and combined with [&]; the
    artists of the rows that are kept are put in order to be printed. *)
Definition filter_data (dfSongs : list row) : result (list row) :=
  let dfSongs :=
    List.map (fun r => set_popularity (Series.to_numeric (popularity r)) r)
             dfSongs in
  let dfSongs :=
    List.map (fun r => set_danceability (Series.to_numeric (danceability r)) r)
             dfSongs in
  let m1 := List.map (fun r => Series.notna (popularity r)) dfSongs in
  let* m2 := mapM (fun r => Series.gt (50 # 1) (popularity r)) dfSongs in
  let m3 := List.map (fun r => Series.notna (danceability r)) dfSongs in
  let* m4 := mapM (fun r => Series.gt (20 # 100) (danceability r)) dfSongs in
  let m5 := List.map (fun r => Series.notna (speechiness r)) dfSongs in
  let* m6 := Series.between (33 # 100) (66 # 100)
                            (List.map speechiness dfSongs) in
  let mask :=
    zip_with andb (zip_with andb (zip_with andb (zip_with andb
      (zip_with andb m1 m2) m3) m4) m5) m6 in
  let dfFiltered := Series.select dfSongs mask in
  let matching_artists := Series.unique (List.map artist dfFiltered) in
  let* _ := sorted matching_artists in
  ok dfFiltered.

(** ** The store *)

Record ArtistRow : Type := mkArtist { a_ID : nat; a_Name : string }.

Record GenreRow : Type := mkGenre { g_ID : nat; g_Genre : string }.

Record SongRow : Type := mkSong {
  s_ID : nat;
  s_Title : string;
  s_Duration : Z;
  s_Explicit : bool;
  s_Year : Z;
  s_Popularity : Q;
  s_Danceability : Q;
  s_Speechiness : Q;
  s_ArtistID : nat
}.

Record SongGenreRow : Type := mkSongGenre { sg_SongID : nat; sg_GenreID : nat }.

Record Database : Type := mkDatabase {
  Artist : list ArtistRow;
  Genre : list GenreRow;
  Song : list SongRow;
  SongGenre : list SongGenreRow
}.

(** [create_database_schema]: the four tables are dropped and created
    again, so the store is empty and the row ids start again at 1. *)
Definition create_database_schema : Database := mkDatabase [] [] [] [].

Definition same_link (x y : SongGenreRow) : bool :=
  (sg_SongID x =? sg_SongID y)%nat && (sg_GenreID x =? sg_GenreID y)%nat.

(** [INSERT INTO Artist (Name)]: [Name] is NOT NULL, and a missing
    value is bound as NULL; [Name] is UNIQUE; the result carries
    [cursor.lastrowid]. *)
Definition insert_Artist (db : Database) (name : option string)
  : result (Database * nat) :=
  match name with
  | None => raise IntegrityError
  | Some name =>
      if existsb (fun a => String.eqb (a_Name a) name) (Artist db)
      then raise IntegrityError
      else
        let id := S (length (Artist db)) in
        ok (mkDatabase (Artist db ++ [mkArtist id name]) (Genre db) (Song db)
                       (SongGenre db), id)
  end.

(** [INSERT INTO Genre (Genre)]: [Genre] is UNIQUE. *)
Definition insert_Genre (db : Database) (label : string)
  : result (Database * nat) :=
  if existsb (fun g => String.eqb (g_Genre g) label) (Genre db)
  then raise IntegrityError
  else
    let id := S (length (Genre db)) in
    ok (mkDatabase (Artist db) (Genre db ++ [mkGenre id label]) (Song db)
                   (SongGenre db), id).

(** A bound parameter of a NOT NULL column: the missing value is bound
    as NULL and violates the constraint. *)
Definition bind_present {A} (x : option A) : result A :=
  match x with
  | Some a => ok a
  | None => raise IntegrityError
  end.

(** A bound parameter of a numeric NOT NULL column.  The tables of this
    model hold finite numbers in their numeric columns.  SQLite would
    store an infinity or a [str] as it is; such a cell has no image in
    the model, which refuses it, and the statements about a load that
    returns are made for frames without such cells. *)
Definition bind_number (c : cell) : result Q :=
  match c with
  | Num q => ok q
  | NaN => raise IntegrityError
  | Inf _ => raise IntegrityError
  | Text _ _ => raise IntegrityError
  end.

(** [INSERT INTO Song (...)]: every column is NOT NULL; foreign keys are
    declared but SQLite does not enforce them unless asked to, and the
    code does not ask. *)
Definition insert_Song (db : Database) (title : option string) (dur : Z)
    (expl : option bool) (yr : Z) (pop dance speech : cell) (artist_id : nat)
  : result (Database * nat) :=
  let* title := bind_present title in
  let* expl := bind_present expl in
  let* p := bind_number pop in
  let* d := bind_number dance in
  let* s := bind_number speech in
  let id := S (length (Song db)) in
  ok (mkDatabase (Artist db) (Genre db)
                 (Song db ++ [mkSong id title dur expl yr p d s artist_id])
                 (SongGenre db), id).

(** [INSERT INTO SongGenre (SongID, GenreID)]: the pair is the primary
    key. *)
Definition insert_SongGenre (db : Database) (song_id genre_id : nat)
  : result Database :=
  let row := mkSongGenre song_id genre_id in
  if existsb (same_link row) (SongGenre db)
  then raise IntegrityError
  else ok (mkDatabase (Artist db) (Genre db) (Song db) (SongGenre db ++ [row])).

(** ** The loader ([create_and_populate_database]) *)

(** The distinct names of a list, in order of first appearance. *)
Definition unique (l : list string) : list string := distinct String.eqb l.

(** [d[k]] on a dict. *)
Definition dict_get (d : gmap string nat) (k : string) : result nat :=
  match d !! k with
  | Some v => ok v
  | None => raise KeyError
  end.

(** [artist_id_map[k]] for a cell of the artist column: the missing
    value is never a key, its insertion into the Artist table has
    raised. *)
Definition dict_get_cell (d : gmap string nat) (k : option string)
  : result nat :=
  match k with
  | Some k => dict_get d k
  | None => raise KeyError
  end.

(** The set built by [unique_genres.update(genres)] over all rows. *)
Definition unique_genres {T B} (df : list (record_of T B)) : gset string :=
  fold_left (fun s gs => s ∪ list_to_set gs) (List.map genres df) ∅.

(** The order in which [for genre in unique_genres] visits a set of
    strings.  It depends on the hash seed of the run, so it is a
    parameter of the loader; all that is known of it is that every
    element is visited once. *)
Definition set_order : Type := gset string -> list string.

Definition set_iteration (iter : set_order) : Prop :=
  forall s : gset string, Permutation (iter s) (elements s).

(** The body of the loop over the genres of one row. *)
Definition link_genre (genre_id_map : gmap string nat) (song_id : nat)
    (db : Database) (genre : string) : result Database :=
  let* gid := dict_get genre_id_map genre in
  insert_SongGenre db song_id gid.

(** One turn of the loop over the rows: the song, then its links. *)
Definition load_row (artist_id_map genre_id_map : gmap string nat)
    (db : Database) (row : row) : result Database :=
  let* aid := dict_get_cell artist_id_map (artist row) in
  let* (db, song_id) :=
    insert_Song db (song row) (duration row) (explicit row) (year row)
                (popularity row) (danceability row) (speechiness row) aid in
  for_each (link_genre genre_id_map song_id) (genres row) db.

(** The two loops that fill the Artist and Genre tables and the dicts. *)
Definition add_artist (st : Database * gmap string nat) (a : option string)
  : result (Database * gmap string nat) :=
  let (db, artist_id_map) := st in
  let* (db, id) := insert_Artist db a in
  match a with
  | Some name => ok (db, <[name := id]> artist_id_map)
  | None => ok (db, artist_id_map)
  end.

Definition add_genre (st : Database * gmap string nat) (g : string)
  : result (Database * gmap string nat) :=
  let (db, genre_id_map) := st in
  let* (db, id) := insert_Genre db g in
  ok (db, <[g := id]> genre_id_map).

(** [create_and_populate_database]: the value is the committed store; an
    exception is raised before [conn.commit()] and leaves no row
    committed. *)
Definition create_and_populate_database (iter : set_order) (df : list row)
  : result Database :=
  let db := create_database_schema in
  let* (db, artist_id_map) :=
    for_each add_artist (Series.unique (List.map artist df)) (db, ∅) in
  let* (db, genre_id_map) :=
    for_each add_genre (iter (unique_genres df)) (db, ∅) in
  for_each (load_row artist_id_map genre_id_map) df db.

(** The joins the queries share. *)

(** [FROM Song s JOIN SongGenre sg ON s.ID = sg.SongID
     JOIN Genre g ON sg.GenreID = g.ID]: the song and its genre label. *)
Definition song_genres (db : Database) : list (SongRow * string) :=
  List.map (fun x => (fst (fst x), g_Genre (snd x)))
    (SQL.join (fun ssg g => (sg_GenreID (snd ssg) =? g_ID g)%nat)
       (SQL.join (fun s sg => (s_ID s =? sg_SongID sg)%nat)
                 (Song db) (SongGenre db))
       (Genre db)).

(** [FROM Song s JOIN Artist a ON s.ArtistID = a.ID]: the song and the
    name of its artist. *)
Definition song_artists (db : Database) : list (SongRow * string) :=
  List.map (fun x => (fst x, a_Name (snd x)))
    (SQL.join (fun s a => (s_ArtistID s =? a_ID a)%nat) (Song db) (Artist db)).

(** The four-table join of [query_artist]: song, artist name, genre. *)
Definition song_artist_genres (db : Database)
  : list (SongRow * string * string) :=
  List.map (fun x => (fst (fst (fst x)), a_Name (snd (fst (fst x))),
                      g_Genre (snd x)))
    (SQL.join (fun sasg g => (sg_GenreID (snd sasg) =? g_ID g)%nat)
       (SQL.join (fun sa sg => (s_ID (fst sa) =? sg_SongID sg)%nat)
          (SQL.join (fun s a => (s_ArtistID s =? a_ID a)%nat)
                    (Song db) (Artist db))
          (SongGenre db))
       (Genre db)).

(** ** Artist.py *)

(** [validate_artist] *)
Definition validate_artist (artist_name : string) (db : Database) : bool :=
  let count :=
    length (List.filter (fun a => String.eqb (a_Name a) artist_name)
                        (Artist db)) in
  negb (count =? 0)%nat.

(** A row of [SELECT Name, COUNT( * ) as matches ... GROUP BY Name]. *)
Definition suggestion_le (x y : string * nat) : bool :=
  (snd y <? snd x)%nat
  || ((snd x =? snd y)%nat
      && (String.length (fst x) <=? String.length (fst y))%nat).

(** [get_similar_artists]: with no name part the WHERE clause is empty
    and the statement does not parse. *)
Definition get_similar_artists (name : string) (db : Database) (limit : nat)
  : result (list string) :=
  let exact :=
    List.filter (fun a => String.eqb (a_Name a) name) (Artist db) in
  match exact with
  | _ :: _ => ok (List.map a_Name exact)
  | [] =>
      let name_parts := Str.split_ws (Str.lower name) in
      match name_parts with
      | [] => raise OperationalError
      | _ :: _ =>
          let params := List.map (fun part => ("%" ++ part ++ "%")%string) name_parts in
          let rows :=
            List.filter
              (fun a => existsb (fun p => SQL.like p (a_Name a)) params)
              (Artist db) in
          let groups :=
            List.map (fun g => (fst g, length (snd g)))
                     (SQL.group_by String.eqb a_Name rows) in
          ok (List.map fst (firstn limit (SQL.order_by suggestion_le groups)))
      end
  end.

(** A row of the frame [get_artist_popularity] returns; the columns that
    come from the right side of the left merge may be missing. *)
Record PopularityRow : Type := mkPopularityRow {
  pr_Genre : string;
  pr_ArtistPopularity : Q;
  pr_SongCount : nat;
  pr_OverallPopularity : option Q;
  pr_TotalSongs : option nat;
  pr_Difference : option Q;
  pr_AboveMean : bool
}.

Definition popularities {A} (rows : list (SongRow * A)) : list Q :=
  List.map (fun x => s_Popularity (fst x)) rows.

(** [query_artist]: per genre, the rounded average and the count. *)
Definition query_artist (artist_name : string) (db : Database)
  : list (string * Q * nat) :=
  let rows :=
    List.filter (fun x => String.eqb (snd (fst x)) artist_name)
                (song_artist_genres db) in
  List.map (fun g => (fst g, SQL.round (SQL.avg (popularities
                                (List.map fst (snd g)))) 2,
                      length (snd g)))
           (SQL.group_by String.eqb snd rows).

(** [query_overall] *)
Definition query_overall (db : Database) : list (string * Q * nat) :=
  List.map (fun g => (fst g, SQL.round (SQL.avg (popularities (snd g))) 2,
                      length (snd g)))
           (SQL.group_by String.eqb snd (song_genres db)).

(** [pd.merge(df_artist, df_overall, on='Genre', how='left')], followed
    by the two derived columns. *)
Definition merge_row (df_overall : list (string * Q * nat))
    (l : string * Q * nat) : list PopularityRow :=
  let '(genre, artist_popularity, song_count) := l in
  match List.filter (fun r => String.eqb (fst (fst r)) genre) df_overall with
  | [] => [mkPopularityRow genre artist_popularity song_count
                           None None None false]
  | matches =>
      List.map (fun r =>
                  let difference := (artist_popularity - snd (fst r))%Q in
                  mkPopularityRow genre artist_popularity song_count
                                  (Some (snd (fst r))) (Some (snd r))
                                  (Some difference) (Qltb 0%Q difference))
               matches
  end.

Definition popularity_desc (x y : PopularityRow) : bool :=
  Qle_bool (pr_ArtistPopularity y) (pr_ArtistPopularity x).

(** [get_artist_popularity]: the returned frame ([None] when the artist
    is unknown) and the suggestions printed in that case. *)
Definition get_artist_popularity (artist_name : string) (db : Database)
  : option (list PopularityRow) * list string :=
  if negb (validate_artist artist_name db) then
    match get_similar_artists artist_name db 3 with
    | inr suggestions => (None, suggestions)
    | inl _ => (None, [])
    end
  else
    let df_artist := query_artist artist_name db in
    let df_overall := query_overall db in
    let df := flat_map (merge_row df_overall) df_artist in
    (Some (SQL.order_by popularity_desc df), []).

(** ** Genres.py *)

(** [validate_year] *)
Definition validate_year (year : Z) : bool :=
  ((1998 <=? year) && (year <=? 2020))%Z.

(** [SELECT Year, COUNT( * ) as count FROM Song GROUP BY Year] *)
Definition year_counts (db : Database) : list (Z * nat) :=
  List.map (fun g => (fst g, length (snd g)))
           (SQL.group_by Z.eqb s_Year (Song db)).

Definition nearer (year : Z) (x y : Z * nat) : bool :=
  (Z.abs (fst x - year) <=? Z.abs (fst y - year))%Z.

(** [... HAVING count > ? ORDER BY ABS(Year - ?) LIMIT 2] *)
Definition nearby_years (min_songs year : Z) (db : Database)
  : list (Z * nat) :=
  firstn 2
    (SQL.order_by (nearer year)
       (List.filter (fun yc => (min_songs <? Z.of_nat (snd yc))%Z)
                    (year_counts db))).

Record GenreStat : Type := mkGenreStat {
  gs_Genre : string;
  gs_AvgDanceability : Q;
  gs_AvgPopularity : Q;
  gs_AvgSpeechiness : Q;
  gs_SongCount : nat;
  gs_Percentage : Q
}.

(** What [get_genre_statistics] prints before it answers. *)
Inductive notice : Type :=
| InvalidYear
| NoSongs (alternatives : list (Z * nat))
| LimitedData (song_count : nat) (better_years : list (Z * nat))
| Silent.

Definition song_count_desc (x y : GenreStat) : bool :=
  (gs_SongCount y <=? gs_SongCount x)%nat.

(** The main query: the songs of the year joined with their genres,
    grouped by genre; [SUM(COUNT( * )) OVER ()] is the sum of the counts
    of all the groups. *)
Definition genre_query (year : Z) (db : Database) : list GenreStat :=
  let GenreSongs :=
    List.filter (fun x => (s_Year (fst x) =? year)%Z) (song_genres db) in
  let groups := SQL.group_by String.eqb snd GenreSongs in
  let total := fold_right Nat.add 0 (List.map (fun g => length (snd g)) groups) in
  SQL.order_by song_count_desc
    (List.map
       (fun g =>
          let songs := List.map fst (snd g) in
          let count := length (snd g) in
          mkGenreStat
            (fst g)
            (SQL.round (SQL.avg (List.map s_Danceability songs)) 3)
            (SQL.round (SQL.avg (List.map s_Popularity songs)) 1)
            (SQL.round (SQL.avg (List.map s_Speechiness songs)) 3)
            count
            (SQL.round (inject_Z (Z.of_nat count) * (100 # 1)
                        / inject_Z (Z.of_nat total)) 1))
       groups).

(** [get_genre_statistics]: the returned frame and what was printed. *)
Definition get_genre_statistics (year : Z) (db : Database) (min_songs : Z)
  : option (list GenreStat) * notice :=
  if negb (validate_year year) then (None, InvalidYear)
  else
    let song_count :=
      length (List.filter (fun s => (s_Year s =? year)%Z) (Song db)) in
    if (song_count =? 0)%nat then
      (None, NoSongs (nearby_years min_songs year db))
    else
      let printed :=
        if (Z.of_nat song_count <? min_songs)%Z
        then LimitedData song_count (nearby_years min_songs year db)
        else Silent in
      match genre_query year db with
      | [] => (None, printed)
      | df => (Some df, printed)
      end.

(** ** Top5.py *)

Record RankingWeights : Type := mkRankingWeights {
  song_weight : Q;
  popularity_weight : Q
}.

(** [np.isclose(a, b)] with its default tolerances [rtol=1e-05] and
    [atol=1e-08]: [|a - b| <= atol + rtol * |b|]. *)
Definition rtol : Q := (1 # 100000)%Q.
Definition atol : Q := (1 # 100000000)%Q.

Definition isclose (a b : Q) : bool :=
  Qle_bool (Qabs (a - b)) (atol + rtol * Qabs b).

(** [RankingWeights.__init__] *)
Definition RankingWeights_init (song_weight popularity_weight : Q)
  : result RankingWeights :=
  if negb (isclose (song_weight + popularity_weight) (1 # 1))
  then raise ValueError
  else ok (mkRankingWeights song_weight popularity_weight).

(** [validate_year_range] *)
Definition validate_year_range (start_year end_year : Z) : bool :=
  if ((start_year <? 1998) || (2020 <? end_year))%Z then false
  else if (end_year <? start_year)%Z then false
  else true.

(** The built-in [min(a, b)]: [b] when [b < a], else [a]. *)
Definition py_min (a b : Q) : Q := if Qltb b a then b else a.

Definition normalized_songs (num_songs : Z) : Q :=
  let max_songs := (100 # 1)%Q in
  py_min ((inject_Z num_songs / max_songs) * (100 # 1)) (100 # 1).

(** [calculate_ranking_value] *)
Definition calculate_ranking_value (num_songs : Z) (avg_popularity : Q)
    (weights : RankingWeights) : Q :=
  (song_weight weights * normalized_songs num_songs
   + popularity_weight weights * avg_popularity)%Q.

(** A row of the per artist and year frame, with its [RankValue]. *)
Record ArtistYear : Type := mkArtistYear {
  ay_Artist : string;
  ay_Year : Z;
  ay_NumSongs : nat;
  ay_AvgPopularity : Q;
  ay_RankValue : Q
}.

(** A row of [top_artists]. *)
Record ArtistTotal : Type := mkArtistTotal {
  at_Artist : string;
  at_RankValue : Q;
  at_NumSongs : nat;
  at_AvgPopularity : Q
}.

(** A frame with one row per label and one optional value per column. *)
Record Pivot : Type := mkPivot {
  columns : list Z;
  rows : list (string * list (option Q))
}.

Definition same_artist_year (x y : string * Z) : bool :=
  String.eqb (fst x) (fst y) && (snd x =? snd y)%Z.

Definition year_then_count (x y : ArtistYear) : bool :=
  (ay_Year x <? ay_Year y)%Z
  || ((ay_Year x =? ay_Year y)%Z && (ay_NumSongs y <=? ay_NumSongs x)%nat).

(** [FROM Song s JOIN Artist a ... WHERE s.Year BETWEEN ? AND ?] *)
Definition songs_in_range (start_year end_year : Z) (db : Database)
  : list (SongRow * string) :=
  List.filter (fun x => ((start_year <=? s_Year (fst x))
                         && (s_Year (fst x) <=? end_year))%Z)
              (song_artists db).

(** [GROUP BY a.Name, s.Year] *)
Definition artist_year_key (x : SongRow * string) : string * Z :=
  (snd x, s_Year (fst x)).

(** The row of one group: the count, the rounded average and the value
    [calculate_ranking_value] gives for them. *)
Definition stats_row (weights : RankingWeights)
    (g : string * Z * list (SongRow * string)) : ArtistYear :=
  let num_songs := length (snd g) in
  let avg_popularity := SQL.round (SQL.avg (popularities (snd g))) 2 in
  mkArtistYear (fst (fst g)) (snd (fst g)) num_songs avg_popularity
    (calculate_ranking_value (Z.of_nat num_songs) avg_popularity weights).

(** The query of [get_top_artists] with the [RankValue] column added. *)
Definition artist_year_stats (start_year end_year : Z)
    (weights : RankingWeights) (db : Database) : list ArtistYear :=
  let groups :=
    SQL.group_by same_artist_year artist_year_key
                 (songs_in_range start_year end_year db) in
  let having := List.filter (fun g => (0 <? length (snd g))%nat) groups in
  SQL.order_by year_then_count (List.map (stats_row weights) having).

Definition rank_desc (x y : ArtistTotal) : bool :=
  Qle_bool (at_RankValue y) (at_RankValue x).

(** The aggregates of one artist: sum, sum and mean. *)
Definition total_row (g : string * list ArtistYear) : ArtistTotal :=
  mkArtistTotal (fst g)
    (SQL.sum (List.map ay_RankValue (snd g)))
    (fold_right Nat.add 0 (List.map ay_NumSongs (snd g)))
    (SQL.avg (List.map ay_AvgPopularity (snd g))).

(** [df.groupby('Artist').agg(...)], sorted by [RankValue], first five;
    the groups come in the order of their keys. *)
Definition top_artists (df : list ArtistYear) : list ArtistTotal :=
  let groups :=
    SQL.order_by (fun x y => String.leb (fst x) (fst y))
                 (SQL.group_by String.eqb ay_Artist df) in
  firstn 5 (SQL.order_by rank_desc (List.map total_row groups)).

(** The mean of the values present; missing when there is none. *)
Definition mean_skipna (l : list (option Q)) : option Q :=
  match omap id l with
  | [] => None
  | vs => Some (SQL.avg vs)
  end.

(** The cell of the pivot for an artist and a year: the mean of the
    matching values. *)
Definition pivot_value (df : list ArtistYear) (a : string) (y : Z)
  : option Q :=
  mean_skipna
    (List.map (fun r => Some (ay_RankValue r))
       (List.filter (fun r => String.eqb (ay_Artist r) a && (ay_Year r =? y)%Z)
                    df)).

(** [pd.pivot_table(df, values='RankValue', index='Artist',
    columns='Year')]: labels and columns sorted, a cell missing when
    nothing matches. *)
Definition pivot_table (df : list ArtistYear) : Pivot :=
  let index :=
    SQL.order_by String.leb (distinct String.eqb (List.map ay_Artist df)) in
  let cols :=
    SQL.order_by Z.leb (distinct Z.eqb (List.map ay_Year df)) in
  mkPivot cols
    (List.map (fun a => (a, List.map (pivot_value df a) cols)) index).

(** [frame.mean()]: one mean per column. *)
Definition column_means (p : Pivot) : list (option Q) :=
  List.map (fun i => mean_skipna (List.map (fun r => nth i (snd r) None)
                                           (rows p)))
           (seq 0 (length (columns p))).

(** [frame.loc[label] = values]: the row of that label is replaced, or
    the row is appended when the label is new. *)
Definition loc_set (label : string) (values : list (option Q))
    (rs : list (string * list (option Q)))
  : list (string * list (option Q)) :=
  if existsb (fun r => String.eqb (fst r) label) rs
  then List.map (fun r => if String.eqb (fst r) label then (label, values)
                          else r) rs
  else rs ++ [(label, values)].

(** [df['Artist'].isin(top_artists.index)] *)
Definition isin (top : list ArtistTotal) (r : ArtistYear) : bool :=
  existsb (fun t => String.eqb (at_Artist t) (ay_Artist r)) top.

(** [get_top_artists]: [(yearly_data, top_artists)], or [None] when the
    range holds no song. *)
Definition get_top_artists (start_year end_year : Z)
    (weights : RankingWeights) (db : Database)
  : option (Pivot * list ArtistTotal) :=
  match artist_year_stats start_year end_year weights db with
  | [] => None
  | df =>
      let top := top_artists df in
      let yearly_data := pivot_table (List.filter (isin top) df) in
      let yearly_data :=
        mkPivot (columns yearly_data)
                (loc_set "Average" (column_means yearly_data)
                         (rows yearly_data)) in
      Some (yearly_data, top)
  end.

(** Reading a cell: [None] when the label or the column is absent or the
    cell is missing. *)
Definition pivot_cell (p : Pivot) (label : string) (yr : Z) : option Q :=
  match List.find (fun r => String.eqb (fst r) label) (rows p) with
  | None => None
  | Some r =>
      match List.find (fun cv => (fst cv =? yr)%Z) (combine (columns p) (snd r)) with
      | Some cv => snd cv
      | None => None
      end
  end.

(** ** The weight check and the ranking value on binary64 numbers

    [RankingWeights.__init__] and [calculate_ranking_value] on IEEE 754
    binary64 numbers, every operation rounded as Python rounds it; the
    song count is given as the float it is converted to.  The weight
    check is decided by a comparison at the edge of a tolerance, where
    the rounding of the sum matters: its properties are stated on this
    model. *)

Module Binary64.

Import PrimFloat.
Local Open Scope float_scope.
Local Set Warnings "-inexact-float".

Record RankingWeights : Type := mkRankingWeights {
  song_weight : float;
  popularity_weight : float
}.

(** [np.isclose(a, b)] with the default [rtol=1e-05], [atol=1e-08]; a
    sum that is infinite or not a number is not close to [b]. *)
Definition isclose (a b : float) : bool :=
  abs (a - b) <=? 1e-8 + 1e-5 * abs b.

(** [RankingWeights.__init__] *)
Definition RankingWeights_init (song_weight popularity_weight : float)
  : result RankingWeights :=
  if negb (isclose (song_weight + popularity_weight) 1) then raise ValueError
  else ok (mkRankingWeights song_weight popularity_weight).

(** [RankingWeights.__init__] returns normally. *)
Definition accepts (song_weight popularity_weight : float) : bool :=
  isclose (song_weight + popularity_weight) 1.

Definition py_min (a b : float) : float := if b <? a then b else a.

Definition normalized_songs (num_songs : float) : float :=
  py_min ((num_songs / 100) * 100) 100.

Definition calculate_ranking_value (num_songs avg_popularity song_weight
    popularity_weight : float) : float :=
  song_weight * normalized_songs num_songs + popularity_weight * avg_popularity.

(** [|a + b - 1.0|], the sum and the difference rounded to binary64. *)
Definition distance (a b : float) : float := abs (a + b - 1).

(** The tolerance of [np.isclose] around 1.0, as binary64 computes it. *)
Definition tolerance : float := 1e-8 + 1e-5 * abs 1.

(** The tolerance the documentation names. *)
Definition documented_tolerance : float := 1e-9.

(** [|a + b - 1.0| <= 1e-9] *)
Definition within_1e9 (a b : float) : bool := distance a b <=? documented_tolerance.

Definition is_nan (x : float) : bool := negb (x =? x).

(** The rational number a finite binary64 number denotes. *)
Definition to_Q (x : float) : option Q :=
  match FloatOps.Prim2SF x with
  | SpecFloat.S754_zero _ => Some 0%Q
  | SpecFloat.S754_finite s m e =>
      let v := (inject_Z (Z.pos m) * Qpower 2 e)%Q in
      Some (if s then Qopp v else v)
  | _ => None
  end.

End Binary64.

(** ** Predicates used in the statements *)

Definition is_text (c : cell) : bool :=
  match c with
  | Text _ _ => true
  | _ => false
  end.

Definition is_infinite (c : cell) : bool :=
  match c with
  | Inf _ => true
  | _ => false
  end.

(** The two coerced columns, as [filter_data] leaves them in the frame. *)
Definition coerced {T B} (r : record_of T B) : record_of T B :=
  set_danceability (Series.to_numeric (danceability r))
    (set_popularity (Series.to_numeric (popularity r)) r).

(** A cell holds a number above [x] (the positive infinity is one), or a
    finite number from [l] to [r]. *)
Definition above (x : Q) (c : cell) : bool :=
  match c with
  | Num q => Qltb x q
  | Inf negative => negb negative
  | _ => false
  end.

Definition within (l r : Q) (c : cell) : bool :=
  match c with
  | Num q => Qle_bool l q && Qle_bool q r
  | _ => false
  end.

(** The three predicates of the filter on one row. *)
Definition retained {T B} (r : record_of T B) : bool :=
  above (50 # 1) (Series.to_numeric (popularity r))
  && above (20 # 100) (Series.to_numeric (danceability r))
  && within (33 # 100) (66 # 100) (speechiness r).

(** The three numeric cells of a row hold finite numbers. *)
Definition numeric {T B} (r : record_of T B) : Prop :=
  exists p d s,
    popularity r = Num p /\ danceability r = Num d /\ speechiness r = Num s.

(** The values [sorted] accepts: no missing value beside a [str]. *)
Definition sortable (l : list (option string)) : Prop :=
  ~ (In None l /\ exists a, In (Some a) l).

Definition example_row (p d s : Q) : record :=
  mkRecord "A" "t" 200 false 2010 (Num p) (Num d) (Num s) ["pop"].


(** A record whose genre cell names one genre twice. *)
Definition repeated_genre_frame : list record :=
  [mkRecord "A" "t" 200 false 2010 (Num (60 # 1)) (Num (1 # 2)) (Num (1 # 2))
            (clean_genres (Some "pop, pop"))].

Definition two_record_frame : list record :=
  [mkRecord "A" "t" 200 false 2010 (Num (60 # 1)) (Num (1 # 2)) (Num (1 # 2))
            (clean_genres (Some "pop, rock"));
   mkRecord "A" "u" 180 true 2011 (Num (70 # 1)) (Num (1 # 2)) (Num (2 # 5))
            (clean_genres (Some "pop"))].


(** A frame whose only record has text in the given column and passes
    the other predicates. *)
Definition text_popularity_frame : list record :=
  [mkRecord "A" "t" 200 false 2010 (Text "high" Unreadable) (Num (21 # 100))
            (Num (50 # 100)) ["pop"]].

Definition text_danceability_frame : list record :=
  [mkRecord "A" "t" 200 false 2010 (Num (51 # 1)) (Text "high" Unreadable)
            (Num (50 # 100)) ["pop"]].

Definition text_speechiness_frame : list record :=
  [mkRecord "A" "t" 200 false 2010 (Num (51 # 1)) (Num (21 # 100))
            (Text "high" Unreadable) ["pop"]].

(** The ranking value in the words of the specification. *)
Definition spec_ranking_value (n : Z) (p song_w popularity_w : Q) : Q :=
  (song_w * Qmin ((inject_Z n / (100 # 1)) * (100 # 1)) (100 # 1)
   + popularity_w * p)%Q.

(** The number of songs of a year in the store. *)
Definition songs_in_year (y : Z) (db : Database) : nat :=
  length (List.filter (fun s => (s_Year s =? y)%Z) (Song db)).

Definition song_of_year (id : nat) (y : Z) : SongRow :=
  mkSong id "t" 200 false y (60 # 1) (1 # 2) (1 # 2) 1.

(** A store with songs in 2009 (one), 2010 (two) and 2013 (two). *)
Definition sparse_years_db : Database :=
  mkDatabase [mkArtist 1 "A"] [mkGenre 1 "pop"]
    [song_of_year 1 2009; song_of_year 2 2010; song_of_year 3 2010;
     song_of_year 4 2013; song_of_year 5 2013]
    [mkSongGenre 1 1].

(** The song and genre pairs of a year, and those of one genre. *)
Definition year_links (year : Z) (db : Database) : list (SongRow * string) :=
  List.filter (fun x => (s_Year (fst x) =? year)%Z) (song_genres db).

Definition genre_links (year : Z) (g : string) (db : Database)
  : list (SongRow * string) :=
  List.filter (fun x => String.eqb g (snd x)) (year_links year db).

(** The percentage as the share of the songs of the year. *)
Definition share_of_songs (row : GenreStat) (year : Z) (db : Database) : Q :=
  SQL.round (inject_Z (Z.of_nat (gs_SongCount row)) * (100 # 1)
             / inject_Z (Z.of_nat (songs_in_year year db))) 1.

(** The percentage as the share of the song and genre pairs of the year. *)
Definition share_of_links (row : GenreStat) (year : Z) (db : Database) : Q :=
  SQL.round (inject_Z (Z.of_nat (gs_SongCount row)) * (100 # 1)
             / inject_Z (Z.of_nat (length (year_links year db)))) 1.

(** One song of 2010 with the two genres pop and rock. *)
Definition two_genre_db : Database :=
  mkDatabase [mkArtist 1 "A"] [mkGenre 1 "pop"; mkGenre 2 "rock"]
    [song_of_year 1 2010] [mkSongGenre 1 1; mkSongGenre 1 2].

(** The joined rows of an artist in a genre, and of all artists in it. *)
Definition artist_genre_songs (name g : string) (db : Database)
  : list (SongRow * string * string) :=
  List.filter (fun x => String.eqb g (snd x))
    (List.filter (fun x => String.eqb (snd (fst x)) name)
                 (song_artist_genres db)).

Definition genre_songs (g : string) (db : Database) : list (SongRow * string) :=
  List.filter (fun x => String.eqb g (snd x)) (song_genres db).

(** The two per-genre averages, each rounded to 2 decimal places. *)
Definition artist_average (name g : string) (db : Database) : Q :=
  SQL.round
    (SQL.avg (popularities (List.map fst (artist_genre_songs name g db)))) 2.

Definition overall_average (g : string) (db : Database) : Q :=
  SQL.round (SQL.avg (popularities (genre_songs g db))) 2.

(** Two artists with one Pop song each, of popularity 70 and 30. *)
Definition pop_db : Database :=
  mkDatabase [mkArtist 1 "A"; mkArtist 2 "B"] [mkGenre 1 "Pop"]
    [mkSong 1 "t" 200 false 2010 (70 # 1) (1 # 2) (1 # 2) 1;
     mkSong 2 "u" 200 false 2010 (30 # 1) (1 # 2) (1 # 2) 2]
    [mkSongGenre 1 1; mkSongGenre 2 1].

(** The row of artist "A" in that store. *)
Definition pop_row : PopularityRow :=
  mkPopularityRow "Pop" (70 # 1) 1 (Some (50 # 1)%Q) (Some 2)
                  (Some (20 # 1)%Q) true.

(** The suggestions in the words of the specification: a stored name
    matches a token when it contains it as a substring, letters compared
    without regard to case; the names that match a token are ranked by
    the number of tokens they match, descending, then by length,
    ascending, and capped. *)
Fixpoint prefix_ci (t s : string) : bool :=
  match t, s with
  | EmptyString, _ => true
  | String _ _, EmptyString => false
  | String c t', String d s' =>
      Ascii.eqb (Str.lower_char c) (Str.lower_char d) && prefix_ci t' s'
  end.

Fixpoint contains_ci (t s : string) : bool :=
  prefix_ci t s
  || match s with
     | EmptyString => false
     | String _ s' => contains_ci t s'
     end.

Definition matching_tokens (name stored : string) : nat :=
  length (List.filter (fun t => contains_ci t stored)
                      (Str.split_ws (Str.lower name))).

Definition spec_suggestion_le (name : string) (x y : string) : bool :=
  (matching_tokens name y <? matching_tokens name x)%nat
  || ((matching_tokens name x =? matching_tokens name y)%nat
      && (String.length x <=? String.length y)%nat).

Definition spec_suggestions (name : string) (stored : list string)
    (limit : nat) : list string :=
  firstn limit
    (SQL.order_by (spec_suggestion_le name)
       (List.filter (fun s => (0 <? matching_tokens name s)%nat) stored)).

(** A store with the artists "John Legend" and "Johnny". *)
Definition legend_db : Database :=
  mkDatabase [mkArtist 1 "John Legend"; mkArtist 2 "Johnny"] [] [] [].

(** The songs of an artist in a year of the range, and the rank value
    of that artist and year. *)
Definition artist_year_songs (start_year end_year : Z) (db : Database)
    (a : string) (y : Z) : list (SongRow * string) :=
  List.filter (fun x => same_artist_year (a, y) (artist_year_key x))
              (songs_in_range start_year end_year db).

Definition has_data (start_year end_year : Z) (db : Database) (a : string)
    (y : Z) : bool :=
  (0 <? length (artist_year_songs start_year end_year db a y))%nat.

Definition rank_of (start_year end_year : Z) (weights : RankingWeights)
    (db : Database) (a : string) (y : Z) : Q :=
  let songs := artist_year_songs start_year end_year db a y in
  calculate_ranking_value (Z.of_nat (length songs))
    (SQL.round (SQL.avg (popularities songs)) 2) weights.

(** The years from [start_year] to [end_year]. *)
Definition years (start_year end_year : Z) : list Z :=
  List.map (fun i => (start_year + Z.of_nat i)%Z)
           (seq 0 (Z.to_nat (end_year - start_year + 1))).

(** Artist "A" with songs in 2010 and 2012, artist "B" with songs in
    2010 and 2011. *)
Definition ranking_db : Database :=
  mkDatabase [mkArtist 1 "A"; mkArtist 2 "B"] [] 
    [mkSong 1 "a" 200 false 2010 (60 # 1) (1 # 2) (1 # 2) 1;
     mkSong 2 "b" 200 false 2012 (70 # 1) (1 # 2) (1 # 2) 1;
     mkSong 3 "c" 200 false 2010 (80 # 1) (1 # 2) (1 # 2) 2;
     mkSong 4 "d" 200 false 2011 (50 # 1) (1 # 2) (1 # 2) 2]
    [].

(** The row of the per artist and year frame for an artist and a year,
    and the key of a row. *)
Definition stats_row_of (start_year end_year : Z) (weights : RankingWeights)
    (db : Database) (k : string * Z) : ArtistYear :=
  stats_row weights (k, artist_year_songs start_year end_year db (fst k) (snd k)).

Definition row_key (r : ArtistYear) : string * Z := (ay_Artist r, ay_Year r).

(** The weights of [analyze_top_artists] and the result for the years
    2010 to 2012 of that store. *)
Definition default_weights : RankingWeights := mkRankingWeights (4 # 10) (6 # 10).

Definition ranking_yearly : Pivot :=
  Eval vm_compute in
    match get_top_artists 2010 2012 default_weights ranking_db with
    | Some (yearly, _) => yearly
    | None => mkPivot [] []
    end.

Definition ranking_top : list ArtistTotal :=
  Eval vm_compute in
    match get_top_artists 2010 2012 default_weights ranking_db with
    | Some (_, top) => top
    | None => []
    end.


(** ** The store a frame is loaded into *)

(** The rows an AUTOINCREMENT table receives for a list of values, the
    first id being [next]. *)
Fixpoint with_ids {A B} (mk : nat -> A -> B) (next : nat) (l : list A)
  : list B :=
  match l with
  | [] => []
  | x :: t => mk next x :: with_ids mk (S next) t
  end.

(** The position of the first occurrence of a string in a list. *)
Fixpoint index_of (l : list string) (a : string) : nat :=
  match l with
  | [] => 0
  | x :: t => if String.eqb x a then 0 else S (index_of t a)
  end.

(** The number a numeric cell holds. *)
Definition cell_number (c : cell) : Q :=
  match c with
  | Num q => q
  | _ => 0%Q
  end.

(** The ids the two dicts of the loader hold for an artist name and for
    a genre label of the frame. *)
Definition artist_id (df : list record) (a : string) : nat :=
  S (index_of (unique (List.map artist df)) a).

Definition genre_id (iter : set_order) (df : list record) (g : string)
  : nat :=
  S (index_of (iter (unique_genres df)) g).

(** The Song row and the SongGenre rows of the record that receives the
    song id [i], for given ids of the artists and of the genres. *)
Definition song_row (aid : string -> nat) (i : nat) (r : record) : SongRow :=
  mkSong i (song r) (duration r) (explicit r) (year r)
         (cell_number (popularity r)) (cell_number (danceability r))
         (cell_number (speechiness r)) (aid (artist r)).

Definition link_rows (gid : string -> nat) (i : nat) (r : record)
  : list SongGenreRow :=
  List.map (fun g => mkSongGenre i (gid g)) (genres r).

Definition song_of_record (df : list record) : nat -> record -> SongRow :=
  song_row (artist_id df).

Definition links_of_record (iter : set_order) (df : list record)
  : nat -> record -> list SongGenreRow :=
  link_rows (genre_id iter df).

(** The store after a complete load of the frame of the records [df],
    the genres being visited in the order [iter]: the artists are
    numbered in order of first appearance, the genres in the order of
    their visit, the songs in the order of the rows. *)
Definition loaded_store (iter : set_order) (df : list record) : Database :=
  mkDatabase
    (with_ids mkArtist 1 (unique (List.map artist df)))
    (with_ids mkGenre 1 (iter (unique_genres df)))
    (with_ids (song_of_record df) 1 df)
    (concat (with_ids (links_of_record iter df) 1 df)).

(** A frame the loader accepts: numbers in the three numeric columns and
    no genre twice in a record. *)
Definition loadable (df : list record) : Prop :=
  Forall numeric df /\ Forall (fun r => List.NoDup (genres r)) df.

(** A row with a missing artist, title or explicit cell. *)
Definition missing_text (r : row) : Prop :=
  artist r = None \/ song r = None \/ explicit r = None.

(** The three numeric cells of a row hold finite numbers or are
    missing: no [str] and no infinity. *)
Definition storable {T B} (r : record_of T B) : Prop :=
  (is_text (popularity r) = false /\ is_infinite (popularity r) = false) /\
  (is_text (danceability r) = false /\ is_infinite (danceability r) = false) /\
  (is_text (speechiness r) = false /\ is_infinite (speechiness r) = false).

(** A row the loader can insert. *)
Definition loadable_row (r : row) : Prop :=
  ~ missing_text r /\ numeric r /\ List.NoDup (genres r).

(** The frame [two_record_frame] followed by a record that names a genre
    twice. *)
Definition late_repeat_frame : list record :=
  two_record_frame ++ repeated_genre_frame.

(** No text in the three numeric cells of a record; a missing value in
    one of them. *)
Definition text_free {T B} (r : record_of T B) : Prop :=
  is_text (popularity r) = false /\ is_text (danceability r) = false /\
  is_text (speechiness r) = false.

Definition missing_cell {T B} (r : record_of T B) : Prop :=
  popularity r = NaN \/ danceability r = NaN \/ speechiness r = NaN.

(** A frame with a record that lacks its popularity. *)
Definition missing_popularity_frame : list record :=
  [mkRecord "A" "t" 200 false 2010 NaN (Num (1 # 2)) (Num (1 # 2)) ["pop"]].

(** The frame of [two_record_frame] followed by a row without a title,
    and preceded by a row without an artist. *)
Definition untitled_row : row :=
  mkRecord (Some "B") None 200 (Some false) 2010
           (Num (60 # 1)) (Num (1 # 2)) (Num (1 # 2)) ["pop"].

Definition anonymous_row : row :=
  mkRecord None (Some "w") 200 (Some false) 2010
           (Num (60 # 1)) (Num (1 # 2)) (Num (1 # 2)) ["pop"].

Definition late_untitled_frame : list row :=
  frame two_record_frame ++ [untitled_row].

Definition anonymous_frame : list row :=
  anonymous_row :: frame two_record_frame.

(** The genres of [two_record_frame] visited in the order of the
    alphabet and against it. *)
Definition alphabetical : set_order :=
  fun s => SQL.order_by String.leb (elements s).

Definition reverse_alphabetical : set_order :=
  fun s => List.rev (SQL.order_by String.leb (elements s)).


(** A row passes the filter: its popularity is a number above 50, its
    danceability a number above 0.20, the positive infinity being such a
    number, and its speechiness a finite number from 0.33 to 0.66. *)
Definition exceeds (x : Q) (c : cell) : Prop :=
  (exists q, c = Num q /\ (x < q)%Q) \/ c = Inf false.

Definition passes {T B} (r : record_of T B) : Prop :=
  exceeds (50 # 1) (popularity r) /\
  exceeds (20 # 100) (danceability r) /\
  exists s, speechiness r = Num s /\ (33 # 100 <= s)%Q /\ (s <= 66 # 100)%Q.

(** A frame that passes the filter in part: the second row has a
    popularity of 50, the third a popularity that is no number, the
    fourth holds its popularity as a [str] that spells 60, the fifth has
    no title. *)
Definition mixed_frame : list row :=
  [complete (example_row (60 # 1) (1 # 2) (1 # 2));
   complete (example_row (50 # 1) (1 # 2) (1 # 2));
   mkRecord (Some "B") (Some "u") 180 (Some true) 2011
            (Text "high" Unreadable) (Num (1 # 2)) (Num (2 # 5)) ["rock"];
   mkRecord (Some "C") (Some "v") 180 (Some true) 2011
            (Text "60" (Reads (60 # 1))) (Num (1 # 2)) (Num (2 # 5)) ["rock"];
   mkRecord (Some "B") None 180 (Some true) 2011
            (Num (51 # 1)) (Inf false) (Num (33 # 100)) ["rock"]].

Definition mixed_frame_filtered : list row :=
  [complete (example_row (60 # 1) (1 # 2) (1 # 2));
   mkRecord (Some "C") (Some "v") 180 (Some true) 2011
            (Num (60 # 1)) (Num (1 # 2)) (Num (2 # 5)) ["rock"];
   mkRecord (Some "B") None 180 (Some true) 2011
            (Num (51 # 1)) (Inf false) (Num (33 # 100)) ["rock"]].

(** Two rows that pass the filter, one of them without an artist. *)
Definition unsortable_frame : list row :=
  [complete (example_row (60 # 1) (1 # 2) (1 # 2));
   mkRecord None (Some "u") 180 (Some true) 2011
            (Num (60 # 1)) (Num (1 # 2)) (Num (2 # 5)) ["rock"]].

(** ** load_and_clean_data, on the frame [read_csv] delivers *)

(** One row of the frame as read: the text cells and the flag may be
    missing; the numeric columns and the genre column may hold a number,
    an infinity, a missing value or a [str]. *)
Record raw_record : Type := mkRaw {
  raw_artist : option string;
  raw_song : option string;
  raw_duration_ms : cell;
  raw_explicit : option bool;
  raw_year : cell;
  raw_genre : cell;
  raw_popularity : cell;
  raw_danceability : cell;
  raw_speechiness : cell
}.

(** What [load_and_clean_data] may raise (and re-raises after logging):
    the division of a [str] by 1000, the cast of a missing or infinite
    value to [int], and the [.str] accessor on a column that holds no
    string. *)
Inductive clean_error : Type :=
| DivisionTypeError
| IntCastingNaNError
| StrAccessorAttributeError.

(** [Series.round()]: to the nearest integer, a half to the even one. *)
Definition round_half_even (q : Q) : Z :=
  let f := Qfloor q in
  let d := (q - inject_Z f)%Q in
  if Qltb d (1 # 2) then f
  else if Qltb (1 # 2) d then (f + 1)%Z
  else if Z.even f then f else (f + 1)%Z.

(** The integer part of a float: the fraction is cut off. *)
Definition truncate (q : Q) : Z :=
  if Qle_bool 0%Q q then Qfloor q else Qceiling q.

(** The bounds of [int64], the type [astype(int)] casts to. *)
Definition int64_min : Z := (- 2 ^ 63)%Z.
Definition int64_max : Z := (2 ^ 63 - 1)%Z.

Definition in_int64 (z : Z) : bool :=
  ((int64_min <=? z) && (z <=? int64_max))%Z.

(** The cast of an integral float to [int64]: a value beyond the range
    of [int64] becomes the least [int64], as NumPy casts on x86-64. *)
Definition to_int64 (z : Z) : Z := if in_int64 z then z else int64_min.

(** [dfSongs['duration_ms'] / 1000]: a [str] cell fails the division of
    the whole column. *)
Definition divide_by_1000 (c : cell) : result cell :=
  match c with
  | Num q => ok (Num (q / (1000 # 1)))
  | Inf negative => ok (Inf negative)
  | NaN => ok NaN
  | Text _ _ => raise TypeError
  end.

(** [.round()] on one cell. *)
Definition round_cell (c : cell) : cell :=
  match c with
  | Num q => Num (inject_Z (round_half_even q))
  | _ => c
  end.

(** [.astype(int)] on one cell of a float column: a missing or infinite
    value cannot be cast (an IntCastingNaNError, which is a ValueError). *)
Definition astype_int (c : cell) : result Z :=
  match c with
  | Num q => ok (to_int64 (truncate q))
  | _ => raise ValueError
  end.

(** The [duration] column, or the error of the statement that builds it. *)
Definition duration_column (dfSongs : list raw_record)
  : clean_error + list Z :=
  match mapM divide_by_1000 (List.map raw_duration_ms dfSongs) with
  | inl _ => inl DivisionTypeError
  | inr quotients =>
      match mapM astype_int (List.map round_cell quotients) with
      | inl _ => inl IntCastingNaNError
      | inr durations => inr durations
      end
  end.

(** The year of a row after [pd.to_numeric(errors='coerce')]. *)
Definition coerced_year (x : raw_record) : cell :=
  Series.to_numeric (raw_year x).

(** [dropna(subset=['year'])]: the rows whose coerced year is not the
    missing value, each with its duration. *)
Definition dropna_year (rows : list (raw_record * Z))
  : list (raw_record * Z) :=
  List.filter (fun xd => Series.notna (coerced_year (fst xd))) rows.

(** [dfSongs['year'].astype(int)] on the rows that are left. *)
Definition year_column (rows : list (raw_record * Z))
  : clean_error + list Z :=
  match mapM astype_int (List.map (fun xd => coerced_year (fst xd)) rows) with
  | inl _ => inl IntCastingNaNError
  | inr years => inr years
  end.

(** The string of a cell of the genre column; [.str.split] gives the
    missing value for a cell that is no [str]. *)
Definition genre_text (c : cell) : option string :=
  match c with
  | Text s _ => Some s
  | _ => None
  end.

Definition clean_record (x : raw_record) (dur yr : Z) : row :=
  mkRecord (raw_artist x) (raw_song x) dur (raw_explicit x) yr
           (raw_popularity x) (raw_danceability x) (raw_speechiness x)
           (clean_genres (genre_text (raw_genre x))).

(** The genre column has the [.str] accessor when it is a column of
    objects: when the frame is empty or some genre cell holds a string.
    The type of the column is that of the frame as read, before any row
    is dropped. *)
Definition has_str_accessor (dfSongs : list raw_record) : bool :=
  match dfSongs with
  | [] => true
  | _ => existsb (fun x => is_text (raw_genre x)) dfSongs
  end.

(** [load_and_clean_data] after [pd.read_csv]. *)
Definition load_and_clean_data (dfSongs : list raw_record)
  : clean_error + list row :=
  match duration_column dfSongs with
  | inl e => inl e
  | inr durations =>
      let kept := dropna_year (combine dfSongs durations) in
      match year_column kept with
      | inl e => inl e
      | inr years =>
          if has_str_accessor dfSongs
          then inr (zip_with (fun xd yr => clean_record (fst xd) (snd xd) yr)
                             kept years)
          else inl StrAccessorAttributeError
      end
  end.

(** ** main of CW_Preprocessing.py *)

Inductive main_error : Type :=
| CleanError (e : clean_error)
| StageError (e : exn).

(** [main]: the three stages in turn; the value is the store committed
    when the function returns [True], an error the exception it
    re-raises.  [iter] is the order in which the run visits the set of
    the genres. *)
Definition Preprocessing_main (iter : set_order) (dfSongs : list raw_record)
  : main_error + Database :=
  match load_and_clean_data dfSongs with
  | inl e => inl (CleanError e)
  | inr dfSongs =>
      match filter_data dfSongs with
      | inl e => inl (StageError e)
      | inr dfFiltered =>
          match create_and_populate_database iter dfFiltered with
          | inl e => inl (StageError e)
          | inr db => inr db
          end
      end
  end.

(** The error of a run, if any. *)
Definition error_of {E A} (r : E + A) : option E :=
  match r with
  | inl e => Some e
  | inr _ => None
  end.

(** The three predicates of the filter on the numbers of a song row. *)
Definition within_thresholds (p d s : Q) : Prop :=
  (50 # 1 < p)%Q /\ (20 # 100 < d)%Q /\ (33 # 100 <= s)%Q /\ (s <= 66 # 100)%Q.

(** A raw frame of five rows.  One field of the year column and one of
    the popularity column are no numbers, so both columns hold their
    fields as [str].  The first and the third row pass; the second has a
    year that cannot be read, the fourth a popularity of 40, the fifth
    no year. *)
Definition raw_frame : list raw_record :=
  [mkRaw (Some "A") (Some "t") (Num (200500 # 1)) (Some false)
         (Text "2010" (Reads (2010 # 1))) (Text "pop, rock" Unreadable)
         (Text "60" (Reads (60 # 1))) (Num (1 # 2)) (Num (1 # 2));
   mkRaw (Some "B") (Some "u") (Num (201500 # 1)) (Some false)
         (Text "unknown" Unreadable) (Text "pop" Unreadable)
         (Text "60" (Reads (60 # 1))) (Num (1 # 2)) (Num (1 # 2));
   mkRaw (Some "A") (Some "v") (Num (180499 # 1)) (Some true)
         (Text "2011" (Reads (2011 # 1))) NaN
         (Text "70" (Reads (70 # 1))) (Num (1 # 2)) (Num (2 # 5));
   mkRaw (Some "C") (Some "w") (Num (180501 # 1)) (Some true)
         (Text "2012" (Reads (2012 # 1))) (Text "set()" Unreadable)
         (Text "40" (Reads (40 # 1))) (Num (1 # 2)) (Num (2 # 5));
   mkRaw None None (Num (1 # 1)) None
         NaN NaN (Text "n/a" Unreadable) NaN NaN].

(** The quotient of a cell that is no [str]. *)
Definition quotient (c : cell) : cell :=
  match c with
  | Num q => Num (q / (1000 # 1))
  | _ => c
  end.

Definition is_number (c : cell) : bool :=
  match c with
  | Num _ => true
  | _ => false
  end.

Definition duration_is_text (x : raw_record) : bool :=
  is_text (raw_duration_ms x).

(** A [duration_ms] that is missing or infinite. *)
Definition duration_not_finite (x : raw_record) : bool :=
  match raw_duration_ms x with
  | NaN => true
  | Inf _ => true
  | _ => false
  end.

Definition year_is_infinite (x : raw_record) : bool :=
  is_infinite (coerced_year x).

(** The rows [dropna] keeps. *)
Definition has_year (x : raw_record) : bool :=
  Series.notna (coerced_year x).

(** The duration and the year [load_and_clean_data] gives a row whose
    [duration_ms] and coerced year are finite numbers. *)
Definition seconds (x : raw_record) : Z :=
  match raw_duration_ms x with
  | Num q => to_int64 (round_half_even (q / (1000 # 1)))
  | _ => 0%Z
  end.

Definition year_of (x : raw_record) : Z :=
  match coerced_year x with
  | Num y => to_int64 (truncate y)
  | _ => 0%Z
  end.

(** The cleaned row of a row that is kept. *)
Definition cleaned (x : raw_record) : row :=
  clean_record x (seconds x) (year_of x).

(** [z] is an integer nearest to [q], the even one of the two when [q]
    lies half way. *)
Definition nearest_even (q : Q) (z : Z) : Prop :=
  (Qabs (q - inject_Z z) <= 1 # 2)%Q /\
  (Qabs (q - inject_Z z) == 1 # 2 -> Z.even z = true)%Q.

(** The duration of a row in seconds.  Up to 2^53 milliseconds, where
    binary64 holds every integer, it is an integer nearest to a
    thousandth of [duration_ms], the even one when two are equally
    near; from 2^63 seconds on the cast leaves the least [int64]. *)
Definition duration_of (ms : Q) (dur : Z) : Prop :=
  ((Qabs ms <= inject_Z (2 ^ 53))%Q -> nearest_even (ms / (1000 # 1)) dur) /\
  ((inject_Z (2 ^ 63) * (1000 # 1) <= Qabs ms)%Q -> dur = int64_min).

(** The year of a row: the coerced year cut to an integer, and the
    least [int64] when that integer is beyond the range of [int64]. *)
Definition year_from (y : Q) (yr : Z) : Prop :=
  (in_int64 (truncate y) = true -> yr = truncate y) /\
  (in_int64 (truncate y) = false -> yr = int64_min).

(** The row is the cleaned form of the row as read. *)
Definition cleaned_from (x : raw_record) (r : row) : Prop :=
  artist r = raw_artist x /\ song r = raw_song x /\
  explicit r = raw_explicit x /\
  popularity r = raw_popularity x /\
  danceability r = raw_danceability x /\
  speechiness r = raw_speechiness x /\
  genres r = clean_genres (genre_text (raw_genre x)) /\
  (exists ms, raw_duration_ms x = Num ms /\ duration_of ms (duration r)) /\
  (exists y, coerced_year x = Num y /\ year_from y (year r)).

(** The rows of the raw frame that pass the filter of [main]: a year
    that is not missing, and the three predicates. *)
Definition selected (x : raw_record) : bool :=
  has_year x
  && above (50 # 1) (Series.to_numeric (raw_popularity x))
  && above (20 # 100) (Series.to_numeric (raw_danceability x))
  && within (33 # 100) (66 # 100) (raw_speechiness x).

(** The popularity and the danceability of a row are not infinite. *)
Definition finite_cells (x : raw_record) : Prop :=
  is_infinite (Series.to_numeric (raw_popularity x)) = false /\
  is_infinite (Series.to_numeric (raw_danceability x)) = false.

(** The song row holds the row of the raw frame, and its artist id is
    the id of the row's artist in the store. *)
Definition stored_as (db : Database) (x : raw_record) (s : SongRow) : Prop :=
  raw_song x = Some (s_Title s) /\
  raw_explicit x = Some (s_Explicit s) /\
  (exists ms, raw_duration_ms x = Num ms /\ duration_of ms (s_Duration s)) /\
  (exists y, coerced_year x = Num y /\ year_from y (s_Year s)) /\
  Series.to_numeric (raw_popularity x) = Num (s_Popularity s) /\
  Series.to_numeric (raw_danceability x) = Num (s_Danceability s) /\
  raw_speechiness x = Num (s_Speechiness s) /\
  within_thresholds (s_Popularity s) (s_Danceability s) (s_Speechiness s) /\
  exists a, raw_artist x = Some a /\
            In (mkArtist (s_ArtistID s) a) (Artist db).

(** A selected row the loader can insert. *)
Definition insertable (x : raw_record) : Prop :=
  raw_artist x <> None /\ raw_song x <> None /\ raw_explicit x <> None /\
  List.NoDup (clean_genres (genre_text (raw_genre x))).

(** The row [main] hands to the loader for a selected row. *)
Definition kept_record (x : raw_record) : row := coerced (cleaned x).

(** The store [main] commits for [raw_frame] when the genres are
    visited in the order of the alphabet. *)
Definition raw_frame_store : Database :=
  mkDatabase
    [mkArtist 1 "A"]
    [mkGenre 1 "pop"; mkGenre 2 "rock"]
    [mkSong 1 "t" 200 false 2010 (60 # 1) (1 # 2) (1 # 2) 1;
     mkSong 2 "v" 180 true 2011 (70 # 1) (1 # 2) (2 # 5) 1]
    [mkSongGenre 1 1; mkSongGenre 1 2].

(** A frame whose speechiness column holds text: the field of the row
    that is dropped for its year is no number, so the field 0.5 of the
    other row is a [str] as well. *)
Definition text_column_frame : list raw_record :=
  [mkRaw (Some "A") (Some "t") (Num (200500 # 1)) (Some false)
         (Num (2010 # 1)) (Text "pop" Unreadable)
         (Num (60 # 1)) (Num (1 # 2)) (Text "0.5" (Reads (1 # 2)));
   mkRaw (Some "B") (Some "u") (Num (201500 # 1)) (Some false)
         NaN (Text "pop" Unreadable)
         (Num (60 # 1)) (Num (1 # 2)) (Text "n/a" Unreadable)].

(** A frame with a duration beyond the range of [int64], and frames with
    an infinite duration and an infinite year. *)
Definition long_frame : list raw_record :=
  [mkRaw (Some "A") (Some "t")
         (Num (1000000000000000000000000000000 # 1)) (Some false)
         (Num (1000000000000000000000000000000 # 1)) (Text "pop" Unreadable)
         (Num (60 # 1)) (Num (1 # 2)) (Num (1 # 2))].

Definition infinite_duration_frame : list raw_record :=
  [mkRaw (Some "A") (Some "t") (Inf false) (Some false)
         (Num (2010 # 1)) (Text "pop" Unreadable)
         (Num (60 # 1)) (Num (1 # 2)) (Num (1 # 2))].

Definition infinite_year_frame : list raw_record :=
  [mkRaw (Some "A") (Some "t") (Num (200500 # 1)) (Some false)
         (Text "inf" (ReadsInf false)) (Text "pop" Unreadable)
         (Num (60 # 1)) (Num (1 # 2)) (Num (1 # 2))].

(** ** Genres.py: the diagnostic and the menu entry *)

(** [check_database_years]: the two lists it prints, the distinct years
    in ascending order and the song count of each year in ascending
    order of the years. *)
Definition check_database_years (db : Database) : list Z * list (Z * nat) :=
  (SQL.order_by Z.leb (distinct Z.eqb (List.map s_Year (Song db))),
   SQL.order_by (fun x y => (fst x <=? fst y)%Z) (year_counts db)).


(** A store whose only song of 2010 has no genre. *)
Definition unlinked_db : Database :=
  mkDatabase [mkArtist 1 "A"] [mkGenre 1 "pop"]
    [song_of_year 1 2010; song_of_year 2 2011] [mkSongGenre 2 1].


(** ** Artist.py: the menu entry *)

(** [analyze_artist]: a missing or an empty frame is a [ValueError]; the
    value is the frame that is displayed and plotted. *)
Definition analyze_artist (artist_name : string) (db : Database)
  : result (list PopularityRow) :=
  match fst (get_artist_popularity artist_name db) with
  | None => raise ValueError
  | Some [] => raise ValueError
  | Some df => ok df
  end.

(** The joined rows of an artist: one per song and genre of the song. *)
Definition artist_links (name : string) (db : Database)
  : list (SongRow * string * string) :=
  List.filter (fun x => String.eqb (snd (fst x)) name) (song_artist_genres db).

(** The row of the merged frame for a genre of the artist. *)
Definition merged_row (db : Database) (l : string * Q * nat) : PopularityRow :=
  let '(g, p, n) := l in
  mkPopularityRow g p n (Some (overall_average g db))
                  (Some (length (genre_songs g db)))
                  (Some (p - overall_average g db)%Q)
                  (Qltb 0%Q (p - overall_average g db)).


(** ** Top5.py: the menu entry *)

(** [analyze_top_artists]: [True] when the table was produced and
    shown, [False] otherwise; the weights are the defaults 0.4 and 0.6. *)
Definition analyze_top_artists (start_year end_year : Z) (db : Database)
  : bool :=
  if negb (validate_year_range start_year end_year) then false
  else
    match RankingWeights_init (4 # 10) (6 # 10) with
    | inl _ => false
    | inr weights =>
        match get_top_artists start_year end_year weights db with
        | Some _ => true
        | None => false
        end
    end.

(** The sum of the rank values of an artist over the years of the range
    in which the artist has songs. *)
Definition artist_total (start_year end_year : Z) (weights : RankingWeights)
    (db : Database) (a : string) : Q :=
  SQL.sum
    (List.map (rank_of start_year end_year weights db a)
       (List.filter (has_data start_year end_year db a)
                    (years start_year end_year))).

(** The artists that have a song in the range. *)
Definition artists_in_range (start_year end_year : Z) (db : Database)
  : list string :=
  distinct String.eqb (List.map snd (songs_in_range start_year end_year db)).

(** Six artists with one song each in 2010, of popularity 60, 65, ... *)
Definition six_artists_db : Database :=
  mkDatabase
    [mkArtist 1 "A"; mkArtist 2 "B"; mkArtist 3 "C"; mkArtist 4 "D";
     mkArtist 5 "E"; mkArtist 6 "F"]
    []
    [mkSong 1 "a" 200 false 2010 (60 # 1) (1 # 2) (1 # 2) 1;
     mkSong 2 "b" 200 false 2010 (65 # 1) (1 # 2) (1 # 2) 2;
     mkSong 3 "c" 200 false 2010 (70 # 1) (1 # 2) (1 # 2) 3;
     mkSong 4 "d" 200 false 2010 (75 # 1) (1 # 2) (1 # 2) 4;
     mkSong 5 "e" 200 false 2010 (80 # 1) (1 # 2) (1 # 2) 5;
     mkSong 6 "f" 200 false 2010 (85 # 1) (1 # 2) (1 # 2) 6]
    [].


(** The result for the year 2010 of that store. *)
Definition six_yearly : Pivot :=
  Eval vm_compute in
    match get_top_artists 2010 2010 default_weights six_artists_db with
    | Some (yearly, _) => yearly
    | None => mkPivot [] []
    end.

Definition six_top : list ArtistTotal :=
  Eval vm_compute in
    match get_top_artists 2010 2010 default_weights six_artists_db with
    | Some (_, top) => top
    | None => []
    end.


(** ** The genre labels the cleaner lets through *)

Fixpoint contains_char (c : ascii) (s : string) : bool :=
  match s with
  | EmptyString => false
  | String d t => Ascii.eqb d c || contains_char c t
  end.

Definition starts_with_space (s : string) : bool :=
  match s with
  | EmptyString => false
  | String c _ => Str.isspace c
  end.

Fixpoint ends_with_space (s : string) : bool :=
  match s with
  | EmptyString => false
  | String c EmptyString => Str.isspace c
  | String _ t => ends_with_space t
  end.


(** ** Top5.py: the chart *)

(** The points of one line of [create_visualization]: the years of the
    range that are columns of the table and hold a value in the row of
    the label, each with that value. *)
Definition line_points (yearly_data : Pivot) (label : string)
    (start_year end_year : Z) : list (Z * Q) :=
  omap (fun year =>
          if existsb (Z.eqb year) (columns yearly_data)
          then option_map (pair year) (pivot_cell yearly_data label year)
          else None)
       (years start_year end_year).

(** [create_visualization]: the lines drawn, in order, each with its
    label: one per label of the table but the last, then the line of the
    row labelled 'Average'. *)
Definition create_visualization (yearly_data : Pivot)
    (start_year end_year : Z) : list (string * list (Z * Q)) :=
  List.map (fun artist =>
              (artist, line_points yearly_data artist start_year end_year))
           (removelast (List.map fst (rows yearly_data)))
  ++ [("Average", line_points yearly_data "Average" start_year end_year)].


(** The songs of an artist in the range, and the rounded average
    popularity of the artist's songs of one year. *)
Definition artist_songs (start_year end_year : Z) (db : Database)
    (a : string) : list (SongRow * string) :=
  List.filter (fun x => String.eqb a (snd x))
              (songs_in_range start_year end_year db).

Definition year_average (start_year end_year : Z) (db : Database)
    (a : string) (y : Z) : Q :=
  SQL.round
    (SQL.avg (popularities (artist_year_songs start_year end_year db a y))) 2.

(** * Properties *)

(** ** Results, loops and columns *)

Lemma mapM_ok {A B} (f : A -> result B) (g : A -> B) (l : list A) :
  Forall (fun x => f x = ok (g x)) l -> mapM f l = ok (List.map g l).
Proof.
  induction 1 as [|x t Hx _ IH]; simpl; [reflexivity|].
  rewrite Hx, IH. reflexivity.
Qed.

Lemma mapM_raise {A B} (f : A -> result B) (e : exn) (l : list A) :
  Forall (fun x => f x = raise e \/ exists y, f x = ok y) l ->
  Exists (fun x => f x = raise e) l ->
  mapM f l = raise e.
Proof.
  induction 1 as [|x t Hx _ IH]; intros Hex.
  - inversion Hex.
  - simpl. destruct Hx as [Hx|[y Hy]].
    + rewrite Hx. reflexivity.
    + rewrite Hy. simpl.
      inversion Hex as [? ? Hbad|? ? Hin]; subst.
      * rewrite Hy in Hbad. discriminate.
      * rewrite (IH Hin). reflexivity.
Qed.

Lemma zip_with_map_same {A B C D} (f : B -> C -> D) (g : A -> B) (h : A -> C)
    (l : list A) :
  zip_with f (List.map g l) (List.map h l) = List.map (fun x => f (g x) (h x)) l.
Proof. induction l as [|x t IH]; simpl; [reflexivity|]. now rewrite IH. Qed.

Lemma select_map {A} (p : A -> bool) (l : list A) :
  Series.select l (List.map p l) = List.filter p l.
Proof.
  unfold Series.select. induction l as [|x t IH]; simpl; [reflexivity|].
  destruct (p x); simpl; now rewrite IH.
Qed.

(** ** Lists *)

Lemma existsb_false_iff {A} (f : A -> bool) (l : list A) :
  existsb f l = false <-> forall x, In x l -> f x = false.
Proof.
  rewrite <- not_true_iff_false, existsb_exists. split.
  - intros H x Hx. destruct (f x) eqn:E; [|reflexivity].
    exfalso. apply H. eauto.
  - intros H (x & Hx & E). rewrite (H x Hx) in E. discriminate.
Qed.

Section Distinct.

Context {K : Type} (eqb : K -> K -> bool).
Hypothesis eqb_eq : forall x y, eqb x y = true <-> x = y.

Lemma distinct_In (l : list K) (x : K) : In x (distinct eqb l) <-> In x l.
Proof.
  induction l as [|y t IH]; simpl; [tauto|].
  rewrite filter_In, IH, negb_true_iff.
  destruct (eqb y x) eqn:E.
  - apply eqb_eq in E. subst. intuition discriminate.
  - assert (y <> x) by (intros Heq; apply eqb_eq in Heq; congruence).
    intuition congruence.
Qed.

Lemma distinct_NoDup (l : list K) : List.NoDup (distinct eqb l).
Proof.
  induction l as [|y t IH]; simpl; constructor.
  - rewrite filter_In, negb_true_iff. intros [_ E].
    assert (Hy : eqb y y = true) by now apply eqb_eq.
    congruence.
  - now apply List.NoDup_filter.
Qed.

End Distinct.

Lemma unique_In (l : list string) (x : string) : In x (unique l) <-> In x l.
Proof. apply distinct_In, String.eqb_eq. Qed.

Lemma unique_NoDup (l : list string) : List.NoDup (unique l).
Proof. apply distinct_NoDup, String.eqb_eq. Qed.

(** ** SQL operators *)

Lemma join_In {A B} (on : A -> B -> bool) (l : list A) (r : list B)
    (a : A) (b : B) :
  In (a, b) (SQL.join on l r) <-> In a l /\ In b r /\ on a b = true.
Proof.
  unfold SQL.join. rewrite in_flat_map. split.
  - intros (a' & Ha' & Hin). apply in_map_iff in Hin.
    destruct Hin as (b' & Heq & Hb'). injection Heq as -> ->.
    apply filter_In in Hb'. tauto.
  - intros (Ha & Hb & Hon). exists a. split; [exact Ha|].
    apply in_map. apply filter_In. tauto.
Qed.

Section GroupBy.

Context {A K : Type} (eqb : K -> K -> bool) (key : A -> K).
Hypothesis eqb_eq : forall x y, eqb x y = true <-> x = y.

Lemma eqb_refl_true (k : K) : eqb k k = true.
Proof. now apply eqb_eq. Qed.

Lemma group_by_In (rows : list A) (k : K) (rs : list A) :
  In (k, rs) (SQL.group_by eqb key rows) <->
  In k (List.map key rows) /\ rs = List.filter (fun r => eqb k (key r)) rows.
Proof.
  unfold SQL.group_by. rewrite in_map_iff. split.
  - intros (k' & Heq & Hk'). injection Heq as -> <-.
    apply (proj1 (distinct_In eqb eqb_eq _ _)) in Hk'.
    split; [exact Hk'|reflexivity].
  - intros [Hk ->]. exists k. split; [reflexivity|].
    now apply (distinct_In eqb eqb_eq).
Qed.

Lemma group_by_keys (rows : list A) :
  List.map fst (SQL.group_by eqb key rows) = distinct eqb (List.map key rows).
Proof.
  unfold SQL.group_by. rewrite List.map_map. simpl. apply map_id.
Qed.

Lemma group_by_keys_NoDup (rows : list A) :
  List.NoDup (List.map fst (SQL.group_by eqb key rows)).
Proof. rewrite group_by_keys. apply distinct_NoDup, eqb_eq. Qed.

Lemma group_by_nonempty (rows : list A) (k : K) (rs : list A) :
  In (k, rs) (SQL.group_by eqb key rows) -> rs <> [].
Proof.
  rewrite group_by_In. intros [Hk ->] Hnil.
  apply in_map_iff in Hk. destruct Hk as (r & <- & Hr).
  assert (Hin : In r (List.filter (fun r' => eqb (key r) (key r')) rows)).
  { apply filter_In. split; [exact Hr|apply eqb_refl_true]. }
  rewrite Hnil in Hin. destruct Hin.
Qed.

(** Counting the rows key by key counts every row once. *)
Lemma count_by_key (ks : list K) (rows : list A) :
  List.NoDup ks ->
  (forall r, In r rows -> In (key r) ks) ->
  fold_right Nat.add 0
    (List.map (fun k => length (List.filter (fun r => eqb k (key r)) rows)) ks)
  = length rows.
Proof.
  intros Hnd. induction rows as [|r t IH]; intros Hin; simpl.
  - induction ks as [|k ks' IHk]; simpl; [reflexivity|].
    inversion Hnd; subst. now apply IHk.
  - rewrite <- IH by (intros r' Hr'; apply Hin; now right).
    assert (Hr : In (key r) ks) by (apply Hin; now left).
    clear IH Hin. induction ks as [|k ks' IHk]; [destruct Hr|].
    inversion Hnd as [|? ? Hk Hnd']; subst. simpl.
    destruct (eqb k (key r)) eqn:E.
    + apply eqb_eq in E. subst k. simpl. f_equal. f_equal.
      clear IHk Hr Hnd Hnd'. induction ks' as [|k' ks'' IHk']; simpl;
        [reflexivity|].
      destruct (eqb k' (key r)) eqn:E'.
      * apply eqb_eq in E'. subst k'. exfalso. apply Hk. now left.
      * f_equal. apply IHk'. intros Hc. apply Hk. now right.
    + destruct Hr as [Hr|Hr].
      * subst k. rewrite eqb_refl_true in E. discriminate.
      * rewrite (IHk Hnd' Hr). lia.
Qed.

Lemma group_by_total (rows : list A) :
  fold_right Nat.add 0
    (List.map (fun g => length (snd g)) (SQL.group_by eqb key rows))
  = length rows.
Proof.
  unfold SQL.group_by. rewrite List.map_map. simpl.
  apply count_by_key.
  - apply distinct_NoDup, eqb_eq.
  - intros r Hr. apply (distinct_In eqb eqb_eq). now apply in_map.
Qed.

End GroupBy.

Section OrderBy.

Context {A : Type} (le : A -> A -> bool).

Lemma insert_sorted_perm (x : A) (l : list A) :
  Permutation (SQL.insert_sorted le x l) (x :: l).
Proof.
  induction l as [|y t IH]; simpl; [reflexivity|].
  destruct (le x y); [reflexivity|].
  rewrite IH. apply perm_swap.
Qed.

Lemma order_by_perm (l : list A) : Permutation (SQL.order_by le l) l.
Proof.
  induction l as [|x t IH]; simpl; [reflexivity|].
  rewrite insert_sorted_perm. now constructor.
Qed.

Lemma order_by_In (l : list A) (x : A) : In x (SQL.order_by le l) <-> In x l.
Proof.
  split; apply Permutation_in; [|symmetry]; apply order_by_perm.
Qed.

Lemma order_by_length (l : list A) : length (SQL.order_by le l) = length l.
Proof. apply Permutation_length, order_by_perm. Qed.

Hypothesis le_total : forall x y, le x y = true \/ le y x = true.
Hypothesis le_trans : forall x y z, le x y = true -> le y z = true -> le x z = true.

Lemma insert_sorted_sorted (x : A) (l : list A) :
  StronglySorted (fun a b => le a b = true) l ->
  StronglySorted (fun a b => le a b = true) (SQL.insert_sorted le x l).
Proof.
  induction 1 as [|y t Hs IH Hall]; simpl.
  - constructor; constructor.
  - destruct (le x y) eqn:E.
    + constructor; [constructor; assumption|].
      constructor; [exact E|].
      eapply List.Forall_impl; [|exact Hall]. intros z Hz. simpl in Hz.
      eapply le_trans; eassumption.
    + constructor; [exact IH|].
      eapply Permutation_Forall; [symmetry; apply insert_sorted_perm|].
      constructor; [|exact Hall].
      destruct (le_total x y) as [H|H]; [congruence|exact H].
Qed.

Lemma order_by_sorted (l : list A) :
  StronglySorted (fun a b => le a b = true) (SQL.order_by le l).
Proof.
  induction l as [|x t IH]; simpl; [constructor|].
  now apply insert_sorted_sorted.
Qed.

End OrderBy.

Lemma StronglySorted_weaken {A} (R R' : A -> A -> Prop) (l : list A) :
  (forall x y, R x y -> R' x y) -> StronglySorted R l -> StronglySorted R' l.
Proof.
  intros Himp. induction 1 as [|x t _ IH Hall]; constructor; [exact IH|].
  eapply List.Forall_impl; [|exact Hall]. intros y. apply Himp.
Qed.

(** In a sorted list every element of a prefix precedes every element
    of the rest. *)
Lemma sorted_firstn_skipn {A} (R : A -> A -> Prop) (n : nat) (l : list A)
    (x y : A) :
  StronglySorted R l -> In x (firstn n l) -> In y (skipn n l) -> R x y.
Proof.
  intros Hs. revert n. induction Hs as [|z t Hs IH Hall]; intros n Hx Hy.
  - rewrite firstn_nil in Hx. destruct Hx.
  - destruct n as [|n]; simpl in *; [destruct Hx|].
    destruct Hx as [<-|Hx].
    + rewrite List.Forall_forall in Hall. apply Hall.
      rewrite <- (firstn_skipn n t). apply in_or_app. right. exact Hy.
    + eapply IH; eassumption.
Qed.

(** Looking a key up in a table built from a list of keys. *)
Lemma find_key {K V} (eqb : K -> K -> bool) (F : K -> V) (l : list K) (k : K) :
  (forall x y, eqb x y = true <-> x = y) ->
  List.find (fun r => eqb (fst r) k) (List.map (fun x => (x, F x)) l)
  = if existsb (fun x => eqb x k) l then Some (k, F k) else None.
Proof.
  intros eqb_eq. induction l as [|x t IH]; simpl; [reflexivity|].
  destruct (eqb x k) eqn:E; simpl; [|exact IH].
  apply eqb_eq in E. now subst.
Qed.

Lemma Permutation_filter_compat {A} (p : A -> bool) (l l' : list A) :
  Permutation l l' -> Permutation (List.filter p l) (List.filter p l').
Proof.
  induction 1 as [|x l l' _ IH|x y l|l l' l'' _ IH1 _ IH2]; simpl.
  - constructor.
  - destruct (p x); [now constructor|exact IH].
  - destruct (p x), (p y); try reflexivity. apply perm_swap.
  - now transitivity (List.filter p l').
Qed.

(** ** The filter stage *)

Lemma Qltb_lt (x y : Q) : Qltb x y = true <-> (x < y)%Q.
Proof.
  unfold Qltb. rewrite negb_true_iff. split.
  - intros H. apply Qnot_le_lt. intros Hle.
    apply Qle_bool_iff in Hle. congruence.
  - intros H. destruct (Qle_bool y x) eqn:E; [|reflexivity].
    apply Qle_bool_iff in E. exfalso. exact (Qlt_not_le _ _ H E).
Qed.

Lemma above_iff (x : Q) (c : cell) :
  above x c = true <-> (exists q, c = Num q /\ (x < q)%Q) \/ c = Inf false.
Proof.
  destruct c as [q|[|]| |s r]; simpl; split;
    try discriminate; try (intros [(q' & E & _)|E]; discriminate).
  - intros H. left. exists q. split; [reflexivity|now apply Qltb_lt].
  - intros [(q' & E & H)|E]; [|discriminate].
    injection E as <-. now apply Qltb_lt.
  - intros _. now right.
  - intros _. reflexivity.
Qed.

Lemma within_iff (l r : Q) (c : cell) :
  within l r c = true <-> exists q, c = Num q /\ (l <= q)%Q /\ (q <= r)%Q.
Proof.
  destruct c as [q|b| |s rd]; simpl; split;
    try discriminate; try (intros (q' & E & _); discriminate).
  - rewrite andb_true_iff, !Qle_bool_iff. intros [H1 H2].
    exists q. auto.
  - intros (q' & E & H1 & H2). injection E as <-.
    rewrite andb_true_iff, !Qle_bool_iff. auto.
Qed.

Lemma retained_iff {T B} (r : record_of T B) :
  retained r = true <->
  above (50 # 1) (Series.to_numeric (popularity r)) = true /\
  above (20 # 100) (Series.to_numeric (danceability r)) = true /\
  exists s, speechiness r = Num s /\ (33 # 100 <= s)%Q /\ (s <= 66 # 100)%Q.
Proof.
  unfold retained. rewrite !andb_true_iff, within_iff. tauto.
Qed.

Lemma to_numeric_not_text (c : cell) : is_text (Series.to_numeric c) = false.
Proof. destruct c as [q|b| |s [|q|b]]; reflexivity. Qed.

Lemma gt_above (x : Q) (c : cell) :
  is_text c = false -> Series.gt x c = ok (above x c).
Proof. destruct c; simpl; try reflexivity. discriminate. Qed.

Lemma above_notna (x : Q) (c : cell) :
  Series.notna c && above x c = above x c.
Proof. destruct c; reflexivity. Qed.

(** [sorted] raises exactly on a list that is not sortable. *)
Lemma existsb_missing (l : list (option string)) :
  existsb is_missing l = true <-> In None l.
Proof.
  rewrite existsb_exists. split.
  - intros ([a|] & Hin & H); [discriminate|exact Hin].
  - intros H. exists None. split; [exact H|reflexivity].
Qed.

Lemma existsb_present (l : list (option string)) :
  existsb (fun x => negb (is_missing x)) l = true <-> exists a, In (Some a) l.
Proof.
  rewrite existsb_exists. split.
  - intros ([a|] & Hin & H); [eauto|discriminate].
  - intros (a & H). exists (Some a). split; [exact H|reflexivity].
Qed.

Lemma sorted_sortable (l : list (option string)) :
  sortable l -> sorted l = ok (SQL.order_by text_leb l).
Proof.
  intros H. unfold sorted.
  destruct (existsb is_missing l) eqn:E1; [|reflexivity].
  destruct (existsb (fun x => negb (is_missing x)) l) eqn:E2; [|reflexivity].
  exfalso. apply H. split; [now apply existsb_missing|now apply existsb_present].
Qed.

Lemma sorted_not_sortable (l : list (option string)) :
  ~ sortable l -> sorted l = raise TypeError.
Proof.
  intros H. unfold sorted.
  destruct (existsb is_missing l) eqn:E1.
  - destruct (existsb (fun x => negb (is_missing x)) l) eqn:E2; [reflexivity|].
    exfalso. apply H. intros [_ Hp]. apply existsb_present in Hp. congruence.
  - exfalso. apply H. intros [Hm _]. apply existsb_missing in Hm. congruence.
Qed.

Lemma sortable_dec (l : list (option string)) : {sortable l} + {~ sortable l}.
Proof.
  destruct (existsb is_missing l) eqn:E1.
  - destruct (existsb (fun x => negb (is_missing x)) l) eqn:E2.
    + right. intros H. apply H.
      split; [now apply existsb_missing|now apply existsb_present].
    + left. intros [_ Hp]. apply existsb_present in Hp. congruence.
  - left. intros [Hm _]. apply existsb_missing in Hm. congruence.
Qed.

Lemma text_eqb_eq (x y : option string) : Series.text_eqb x y = true <-> x = y.
Proof.
  destruct x as [a|], y as [b|]; simpl; split; try discriminate; trivial.
  - intros H. apply String.eqb_eq in H. now subst.
  - intros H. injection H as ->. apply String.eqb_refl.
Qed.

Lemma Series_unique_In (l : list (option string)) (x : option string) :
  In x (Series.unique l) <-> In x l.
Proof. apply distinct_In, text_eqb_eq. Qed.

(** The artists of a frame of records can be put in order. *)
Lemma sortable_present (l : list (option string)) :
  ~ In None l -> sortable l.
Proof. intros H [Hm _]. exact (H Hm). Qed.

(** The rows whose artists [filter_data] puts in order. *)
Lemma sortable_unique (l : list (option string)) :
  sortable (Series.unique l) <-> sortable l.
Proof.
  unfold sortable. rewrite Series_unique_In.
  split; intros H [Hm (a & Ha)]; apply H; (split; [|exists a]);
    try (now apply Series_unique_In); try (now apply Series_unique_In in Ha);
    assumption.
Qed.

(** On a frame whose speechiness column holds no text the masks select
    the rows that satisfy the three predicates, with the two coerced
    columns; the artists of these rows are then put in order. *)
Lemma filter_data_masks (dfSongs : list row) :
  Forall (fun r => is_text (speechiness r) = false) dfSongs ->
  filter_data dfSongs
  = let dfFiltered := List.map coerced (List.filter retained dfSongs) in
    let* _ := sorted (Series.unique (List.map artist dfFiltered)) in
    ok dfFiltered.
Proof.
  intros Hnum. unfold filter_data.
  rewrite List.map_map.
  change (List.map (fun x : row => set_danceability _ _) dfSongs)
    with (List.map (@coerced (option string) (option bool)) dfSongs).
  rewrite (mapM_ok _ (fun r => above (50 # 1) (popularity r))).
  2:{ apply List.Forall_forall. intros r Hr. apply in_map_iff in Hr.
      destruct Hr as (r0 & <- & _). simpl.
      apply gt_above, to_numeric_not_text. }
  rewrite (mapM_ok _ (fun r => above (20 # 100) (danceability r))).
  2:{ apply List.Forall_forall. intros r Hr. apply in_map_iff in Hr.
      destruct Hr as (r0 & <- & _). simpl.
      apply gt_above, to_numeric_not_text. }
  unfold Series.between.
  rewrite (mapM_ok _ (fun c => match c with
                               | Num q => Qle_bool (33 # 100) q
                               | Inf negative => negb negative
                               | _ => false end)).
  2:{ apply List.Forall_forall. intros c Hc. apply in_map_iff in Hc.
      destruct Hc as (r & <- & Hr). apply in_map_iff in Hr.
      destruct Hr as (r0 & <- & Hr0). simpl.
      rewrite List.Forall_forall in Hnum. specialize (Hnum r0 Hr0).
      destruct (speechiness r0); simpl in *; try reflexivity; discriminate. }
  rewrite (mapM_ok _ (fun c => match c with
                               | Num q => Qle_bool q (66 # 100)
                               | Inf negative => negative
                               | _ => false end)).
  2:{ apply List.Forall_forall. intros c Hc. apply in_map_iff in Hc.
      destruct Hc as (r & <- & Hr). apply in_map_iff in Hr.
      destruct Hr as (r0 & <- & Hr0). simpl.
      rewrite List.Forall_forall in Hnum. specialize (Hnum r0 Hr0).
      destruct (speechiness r0); simpl in *; try reflexivity; discriminate. }
  cbn [bind ok].
  rewrite !(List.map_map speechiness _ (List.map coerced dfSongs)).
  rewrite !zip_with_map_same, select_map.
  match goal with
  | |- context [List.filter ?p (List.map coerced dfSongs)] =>
      assert (E : List.filter p (List.map coerced dfSongs)
                  = List.map coerced (List.filter retained dfSongs))
  end.
  { clear Hnum. induction dfSongs as [|r t IH]; simpl; [reflexivity|].
    match goal with
    | |- (if ?b then _ else _) = _ => assert (E : b = retained r)
    end.
    { unfold retained. simpl.
      destruct (Series.to_numeric (popularity r)) as [p|[|]| |? ?],
        (Series.to_numeric (danceability r)) as [d|[|]| |? ?],
        (speechiness r) as [q|[|]| |? ?]; simpl;
        rewrite ?andb_true_r, ?andb_false_r; reflexivity. }
    rewrite E. destruct (retained r); simpl; rewrite IH; reflexivity. }
  rewrite E. reflexivity.
Qed.

(** A frame with text in the speechiness column makes [filter_data]
    raise: that column is compared without being coerced. *)
Lemma filter_data_text (dfSongs : list row) :
  Exists (fun r => is_text (speechiness r) = true) dfSongs ->
  filter_data dfSongs = raise TypeError.
Proof.
  intros Htext. unfold filter_data.
  rewrite List.map_map.
  change (List.map (fun x : row => set_danceability _ _) dfSongs)
    with (List.map (@coerced (option string) (option bool)) dfSongs).
  rewrite (mapM_ok _ (fun r => above (50 # 1) (popularity r))).
  2:{ apply List.Forall_forall. intros r Hr. apply in_map_iff in Hr.
      destruct Hr as (r0 & <- & _). simpl.
      apply gt_above, to_numeric_not_text. }
  rewrite (mapM_ok _ (fun r => above (20 # 100) (danceability r))).
  2:{ apply List.Forall_forall. intros r Hr. apply in_map_iff in Hr.
      destruct Hr as (r0 & <- & _). simpl.
      apply gt_above, to_numeric_not_text. }
  unfold Series.between. cbn [bind ok].
  rewrite (mapM_raise _ TypeError); [reflexivity| |].
  - apply List.Forall_forall. intros c _.
    destruct c; simpl; [right|right|right|left]; eauto.
  - rewrite List.map_map. apply List.Exists_exists in Htext.
    destruct Htext as (r & Hr & Ht). apply List.Exists_exists.
    exists (speechiness r). split.
    + apply in_map_iff. exists r. split; [reflexivity|assumption].
    + destruct (speechiness r); simpl in *; try discriminate. reflexivity.
Qed.

Lemma text_speechiness_dec (dfSongs : list row) :
  {Forall (fun r => is_text (speechiness r) = false) dfSongs}
  + {Exists (fun r => is_text (speechiness r) = true) dfSongs}.
Proof.
  induction dfSongs as [|r t [IH|IH]].
  - left. constructor.
  - destruct (is_text (speechiness r)) eqn:E.
    + right. now constructor.
    + left. now constructor.
  - right. now constructor 2.
Qed.

(** What [filter_data] returns: the retained rows, coerced, when their
    artists can be put in order. *)
Lemma filter_data_ok_inv (dfSongs df : list row) :
  filter_data dfSongs = ok df ->
  Forall (fun r => is_text (speechiness r) = false) dfSongs /\
  sortable (List.map artist (List.filter retained dfSongs)) /\
  df = List.map coerced (List.filter retained dfSongs).
Proof.
  intros H. destruct (text_speechiness_dec dfSongs) as [Hn|Ht].
  - split; [exact Hn|]. rewrite (filter_data_masks _ Hn) in H.
    cbv zeta in H.
    assert (Ea : List.map artist (List.map coerced (List.filter retained dfSongs))
                 = List.map artist (List.filter retained dfSongs)).
    { rewrite List.map_map. reflexivity. }
    rewrite Ea in H.
    destruct (sortable_dec (Series.unique
                (List.map artist (List.filter retained dfSongs)))) as [Hs|Hs].
    + rewrite (sorted_sortable _ Hs) in H. injection H as <-.
      split; [|reflexivity]. now apply sortable_unique.
    + rewrite (sorted_not_sortable _ Hs) in H. discriminate.
  - rewrite (filter_data_text _ Ht) in H. discriminate.
Qed.

Lemma filter_data_ok (dfSongs : list row) :
  Forall (fun r => is_text (speechiness r) = false) dfSongs ->
  sortable (List.map artist (List.filter retained dfSongs)) ->
  filter_data dfSongs = ok (List.map coerced (List.filter retained dfSongs)).
Proof.
  intros Hn Hs. rewrite (filter_data_masks _ Hn). cbv zeta.
  rewrite List.map_map.
  rewrite sorted_sortable; [reflexivity|].
  apply sortable_unique. exact Hs.
Qed.

Lemma filter_data_not_sortable (dfSongs : list row) :
  Forall (fun r => is_text (speechiness r) = false) dfSongs ->
  ~ sortable (List.map artist (List.filter retained dfSongs)) ->
  filter_data dfSongs = raise TypeError.
Proof.
  intros Hn Hs. rewrite (filter_data_masks _ Hn). cbv zeta.
  rewrite List.map_map.
  rewrite sorted_not_sortable; [reflexivity|].
  intros H. apply Hs. exact (proj1 (sortable_unique _) H).
Qed.

(** The three rows of the worked example: (51, 0.21, 0.50) is retained,
    speechiness 0.67 and danceability 0.20 are excluded. *)
Example filter_data_examples :
  filter_data (frame [example_row (51 # 1) (21 # 100) (50 # 100);
                      example_row (51 # 1) (21 # 100) (67 # 100);
                      example_row (51 # 1) (20 # 100) (50 # 100)])
  = ok (frame [example_row (51 # 1) (21 # 100) (50 # 100)]).
Proof. reflexivity. Qed.

(** A retained row whose popularity and danceability are finite holds
    numbers in its three cells once the two columns are coerced. *)
Lemma retained_numeric {T B} (r : record_of T B) :
  retained r = true ->
  is_infinite (Series.to_numeric (popularity r)) = false ->
  is_infinite (Series.to_numeric (danceability r)) = false ->
  numeric (coerced r).
Proof.
  intros Hret Hp Hd. apply retained_iff in Hret.
  destruct Hret as (Hp' & Hd' & s & Hs & _).
  apply above_iff in Hp'. apply above_iff in Hd'.
  destruct Hp' as [(p & Ep & _)|Ep]; [|rewrite Ep in Hp; discriminate].
  destruct Hd' as [(d & Ed & _)|Ed]; [|rewrite Ed in Hd; discriminate].
  exists p, d, s. simpl. auto.
Qed.

Lemma complete_inj (r r' : record) : complete r = complete r' -> r = r'.
Proof.
  destruct r, r'. unfold complete. simpl. intros H.
  injection H; intros; subst; reflexivity.
Qed.

Lemma frame_inj (df df' : list record) : frame df = frame df' -> df = df'.
Proof.
  revert df'. induction df as [|r t IH]; intros [|r' t'] H;
    try discriminate; [reflexivity|].
  simpl in H.
  remember (complete r) as c eqn:Ec. remember (complete r') as c' eqn:Ec'.
  injection H as Hc Ht. subst c c'.
  apply complete_inj in Hc. subst r'. f_equal. now apply IH.
Qed.

Lemma complete_coerced (r : record) : coerced (complete r) = complete (coerced r).
Proof. reflexivity. Qed.

Lemma complete_retained (r : record) : retained (complete r) = retained r.
Proof. reflexivity. Qed.

Lemma frame_filter (p : row -> bool) (q : record -> bool) (df : list record) :
  (forall r, p (complete r) = q r) ->
  List.filter p (frame df) = frame (List.filter q df).
Proof.
  intros H. induction df as [|r t IH]; simpl; [reflexivity|].
  rewrite H. destruct (q r); simpl; now rewrite IH.
Qed.

Lemma frame_artists (df : list record) :
  List.map artist (frame df) = List.map Some (List.map artist df).
Proof. unfold frame. rewrite !List.map_map. reflexivity. Qed.

Lemma sortable_frame (df : list record) : sortable (List.map artist (frame df)).
Proof.
  apply sortable_present. rewrite frame_artists. intros H.
  apply in_map_iff in H. destruct H as (a & E & _). discriminate.
Qed.

(** On the frame of a list of records the artists can always be put in
    order, and the filter returns the frame of the retained records. *)
Lemma filter_data_frame (df : list record) :
  Forall (fun r => is_text (speechiness r) = false) df ->
  filter_data (frame df) = ok (frame (List.map coerced (List.filter retained df))).
Proof.
  intros Hn. rewrite filter_data_ok.
  - rewrite (frame_filter _ retained) by apply complete_retained.
    unfold frame. rewrite !List.map_map. reflexivity.
  - unfold frame. apply List.Forall_forall. intros r Hr.
    apply in_map_iff in Hr. destruct Hr as (r0 & <- & Hr0).
    rewrite List.Forall_forall in Hn. exact (Hn r0 Hr0).
  - rewrite (frame_filter _ retained) by apply complete_retained.
    apply sortable_frame.
Qed.

(** C5, at the failing input.  Text in the popularity or in the
    danceability column is coerced to the missing value and the record is
    excluded; text in the speechiness column, which is compared without
    being coerced, makes the whole filter raise instead of excluding the
    record. *)
Theorem filter_data_text_cells :
  filter_data (frame text_popularity_frame) = ok [] /\
  filter_data (frame text_danceability_frame) = ok [] /\
  filter_data (frame text_speechiness_frame) = raise TypeError.
Proof. repeat split; reflexivity. Qed.

(** ** The loader *)

Lemma filter_map_Some {A} (p : A -> bool) (q : option A -> bool) (l : list A) :
  (forall a, q (Some a) = p a) ->
  List.filter q (List.map Some l) = List.map Some (List.filter p l).
Proof.
  intros H. induction l as [|a t IH]; simpl; [reflexivity|].
  rewrite H. destruct (p a); simpl; now rewrite IH.
Qed.

(** The distinct cells of a column without a missing value are its
    distinct names. *)
Lemma Series_unique_Some (l : list string) :
  Series.unique (List.map Some l) = List.map Some (unique l).
Proof.
  unfold Series.unique, unique.
  induction l as [|a t IH]; simpl; [reflexivity|].
  rewrite IH. f_equal. apply filter_map_Some. reflexivity.
Qed.


Lemma unique_genres_frame (df : list record) :
  unique_genres (frame df) = unique_genres df.
Proof.
  unfold unique_genres, frame. rewrite List.map_map. reflexivity.
Qed.

(** An iteration visits every element of the set once. *)
Lemma set_iteration_NoDup (iter : set_order) (s : gset string) :
  set_iteration iter -> List.NoDup (iter s).
Proof.
  intros H. eapply Permutation_NoDup; [symmetry; apply H|].
  apply NoDup_ListNoDup, NoDup_elements.
Qed.

Lemma set_iteration_In (iter : set_order) (s : gset string) (g : string) :
  set_iteration iter -> In g (iter s) <-> g ∈ s.
Proof.
  intros H. rewrite <- elem_of_elements, list_elem_of_In.
  split; apply Permutation_in; [apply H|symmetry; apply H].
Qed.

Lemma set_iteration_elements : set_iteration elements.
Proof. intros s. reflexivity. Qed.

Lemma alphabetical_visits : set_iteration alphabetical.
Proof. intros s. apply order_by_perm. Qed.

Lemma reverse_alphabetical_visits : set_iteration reverse_alphabetical.
Proof.
  intros s. unfold reverse_alphabetical.
  rewrite <- Permutation_rev. apply order_by_perm.
Qed.



Lemma elem_of_unique_genres {T B} (df : list (record_of T B)) (g : string) :
  g ∈ unique_genres df <-> exists r, In r df /\ In g (genres r).
Proof.
  unfold unique_genres.
  assert (Hgen : forall (l : list (list string)) (s : gset string),
             g ∈ fold_left (fun s gs => s ∪ list_to_set gs) l s <->
             g ∈ s \/ exists gs, In gs l /\ In g gs).
  { induction l as [|gs t IH]; intros s; simpl.
    - split; [auto|]. intros [H|(gs & [] & _)]. exact H.
    - rewrite IH, elem_of_union, elem_of_list_to_set, list_elem_of_In.
      split.
      + intros [[H|H]|(gs' & Hin & Hg)]; eauto 6.
      + intros [H|(gs' & [<-|Hin] & Hg)]; eauto 6. }
  rewrite Hgen. split.
  - intros [H|(gs & Hin & Hg)]; [set_solver|].
    apply in_map_iff in Hin. destruct Hin as (r & <- & Hr). eauto.
  - intros (r & Hr & Hg). right. exists (genres r). split; trivial.
    apply in_map_iff. eauto.
Qed.

Section LoadRows.

Variables am gm : gmap string nat.

Hypothesis gm_inj :
  forall g1 g2 id, gm !! g1 = Some id -> gm !! g2 = Some id -> g1 = g2.



End LoadRows.





(** A set of one element is visited in one way. *)
Lemma set_iteration_singleton (iter : set_order) (g : string) :
  set_iteration iter -> iter {[ g ]} = [g].
Proof.
  intros H. apply Permutation_length_1_inv. symmetry.
  rewrite (H {[ g ]}). rewrite elements_singleton. reflexivity.
Qed.

Lemma unique_genres_one_label {T B} (r : record_of T B) (g : string)
    (n : nat) :
  genres r = repeat g (S n) -> unique_genres [r] = {[ g ]}.
Proof.
  intros E. unfold unique_genres. simpl. rewrite E.
  apply set_eq. intros x. rewrite elem_of_union, elem_of_list_to_set.
  rewrite elem_of_singleton, list_elem_of_In. split.
  - intros [H|H]; [set_solver|]. exact (repeat_spec _ _ _ H).
  - intros ->. right. now left.
Qed.


(** A row without a title passes the filter as well, and the loader
    refuses it: the Title column is NOT NULL.  So do a row without an
    artist and a row without the explicit flag. *)
Example load_missing_text_aborts :
  let untitled :=
    [mkRecord (Some "A") None 200 (Some false) 2010
              (Num (60 # 1)) (Num (1 # 2)) (Num (1 # 2)) ["pop"]] in
  let anonymous :=
    [mkRecord None (Some "t") 200 (Some false) 2010
              (Num (60 # 1)) (Num (1 # 2)) (Num (1 # 2)) ["pop"]] in
  let unflagged :=
    [mkRecord (Some "A") (Some "t") 200 None 2010
              (Num (60 # 1)) (Num (1 # 2)) (Num (1 # 2)) ["pop"]] in
  filter_data untitled = ok untitled /\
  filter_data anonymous = ok anonymous /\
  filter_data unflagged = ok unflagged /\
  forall iter,
    set_iteration iter ->
    create_and_populate_database iter untitled = raise IntegrityError /\
    create_and_populate_database iter anonymous = raise IntegrityError /\
    create_and_populate_database iter unflagged = raise IntegrityError.
Proof.
  cbv zeta. split; [reflexivity|]. split; [reflexivity|].
  split; [reflexivity|]. intros iter Hiter.
  unfold create_and_populate_database.
  split; [|split];
    match goal with
    | |- context [unique_genres ?df] =>
        assert (E : unique_genres df = {[ "pop" ]})
          by (apply (unique_genres_one_label _ "pop" 0); reflexivity);
        rewrite E
    end;
    rewrite (set_iteration_singleton iter "pop" Hiter); reflexivity.
Qed.

(** ** Ranking weights and the ranking value *)

Lemma tolerance_value : (atol + rtol * Qabs (1 # 1) == 1001 # 100000000)%Q.
Proof. reflexivity. Qed.

Lemma isclose_one (x : Q) :
  isclose x (1 # 1) = true <-> (Qabs (x - (1 # 1)) <= 1001 # 100000000)%Q.
Proof.
  unfold isclose. rewrite Qle_bool_iff, tolerance_value. reflexivity.
Qed.

Lemma RankingWeights_init_ok (sw pw : Q) :
  (Qabs (sw + pw - (1 # 1)) <= 1001 # 100000000)%Q ->
  RankingWeights_init sw pw = ok (mkRankingWeights sw pw).
Proof.
  intros H. unfold RankingWeights_init.
  apply isclose_one in H. rewrite H. reflexivity.
Qed.

Lemma RankingWeights_init_raises (sw pw : Q) :
  (1001 # 100000000 < Qabs (sw + pw - (1 # 1)))%Q ->
  RankingWeights_init sw pw = raise ValueError.
Proof.
  intros H. unfold RankingWeights_init.
  destruct (isclose (sw + pw) (1 # 1)) eqn:E; [|reflexivity].
  apply isclose_one in E. exfalso. exact (Qlt_not_le _ _ H E).
Qed.

(** *** The weight check on binary64 numbers *)

Section Binary64Weights.

Import PrimFloat.
Local Open Scope float_scope.
Local Set Warnings "-inexact-float".

Lemma documented_tolerance_bits :
  FloatOps.Prim2SF Binary64.documented_tolerance
  = SpecFloat.S754_finite false 4835703278458517 (-82).
Proof. vm_compute. reflexivity. Qed.

Lemma tolerance_bits :
  FloatOps.Prim2SF Binary64.tolerance
  = SpecFloat.S754_finite false 5908861061690644 (-69).
Proof. vm_compute. reflexivity. Qed.

(** A number at most a positive number of a smaller exponent is at most
    every positive number of a larger exponent. *)
Lemma SFleb_larger_exponent (x : SpecFloat.spec_float) (m1 m2 : positive)
    (e1 e2 : Z) :
  (e1 < e2)%Z ->
  SpecFloat.SFleb x (SpecFloat.S754_finite false m1 e1) = true ->
  SpecFloat.SFleb x (SpecFloat.S754_finite false m2 e2) = true.
Proof.
  intros He. unfold SpecFloat.SFleb, SpecFloat.SFcompare.
  destruct x as [s|s| |s m e]; try (destruct s);
    try reflexivity; try discriminate.
  destruct (Z.compare_spec e e1) as [E|E|E];
    destruct (Z.compare_spec e e2) as [F|F|F];
    try lia; try reflexivity; try discriminate.
Qed.

Lemma leb_documented_tolerance (x : float) :
  (x <=? Binary64.documented_tolerance) = true ->
  (x <=? Binary64.tolerance) = true.
Proof.
  rewrite !FloatAxioms.leb_spec, documented_tolerance_bits, tolerance_bits.
  apply SFleb_larger_exponent. lia.
Qed.

Lemma ltb_not_leb (x y : float) : (y <? x) = true -> (x <=? y) = false.
Proof.
  rewrite FloatAxioms.leb_spec, FloatAxioms.ltb_spec.
  unfold SpecFloat.SFleb, SpecFloat.SFltb, SpecFloat.SFcompare.
  destruct (FloatOps.Prim2SF x) as [s|s| |s m e],
    (FloatOps.Prim2SF y) as [s'|s'| |s' m' e'];
    try destruct s; try destruct s'; try reflexivity; try discriminate.
  - rewrite (Z.compare_antisym e e').
    destruct (Z.compare e e'); cbn; try reflexivity; try discriminate.
    rewrite !Pos.compare_cont_spec. cbn. rewrite (Pos.compare_antisym m m').
    destruct (Pos.compare m m'); cbn; try reflexivity; discriminate.
  - rewrite (Z.compare_antisym e e').
    destruct (Z.compare e e'); cbn; try reflexivity; try discriminate.
    rewrite !Pos.compare_cont_spec. cbn. rewrite (Pos.compare_antisym m m').
    destruct (Pos.compare m m'); cbn; try reflexivity; discriminate.
Qed.

Lemma nan_not_leb (x y : float) :
  Binary64.is_nan x = true -> (x <=? y) = false.
Proof.
  unfold Binary64.is_nan.
  rewrite FloatAxioms.leb_spec, FloatAxioms.eqb_spec.
  unfold SpecFloat.SFleb, SpecFloat.SFeqb, SpecFloat.SFcompare.
  destruct (FloatOps.Prim2SF x) as [s|s| |s m e]; try destruct s;
    try reflexivity; try discriminate.
  - rewrite Z.compare_refl, Pos.compare_cont_spec, Pos.compare_refl.
    discriminate.
  - rewrite Z.compare_refl, Pos.compare_cont_spec, Pos.compare_refl.
    discriminate.
Qed.

(** The constructor compares the distance with the tolerance. *)
Lemma RankingWeights_init_binary64 (sw pw : float) :
  Binary64.RankingWeights_init sw pw
  = if Binary64.distance sw pw <=? Binary64.tolerance
    then ok (Binary64.mkRankingWeights sw pw) else raise ValueError.
Proof.
  unfold Binary64.RankingWeights_init, Binary64.isclose, Binary64.distance,
    Binary64.tolerance.
  destruct (abs (sw + pw - 1) <=? 1e-8 + 1e-5 * abs 1); reflexivity.
Qed.

(** C3, as amended.  On binary64 numbers, with the sum and the
    difference rounded as Python rounds them, construction succeeds
    exactly when |(sw + pw) - 1.0| is at most the tolerance
    1e-8 + 1e-5 * |1.0| of [np.isclose], which binary64 computes as
    5908861061690644 * 2^-69, and raises ValueError otherwise.  Hence it
    succeeds for every pair whose distance is at most 1e-9, raises for
    every pair whose distance exceeds the tolerance, and raises when the
    distance is not a number. *)
Theorem RankingWeights_init_tolerance (sw pw : float) :
  (Binary64.RankingWeights_init sw pw = ok (Binary64.mkRankingWeights sw pw)
   <-> (Binary64.distance sw pw <=? Binary64.tolerance) = true) /\
  (Binary64.RankingWeights_init sw pw = raise ValueError
   <-> (Binary64.distance sw pw <=? Binary64.tolerance) = false) /\
  ((Binary64.distance sw pw <=? Binary64.documented_tolerance) = true ->
   Binary64.RankingWeights_init sw pw = ok (Binary64.mkRankingWeights sw pw)) /\
  ((Binary64.tolerance <? Binary64.distance sw pw) = true ->
   Binary64.RankingWeights_init sw pw = raise ValueError) /\
  (Binary64.is_nan (Binary64.distance sw pw) = true ->
   Binary64.RankingWeights_init sw pw = raise ValueError) /\
  Binary64.to_Q Binary64.tolerance
  = Some (5908861061690644 # 590295810358705651712)%Q.
Proof.
  rewrite RankingWeights_init_binary64.
  split; [|split; [|split; [|split; [|split]]]].
  - destruct (Binary64.distance sw pw <=? Binary64.tolerance);
      split; intros H; try reflexivity; discriminate.
  - destruct (Binary64.distance sw pw <=? Binary64.tolerance);
      split; intros H; try reflexivity; discriminate.
  - intros H. rewrite (leb_documented_tolerance _ H). reflexivity.
  - intros H. rewrite (ltb_not_leb _ _ H). reflexivity.
  - intros H. rewrite (nan_not_leb _ _ H). reflexivity.
  - vm_compute. reflexivity.
Qed.

Lemma RankingWeights_init_tolerance_witness :
  Binary64.RankingWeights_init 0.4 0.6 = ok (Binary64.mkRankingWeights 0.4 0.6) /\
  Binary64.RankingWeights_init 0.5 0.500001
  = ok (Binary64.mkRankingWeights 0.5 0.500001) /\
  Binary64.RankingWeights_init 0.5 0.6 = raise ValueError /\
  Binary64.RankingWeights_init 0.1 0.89998999 = raise ValueError /\
  Binary64.RankingWeights_init infinity 0.5 = raise ValueError /\
  Binary64.RankingWeights_init nan 0.5 = raise ValueError.
Proof.
  split; [|split; [|split; [|split; [|split]]]].
  - apply (proj1 (proj2 (proj2 (RankingWeights_init_tolerance 0.4 0.6)))).
    reflexivity.
  - apply (proj1 (RankingWeights_init_tolerance 0.5 0.500001)). reflexivity.
  - apply (proj1 (proj2 (proj2 (proj2
      (RankingWeights_init_tolerance 0.5 0.6))))). reflexivity.
  - apply (proj1 (proj2 (RankingWeights_init_tolerance 0.1 0.89998999))).
    reflexivity.
  - apply (proj1 (proj2 (proj2 (proj2
      (RankingWeights_init_tolerance infinity 0.5))))). reflexivity.
  - apply (proj1 (proj2 (proj2 (proj2 (proj2
      (RankingWeights_init_tolerance nan 0.5)))))). reflexivity.
Defined.

(** C3, as stated, fails: the binary64 sum of 0.5 and 0.500001 lies
    outside the tolerance 1e-9 around 1.0 and the construction succeeds;
    so it is on the rational numbers the two literals denote. *)
Lemma weights_outside_1e9_accepted :
  Binary64.within_1e9 0.5 0.500001 = false /\
  Binary64.RankingWeights_init 0.5 0.500001
  = ok (Binary64.mkRankingWeights 0.5 0.500001) /\
  Binary64.RankingWeights_init 0.5 0.500001 <> raise ValueError /\
  (1 # 1000000000 < Qabs ((1 # 2) + (500001 # 1000000) - (1 # 1)))%Q /\
  RankingWeights_init (1 # 2) (500001 # 1000000)
  = ok (mkRankingWeights (1 # 2) (500001 # 1000000)) /\
  RankingWeights_init (1 # 2) (500001 # 1000000) <> raise ValueError.
Proof. repeat split; vm_compute; solve [reflexivity | discriminate]. Qed.

End Binary64Weights.

Lemma py_min_Qmin (a b : Q) : py_min a b = Qmin a b.
Proof.
  unfold py_min, Qmin, GenericMinMax.gmin, Qltb.
  destruct (Qcompare_spec a b) as [E|L|G].
  - destruct (Qle_bool a b) eqn:Eb; [reflexivity|].
    exfalso. apply not_true_iff_false in Eb. apply Eb, Qle_bool_iff.
    rewrite E. apply Qle_refl.
  - destruct (Qle_bool a b) eqn:Eb; [reflexivity|].
    exfalso. apply not_true_iff_false in Eb. apply Eb, Qle_bool_iff.
    apply Qlt_le_weak. exact L.
  - destruct (Qle_bool a b) eqn:Eb; [|reflexivity].
    exfalso. apply Qle_bool_iff in Eb. exact (Qlt_not_le _ _ G Eb).
Qed.

(** The normalised song count is the count itself up to 100 and is 100
    from there on. *)
Lemma normalized_songs_clamp (n : Z) :
  (normalized_songs n == inject_Z (Z.min n 100))%Q.
Proof.
  unfold normalized_songs, py_min, Qltb.
  assert (E : (inject_Z n / (100 # 1) * (100 # 1) == inject_Z n)%Q) by field.
  destruct (Qle_bool (inject_Z n / (100 # 1) * (100 # 1)) (100 # 1)) eqn:Eb;
    simpl.
  - apply Qle_bool_iff in Eb. rewrite E in Eb |- *.
    change (100 # 1)%Q with (inject_Z 100) in Eb.
    rewrite <- Zle_Qle in Eb. rewrite Z.min_l by exact Eb. reflexivity.
  - apply not_true_iff_false in Eb. rewrite Qle_bool_iff, E in Eb.
    change (100 # 1)%Q with (inject_Z 100) in Eb.
    rewrite <- Zle_Qle in Eb. rewrite Z.min_r by lia. reflexivity.
Qed.

(** C6.  For a non-negative song count [n], an average popularity [p]
    and weights accepted by the constructor, the ranking value is
    song_weight * min((n / 100) * 100, 100) + popularity_weight * p, and
    for n = 150 the normalised song count is 100, not 150. *)
Theorem calculate_ranking_value_formula (n : Z) (p sw pw : Q)
    (w : RankingWeights) :
  (0 <= n)%Z ->
  RankingWeights_init sw pw = ok w ->
  calculate_ranking_value n p w = spec_ranking_value n p sw pw /\
  normalized_songs 150 = (100 # 1)%Q /\
  (forall q, calculate_ranking_value 150 q w == sw * (100 # 1) + pw * q)%Q.
Proof.
  intros _ Hw. unfold RankingWeights_init in Hw.
  destruct (negb _); [discriminate|]. injection Hw as <-.
  split; [|split].
  - unfold calculate_ranking_value, spec_ranking_value, normalized_songs.
    simpl. rewrite py_min_Qmin. reflexivity.
  - reflexivity.
  - intros q. unfold calculate_ranking_value. simpl. reflexivity.
Qed.

Lemma calculate_ranking_value_formula_witness :
  calculate_ranking_value 150 (0 # 1) (mkRankingWeights (4 # 10) (6 # 10))
  = spec_ranking_value 150 (0 # 1) (4 # 10) (6 # 10) /\
  normalized_songs 150 = (100 # 1)%Q /\
  (forall q, calculate_ranking_value 150 q (mkRankingWeights (4 # 10) (6 # 10))
             == (4 # 10) * (100 # 1) + (6 # 10) * q)%Q.
Proof.
  apply (calculate_ranking_value_formula 150 (0 # 1) (4 # 10) (6 # 10)).
  - lia.
  - reflexivity.
Defined.

(** C10.  The constructor puts no range constraint on the individual
    weights: every pair (s, 1 - s) is accepted, whatever the sign or size
    of s; with song_weight = -1.0 and popularity_weight = 2.0 the
    construction succeeds and the ranking value is computed with these
    weights unchanged. *)
Theorem weights_out_of_range_accepted :
  (forall s : Q,
      RankingWeights_init s ((1 # 1) - s)
      = ok (mkRankingWeights s ((1 # 1) - s))) /\
  RankingWeights_init (- (1 # 1)) (2 # 1)
  = ok (mkRankingWeights (- (1 # 1)) (2 # 1)) /\
  (forall (n : Z) (p : Q),
      calculate_ranking_value n p (mkRankingWeights (- (1 # 1)) (2 # 1))
      = (- (1 # 1) * normalized_songs n + (2 # 1) * p)%Q) /\
  (calculate_ranking_value 10 (50 # 1)
     (mkRankingWeights (- (1 # 1)) (2 # 1)) == 90 # 1)%Q.
Proof.
  split; [|split; [|split]].
  - intros s. apply RankingWeights_init_ok.
    assert (E : (s + ((1 # 1) - s) - (1 # 1) == 0)%Q) by ring.
    rewrite E. discriminate.
  - reflexivity.
  - intros n p. reflexivity.
  - reflexivity.
Qed.

(** ** The concrete inputs in binary64 *)

(** The inputs used above, evaluated in binary64: the pair
    (0.5, 0.500001) is outside 1e-9 and accepted, (0.5, 0.6) is
    rejected, and so is (0.1, 0.89998999), whose exact sum lies within
    the tolerance and whose binary64 sum does not; (-1.0, 2.0) is
    accepted and gives 90 for 10 songs of average popularity 50, and 150
    songs are normalised to 100. *)
Module Binary64Inputs.

Import PrimFloat.
Local Open Scope float_scope.
Local Set Warnings "-inexact-float".

Example binary64_inputs :
  Binary64.within_1e9 0.5 0.500001 = false /\
  Binary64.accepts 0.5 0.500001 = true /\
  Binary64.accepts 0.5 0.6 = false /\
  Binary64.accepts 0.1 0.89998999 = false /\
  Binary64.accepts 0.4 0.6 = true /\
  Binary64.accepts (-1) 2 = true /\
  Binary64.calculate_ranking_value 10 50 (-1) 2 = 90 /\
  Binary64.normalized_songs 150 = 100.
Proof. repeat split; reflexivity. Qed.

End Binary64Inputs.

(** ** Artist popularity by genre *)

Lemma song_genres_In (db : Database) (s : SongRow) (g : string) :
  In (s, g) (song_genres db) <->
  exists sg gr,
    In s (Song db) /\ In sg (SongGenre db) /\ In gr (Genre db) /\
    s_ID s = sg_SongID sg /\ sg_GenreID sg = g_ID gr /\ g = g_Genre gr.
Proof.
  unfold song_genres. rewrite in_map_iff. split.
  - intros ([[s' sg] gr] & Heq & Hin). simpl in Heq. injection Heq as -> <-.
    apply join_In in Hin. destruct Hin as (Hj & Hgr & Hon).
    apply join_In in Hj. destruct Hj as (Hs & Hsg & Hon').
    simpl in *. apply Nat.eqb_eq in Hon, Hon'.
    exists sg, gr. repeat split; assumption.
  - intros (sg & gr & Hs & Hsg & Hgr & H1 & H2 & ->).
    exists (s, sg, gr). split; [reflexivity|].
    apply join_In. repeat split; trivial.
    + apply join_In. repeat split; trivial. now apply Nat.eqb_eq.
    + simpl. now apply Nat.eqb_eq.
Qed.

(** Every row of the four-table join has its song and genre in the
    three-table join: the genres of an artist are genres of the store. *)
Lemma song_artist_genres_sub (db : Database) (s : SongRow) (a g : string) :
  In (s, a, g) (song_artist_genres db) -> In (s, g) (song_genres db).
Proof.
  unfold song_artist_genres. rewrite in_map_iff.
  intros ([[[s' ar] sg] gr] & Heq & Hin). simpl in Heq.
  injection Heq as -> <- <-.
  apply join_In in Hin. destruct Hin as (Hj & Hgr & Hon).
  apply join_In in Hj. destruct Hj as (Hj' & Hsg & Hon').
  apply join_In in Hj'. destruct Hj' as (Hs & Har & Hon'').
  simpl in *. apply Nat.eqb_eq in Hon, Hon'.
  apply song_genres_In. exists sg, gr. repeat split; assumption.
Qed.

(** A table with one row per key holds exactly one row for a key of it. *)
Lemma filter_unique_key {K R} (eqb : K -> K -> bool) (F : K -> R)
    (key : R -> K) (ks : list K) (k : K) :
  (forall x y, eqb x y = true <-> x = y) ->
  (forall x, key (F x) = x) ->
  List.NoDup ks -> In k ks ->
  List.filter (fun r => eqb (key r) k) (List.map F ks) = [F k].
Proof.
  intros eqb_eq Hkey Hnd. induction Hnd as [|x t Hx Hnd IH]; intros Hin.
  - destruct Hin.
  - simpl. rewrite Hkey. destruct (eqb x k) eqn:E.
    + apply eqb_eq in E. subst x. f_equal.
      clear IH Hin Hnd. induction t as [|y t IHt]; simpl; [reflexivity|].
      rewrite Hkey. destruct (eqb y k) eqn:E'.
      * apply eqb_eq in E'. subst y. exfalso. apply Hx. now left.
      * apply IHt. intros Hc. apply Hx. now right.
    + destruct Hin as [->|Hin].
      * assert (eqb k k = true) by now apply eqb_eq. congruence.
      * now apply IH.
Qed.

Lemma query_overall_lookup (db : Database) (g : string) :
  In g (List.map snd (song_genres db)) ->
  List.filter (fun r => String.eqb (fst (fst r)) g) (query_overall db)
  = [(g, overall_average g db, length (genre_songs g db))].
Proof.
  intros Hg. unfold query_overall, SQL.group_by. rewrite List.map_map.
  simpl.
  rewrite (filter_unique_key String.eqb
             (fun k => (k, overall_average k db, length (genre_songs k db)))
             (fun r => fst (fst r))); trivial.
  - apply String.eqb_eq.
  - apply distinct_NoDup, String.eqb_eq.
  - now apply (distinct_In String.eqb String.eqb_eq).
Qed.

Lemma query_artist_In (name : string) (db : Database) (g : string) (p : Q)
    (n : nat) :
  In (g, p, n) (query_artist name db) ->
  p = artist_average name g db /\
  In g (List.map snd (song_genres db)).
Proof.
  unfold query_artist. rewrite in_map_iff.
  intros ([g' rs] & Heq & Hin). simpl in Heq. injection Heq as -> <- <-.
  apply (group_by_In String.eqb snd String.eqb_eq) in Hin.
  destruct Hin as [Hg ->]. split; [reflexivity|].
  apply in_map_iff in Hg. destruct Hg as ([[s a] g'] & <- & Hin).
  apply filter_In in Hin. destruct Hin as [Hin _].
  apply song_artist_genres_sub in Hin.
  apply in_map_iff. exists (s, g'). tauto.
Qed.

Lemma popularity_desc_total (x y : PopularityRow) :
  popularity_desc x y = true \/ popularity_desc y x = true.
Proof.
  unfold popularity_desc. rewrite !Qle_bool_iff.
  destruct (Qlt_le_dec (pr_ArtistPopularity x) (pr_ArtistPopularity y));
    auto using Qlt_le_weak.
Qed.

Lemma popularity_desc_trans (x y z : PopularityRow) :
  popularity_desc x y = true -> popularity_desc y z = true ->
  popularity_desc x z = true.
Proof.
  unfold popularity_desc. rewrite !Qle_bool_iff. intros H1 H2.
  eapply Qle_trans; eassumption.
Qed.

(** C7.  For every genre row of a matched artist, Difference is the
    artist's per-genre average popularity minus the all-artists
    per-genre average popularity, each rounded to 2 decimal places,
    AboveMean is true exactly when Difference > 0, and the rows are
    sorted by the artist's average popularity, descending. *)
Theorem artist_popularity_rows (name : string) (db : Database)
    (df : list PopularityRow) (printed : list string) :
  get_artist_popularity name db = (Some df, printed) ->
  (forall r,
      In r df ->
      pr_ArtistPopularity r = artist_average name (pr_Genre r) db /\
      pr_OverallPopularity r = Some (overall_average (pr_Genre r) db) /\
      pr_Difference r
      = Some (artist_average name (pr_Genre r) db
              - overall_average (pr_Genre r) db)%Q /\
      (pr_AboveMean r = true <->
       (0 < artist_average name (pr_Genre r) db
            - overall_average (pr_Genre r) db)%Q)) /\
  StronglySorted
    (fun x y => (pr_ArtistPopularity y <= pr_ArtistPopularity x)%Q) df.
Proof.
  unfold get_artist_popularity.
  destruct (negb (validate_artist name db)).
  { destruct (get_similar_artists name db 3); discriminate. }
  intros Heq. injection Heq as <- _. split.
  - intros r Hr. apply order_by_In in Hr. apply in_flat_map in Hr.
    destruct Hr as ([[g p] n] & Hl & Hr).
    apply query_artist_In in Hl. destruct Hl as [-> Hg].
    unfold merge_row in Hr. rewrite (query_overall_lookup db g Hg) in Hr.
    simpl in Hr. destruct Hr as [<-|[]]. simpl.
    repeat split; try apply Qltb_lt; trivial.
  - eapply StronglySorted_weaken;
      [|apply order_by_sorted;
        [apply popularity_desc_total|apply popularity_desc_trans]].
    intros x y H. unfold popularity_desc in H. now apply Qle_bool_iff.
Qed.

Lemma artist_popularity_rows_witness :
  (forall r,
      In r [pop_row] ->
      pr_ArtistPopularity r = artist_average "A" (pr_Genre r) pop_db /\
      pr_OverallPopularity r = Some (overall_average (pr_Genre r) pop_db) /\
      pr_Difference r
      = Some (artist_average "A" (pr_Genre r) pop_db
              - overall_average (pr_Genre r) pop_db)%Q /\
      (pr_AboveMean r = true <->
       (0 < artist_average "A" (pr_Genre r) pop_db
            - overall_average (pr_Genre r) pop_db)%Q)) /\
  StronglySorted
    (fun x y => (pr_ArtistPopularity y <= pr_ArtistPopularity x)%Q)
    [pop_row].
Proof.
  apply (artist_popularity_rows "A" pop_db _ []). reflexivity.
Defined.

(** The worked example: the artist's average in Pop is 70, the average
    of all artists is 50; the difference is 20 and the flag is set. *)
Example artist_popularity_example :
  exists r,
    fst (get_artist_popularity "A" pop_db) = Some [r] /\
    pr_Genre r = "Pop" /\
    pr_ArtistPopularity r = (70 # 1)%Q /\
    pr_OverallPopularity r = Some (50 # 1)%Q /\
    (exists d, pr_Difference r = Some d /\ (d == 20 # 1)%Q) /\
    pr_AboveMean r = true.
Proof.
  eexists. split; [reflexivity|]. simpl.
  repeat split. eexists. split; reflexivity.
Qed.

(** ** Suggestions for an unmatched artist name *)

(** With one row per key every group of GROUP BY has one row. *)
Lemma group_of_unique_key {A K} (eqb : K -> K -> bool) (key : A -> K)
    (rows : list A) (k : K) :
  (forall x y, eqb x y = true <-> x = y) ->
  List.NoDup (List.map key rows) ->
  In k (List.map key rows) ->
  length (List.filter (fun r => eqb k (key r)) rows) = 1.
Proof.
  intros eqb_eq. induction rows as [|r t IH]; intros Hnd Hin; simpl in *.
  - destruct Hin.
  - inversion Hnd as [|? ? Hr Hnd']; subst.
    destruct (eqb k (key r)) eqn:E.
    + apply eqb_eq in E. subst k. simpl. f_equal.
      clear IH Hin Hnd Hnd'. induction t as [|r' t IHt]; simpl; [reflexivity|].
      destruct (eqb (key r) (key r')) eqn:E'.
      * apply eqb_eq in E'. exfalso. apply Hr. simpl. now left.
      * apply IHt. intros Hc. apply Hr. simpl. now right.
    + destruct Hin as [<-|Hin].
      * assert (eqb (key r) (key r) = true) by now apply eqb_eq. congruence.
      * now apply IH.
Qed.

(** The column [matches] of [get_similar_artists] is COUNT( * ) of a
    group of Artist rows of one name; names being unique in the table,
    it is 1 for every name, whatever the number of tokens matched. *)
Lemma matches_is_one (rows : list ArtistRow) (name : string)
    (group : list ArtistRow) :
  List.NoDup (List.map a_Name rows) ->
  In (name, group) (SQL.group_by String.eqb a_Name rows) ->
  length group = 1.
Proof.
  intros Hnd Hin. apply (group_by_In String.eqb a_Name String.eqb_eq) in Hin.
  destruct Hin as [Hname ->].
  now apply group_of_unique_key; [apply String.eqb_eq| |].
Qed.

(** C4, at the failing input.  Against the stored names "John Legend"
    and "Johnny" the input "john legend" has no exact match; "John
    Legend" contains both tokens and "Johnny" one.  The code returns the
    shorter name first, and alone under a limit of 1, where the ranking
    by matching tokens puts "John Legend" first. *)
Theorem suggestions_ignore_token_count :
  matching_tokens "john legend" "John Legend" = 2 /\
  matching_tokens "john legend" "Johnny" = 1 /\
  get_similar_artists "john legend" legend_db 3
  = ok ["Johnny"; "John Legend"] /\
  spec_suggestions "john legend" (List.map a_Name (Artist legend_db)) 3
  = ["John Legend"; "Johnny"] /\
  get_similar_artists "john legend" legend_db 1 = ok ["Johnny"] /\
  spec_suggestions "john legend" (List.map a_Name (Artist legend_db)) 1
  = ["John Legend"].
Proof. repeat split; reflexivity. Qed.

(** The worked example: "jon legend" against "John Legend". *)
Example suggestion_example :
  get_similar_artists "jon legend"
    (mkDatabase [mkArtist 1 "John Legend"] [] [] []) 3
  = ok ["John Legend"].
Proof. reflexivity. Qed.

(** Two further inputs on which the code and the ranking by substring
    differ: a name without any token leaves the WHERE clause empty and
    the statement fails; a token with the character [_] matches any
    character in its place. *)
Example suggestion_edge_inputs :
  get_similar_artists "  " legend_db 3 = raise OperationalError /\
  spec_suggestions "  " (List.map a_Name (Artist legend_db)) 3 = [] /\
  get_similar_artists "j_hn" legend_db 3 = ok ["Johnny"; "John Legend"] /\
  spec_suggestions "j_hn" (List.map a_Name (Artist legend_db)) 3 = [].
Proof. repeat split; reflexivity. Qed.

(** ** Genre statistics: a year without songs *)

Lemma In_firstn {A} (n : nat) (l : list A) (x : A) :
  In x (firstn n l) -> In x l.
Proof.
  intros H. rewrite <- (firstn_skipn n l). apply in_or_app. now left.
Qed.

Lemma songs_in_year_group (y : Z) (db : Database) :
  length (List.filter (fun r => (y =? s_Year r)%Z) (Song db))
  = songs_in_year y db.
Proof.
  unfold songs_in_year. f_equal. apply filter_ext. intros s. apply Z.eqb_sym.
Qed.

Lemma year_counts_In (db : Database) (y : Z) (c : nat) :
  In (y, c) (year_counts db) <->
  c = songs_in_year y db /\ In y (List.map s_Year (Song db)).
Proof.
  unfold year_counts. rewrite in_map_iff. split.
  - intros ([y' rs] & Heq & Hin). simpl in Heq. injection Heq as -> <-.
    apply (group_by_In Z.eqb s_Year Z.eqb_eq) in Hin.
    destruct Hin as [Hy ->]. rewrite songs_in_year_group. tauto.
  - intros [-> Hy].
    exists (y, List.filter (fun r => (y =? s_Year r)%Z) (Song db)).
    simpl. rewrite songs_in_year_group. split; [reflexivity|].
    apply (group_by_In Z.eqb s_Year Z.eqb_eq). tauto.
Qed.

Lemma songs_in_year_pos (db : Database) (y : Z) :
  0 < songs_in_year y db <-> In y (List.map s_Year (Song db)).
Proof.
  unfold songs_in_year. rewrite in_map_iff. split.
  - intros H. destruct (List.filter _ (Song db)) as [|s t] eqn:E;
      [simpl in H; lia|].
    assert (Hs : In s (List.filter (fun s => (s_Year s =? y)%Z) (Song db)))
      by (rewrite E; now left).
    apply filter_In in Hs. destruct Hs as [Hs Hy]. apply Z.eqb_eq in Hy.
    eauto.
  - intros (s & Hy & Hs).
    assert (Hin : In s (List.filter (fun s => (s_Year s =? y)%Z) (Song db))).
    { apply filter_In. split; [exact Hs|]. now apply Z.eqb_eq. }
    destruct (List.filter _ (Song db)); [destruct Hin|simpl; lia].
Qed.






(** With the threshold 1 the year 2009, which has one song, is passed
    over, and the two years reported come nearest first. *)
Example no_songs_alternatives_example :
  get_genre_statistics 2011 sparse_years_db 1
  = (None, NoSongs [(2010%Z, 2); (2013%Z, 2)]) /\
  get_genre_statistics 2011 sparse_years_db 10 = (None, NoSongs []).
Proof. split; reflexivity. Qed.

(** ** Genre statistics: the percentage column *)

Lemma genre_query_rows (year : Z) (db : Database) (row : GenreStat) :
  In row (genre_query year db) ->
  gs_SongCount row = length (genre_links year (gs_Genre row) db) /\
  0 < gs_SongCount row /\
  gs_Percentage row = share_of_links row year db.
Proof.
  unfold genre_query. fold (year_links year db).
  rewrite (group_by_total String.eqb snd String.eqb_eq).
  intros Hin. apply order_by_In in Hin. apply in_map_iff in Hin.
  destruct Hin as ([g rs] & <- & Hg). simpl.
  pose proof (group_by_nonempty String.eqb snd String.eqb_eq _ _ _ Hg) as Hne.
  apply (group_by_In String.eqb snd String.eqb_eq) in Hg.
  destruct Hg as [_ ->]. fold (genre_links year g db) in *.
  repeat split.
  destruct (genre_links year g db); [congruence|simpl; lia].
Qed.

(** C2, as amended.  For every genre in the result, the Percentage
    column equals that genre's song count times 100 divided by the sum
    of the song counts of all the genres of that year, that is, by the
    number of (song, genre) pairs of the year, rounded to 1 decimal
    place. *)
Theorem percentage_of_links (year min_songs : Z) (db : Database)
    (df : list GenreStat) (printed : notice) (row : GenreStat) :
  get_genre_statistics year db min_songs = (Some df, printed) ->
  In row df ->
  gs_SongCount row = length (genre_links year (gs_Genre row) db) /\
  fold_right Nat.add 0 (List.map gs_SongCount df) = length (year_links year db) /\
  gs_Percentage row
  = SQL.round (inject_Z (Z.of_nat (gs_SongCount row)) * (100 # 1)
               / inject_Z (Z.of_nat (length (year_links year db)))) 1.
Proof.
  unfold get_genre_statistics.
  destruct (negb (validate_year year)); [discriminate|].
  destruct (_ =? 0)%nat; [discriminate|].
  destruct (genre_query year db) as [|r0 t] eqn:E; [discriminate|].
  intros Heq Hin. injection Heq as <- _. rewrite <- E in Hin |- *.
  destruct (genre_query_rows year db row Hin) as (Hc & _ & Hp).
  split; [exact Hc|]. split; [|exact Hp].
  unfold genre_query. fold (year_links year db).
  rewrite <- (group_by_total String.eqb snd String.eqb_eq (year_links year db)).
  set (groups := SQL.group_by String.eqb snd (year_links year db)).
  set (f := fun g : string * list (SongRow * string) => mkGenreStat _ _ _ _ _ _).
  assert (Hperm : Permutation
                    (List.map gs_SongCount
                       (SQL.order_by song_count_desc (List.map f groups)))
                    (List.map (fun g => length (snd g)) groups)).
  { rewrite order_by_perm, List.map_map. reflexivity. }
  clear -Hperm. revert Hperm.
  generalize (List.map gs_SongCount
                (SQL.order_by song_count_desc (List.map f groups))).
  generalize (List.map (fun g : string * list (SongRow * string) =>
                          length (snd g)) groups).
  intros l l' Hperm. induction Hperm; simpl; lia.
Qed.

Lemma percentage_of_links_witness :
  gs_SongCount (mkGenreStat "pop" (1 # 2) (60 # 1) (1 # 2) 1 (50 # 1))
  = length (genre_links 2010 "pop" two_genre_db) /\
  fold_right Nat.add 0
    (List.map gs_SongCount
       [mkGenreStat "pop" (1 # 2) (60 # 1) (1 # 2) 1 (50 # 1);
        mkGenreStat "rock" (1 # 2) (60 # 1) (1 # 2) 1 (50 # 1)])
  = length (year_links 2010 two_genre_db) /\
  gs_Percentage (mkGenreStat "pop" (1 # 2) (60 # 1) (1 # 2) 1 (50 # 1))
  = SQL.round (inject_Z (Z.of_nat 1) * (100 # 1)
               / inject_Z (Z.of_nat (length (year_links 2010 two_genre_db)))) 1.
Proof.
  apply (percentage_of_links 2010 10 two_genre_db
           [mkGenreStat "pop" (1 # 2) (60 # 1) (1 # 2) 1 (50 # 1);
            mkGenreStat "rock" (1 # 2) (60 # 1) (1 # 2) 1 (50 # 1)]
           (LimitedData 1 [])).
  - reflexivity.
  - simpl. left. reflexivity.
Defined.

(** C2, as stated, fails: the only song of 2010 has two genres, each
    genre counts that one song, and the Percentage of each is 50.0 where
    the share of the songs of the year is 100.0. *)
Lemma percentage_not_share_of_songs :
  get_genre_statistics 2010 two_genre_db 10
  = (Some [mkGenreStat "pop" (1 # 2) (60 # 1) (1 # 2) 1 (50 # 1);
           mkGenreStat "rock" (1 # 2) (60 # 1) (1 # 2) 1 (50 # 1)],
     LimitedData 1 []) /\
  songs_in_year 2010 two_genre_db = 1 /\
  share_of_songs (mkGenreStat "pop" (1 # 2) (60 # 1) (1 # 2) 1 (50 # 1))
                 2010 two_genre_db = (100 # 1)%Q /\
  ~ (gs_Percentage (mkGenreStat "pop" (1 # 2) (60 # 1) (1 # 2) 1 (50 # 1))
     == share_of_songs (mkGenreStat "pop" (1 # 2) (60 # 1) (1 # 2) 1 (50 # 1))
                       2010 two_genre_db)%Q.
Proof.
  split; [reflexivity|]. split; [reflexivity|]. split; [reflexivity|].
  vm_compute. discriminate.
Qed.

(** ** The ranking of the top artists *)

Lemma same_artist_year_eq (x y : string * Z) :
  same_artist_year x y = true <-> x = y.
Proof.
  unfold same_artist_year. destruct x as [a1 y1], y as [a2 y2]. simpl.
  rewrite andb_true_iff, String.eqb_eq, Z.eqb_eq. split.
  - intros [-> ->]. reflexivity.
  - intros H. injection H as -> ->. tauto.
Qed.

Lemma filter_all {A} (p : A -> bool) (l : list A) :
  (forall x, In x l -> p x = true) -> List.filter p l = l.
Proof.
  induction l as [|x t IH]; intros H; simpl; [reflexivity|].
  rewrite (H x (or_introl eq_refl)). f_equal. apply IH.
  intros y Hy. apply H. now right.
Qed.

Lemma filter_none {A} (p : A -> bool) (l : list A) :
  (forall x, In x l -> p x = false) -> List.filter p l = [].
Proof.
  induction l as [|x t IH]; intros H; simpl; [reflexivity|].
  rewrite (H x (or_introl eq_refl)). apply IH.
  intros y Hy. apply H. now right.
Qed.

Lemma filter_filter_implied {A} (p q : A -> bool) (l : list A) :
  (forall x, p x = true -> q x = true) ->
  List.filter p (List.filter q l) = List.filter p l.
Proof.
  intros H. induction l as [|x t IH]; simpl; [reflexivity|].
  destruct (q x) eqn:Eq; simpl.
  - destruct (p x); now rewrite IH.
  - destruct (p x) eqn:Ep; [|exact IH].
    apply H in Ep. congruence.
Qed.

Lemma filter_absent_key {K R} (eqb : K -> K -> bool) (F : K -> R)
    (key : R -> K) (ks : list K) (k : K) :
  (forall x y, eqb x y = true <-> x = y) ->
  (forall x, key (F x) = x) ->
  ~ In k ks ->
  List.filter (fun r => eqb (key r) k) (List.map F ks) = [].
Proof.
  intros eqb_eq Hkey Hk. apply filter_none. intros r Hr.
  apply in_map_iff in Hr. destruct Hr as (x & <- & Hx). rewrite Hkey.
  destruct (eqb x k) eqn:E; [|reflexivity].
  apply eqb_eq in E. subst. contradiction.
Qed.

Lemma sum_perm (l l' : list Q) :
  Permutation l l' -> (SQL.sum l == SQL.sum l')%Q.
Proof.
  induction 1 as [|x l l' _ IH|x y l|l l' l'' _ IH1 _ IH2]; simpl.
  - reflexivity.
  - rewrite IH. reflexivity.
  - ring.
  - now rewrite IH1.
Qed.

Lemma avg_single (v : Q) : (SQL.avg [v] == v)%Q.
Proof. unfold SQL.avg. simpl. field. Qed.

Section Ranking.

Variables (start_year end_year : Z) (weights : RankingWeights) (db : Database).

Local Abbreviation songs := (songs_in_range start_year end_year db).
Local Abbreviation stats := (artist_year_stats start_year end_year weights db).
Local Abbreviation row_of := (stats_row_of start_year end_year weights db).

Lemma row_key_row_of (k : string * Z) : row_key (row_of k) = k.
Proof. destruct k. reflexivity. Qed.

Lemma ay_RankValue_row_of (a : string) (y : Z) :
  ay_RankValue (row_of (a, y)) = rank_of start_year end_year weights db a y.
Proof. reflexivity. Qed.

Lemma ay_Year_row_of (a : string) (y : Z) : ay_Year (row_of (a, y)) = y.
Proof. reflexivity. Qed.

Lemma stats_perm :
  Permutation stats
    (List.map row_of (distinct same_artist_year (List.map artist_year_key songs))).
Proof.
  unfold artist_year_stats. rewrite order_by_perm.
  rewrite filter_all.
  - unfold SQL.group_by. rewrite List.map_map.
    erewrite map_ext; [reflexivity|]. intros [a y]. reflexivity.
  - intros [k rs] Hin. simpl.
    apply (group_by_nonempty _ _ same_artist_year_eq) in Hin.
    destruct rs; [congruence|reflexivity].
Qed.

Lemma key_in_songs (a : string) (y : Z) :
  In (a, y) (List.map artist_year_key songs) <->
  has_data start_year end_year db a y = true.
Proof.
  unfold has_data, artist_year_songs. rewrite Nat.ltb_lt. split.
  - intros Hin. apply in_map_iff in Hin. destruct Hin as (x & Hk & Hx).
    assert (Hf : In x (List.filter
                         (fun x => same_artist_year (a, y) (artist_year_key x))
                         songs)).
    { apply filter_In. split; [exact Hx|].
      apply same_artist_year_eq. now symmetry. }
    destruct (List.filter _ songs); [destruct Hf|simpl; lia].
  - intros Hlen. destruct (List.filter _ songs) as [|x t] eqn:E;
      [simpl in Hlen; lia|].
    assert (Hf : In x (List.filter
                         (fun x => same_artist_year (a, y) (artist_year_key x))
                         songs)) by (rewrite E; now left).
    apply filter_In in Hf. destruct Hf as [Hx Hk].
    apply same_artist_year_eq in Hk. apply in_map_iff. exists x. split; auto.
Qed.

Lemma has_data_in_range (a : string) (y : Z) :
  has_data start_year end_year db a y = true ->
  (start_year <= y <= end_year)%Z.
Proof.
  intros H. apply key_in_songs in H. apply in_map_iff in H.
  destruct H as (x & Hk & Hx). unfold songs_in_range in Hx.
  apply filter_In in Hx. destruct Hx as [_ Hr].
  unfold artist_year_key in Hk. injection Hk as _ <-. lia.
Qed.

(** The frame holds one row for an artist and a year with songs and no
    row for an artist and a year without. *)
Lemma stats_lookup (a : string) (y : Z) :
  List.filter (fun r => same_artist_year (row_key r) (a, y)) stats
  = if has_data start_year end_year db a y then [row_of (a, y)] else [].
Proof.
  pose proof (Permutation_filter_compat
                (fun r => same_artist_year (row_key r) (a, y)) _ _ stats_perm)
    as Hperm.
  destruct (has_data start_year end_year db a y) eqn:E.
  - rewrite (filter_unique_key same_artist_year row_of row_key) in Hperm.
    + now apply Permutation_length_1_inv, Permutation_sym.
    + apply same_artist_year_eq.
    + apply row_key_row_of.
    + apply distinct_NoDup, same_artist_year_eq.
    + apply (distinct_In _ same_artist_year_eq). now apply key_in_songs.
  - rewrite (filter_absent_key same_artist_year row_of row_key) in Hperm.
    + now apply Permutation_nil, Permutation_sym.
    + apply same_artist_year_eq.
    + apply row_key_row_of.
    + intros Hin. apply (proj1 (distinct_In _ same_artist_year_eq _ _)) in Hin.
      apply key_in_songs in Hin. congruence.
Qed.

Lemma stats_In (r : ArtistYear) :
  In r stats <->
  exists a y, has_data start_year end_year db a y = true /\ r = row_of (a, y).
Proof.
  split.
  - intros Hin. apply (Permutation_in _ stats_perm) in Hin.
    apply in_map_iff in Hin. destruct Hin as ([a y] & <- & Hk).
    apply (proj1 (distinct_In _ same_artist_year_eq _ _)) in Hk.
    exists a, y. split; [now apply key_in_songs|reflexivity].
  - intros (a & y & Hd & ->).
    apply (Permutation_in _ (Permutation_sym stats_perm)).
    apply in_map. apply (distinct_In _ same_artist_year_eq).
    now apply key_in_songs.
Qed.

Lemma stats_NoDup : List.NoDup stats.
Proof.
  eapply Permutation_NoDup; [apply Permutation_sym, stats_perm|].
  apply (NoDup_map_inv row_key). rewrite List.map_map.
  erewrite map_ext; [|intros k; apply row_key_row_of].
  rewrite map_id. apply distinct_NoDup, same_artist_year_eq.
Qed.

End Ranking.

(** *** The pivot *)

Lemma combine_map_r {A B} (f : A -> B) (l : list A) :
  combine l (List.map f l) = List.map (fun x => (x, f x)) l.
Proof. induction l as [|x t IH]; simpl; [reflexivity|]. now rewrite IH. Qed.

Lemma existsb_eqb_In {K} (eqb : K -> K -> bool) (l : list K) (k : K) :
  (forall x y, eqb x y = true <-> x = y) ->
  existsb (fun x => eqb x k) l = true <-> In k l.
Proof.
  intros eqb_eq. rewrite existsb_exists. split.
  - intros (x & Hx & E). apply eqb_eq in E. now subst.
  - intros Hk. exists k. split; [exact Hk|now apply eqb_eq].
Qed.

Lemma pivot_value_absent (df : list ArtistYear) (a : string) (y : Z) :
  ~ In a (List.map ay_Artist df) \/ ~ In y (List.map ay_Year df) ->
  pivot_value df a y = None.
Proof.
  intros H. unfold pivot_value. rewrite filter_none; [reflexivity|].
  intros r Hr. apply andb_false_iff.
  destruct H as [H|H]; [left|right].
  - apply String.eqb_neq. intros <-. apply H. now apply in_map.
  - apply Z.eqb_neq. intros <-. apply H. now apply in_map.
Qed.

(** Reading a cell of the pivot gives the value of that artist and year. *)
Lemma pivot_cell_pivot_table (df : list ArtistYear) (a : string) (y : Z) :
  pivot_cell (pivot_table df) a y = pivot_value df a y.
Proof.
  unfold pivot_cell, pivot_table. simpl.
  set (index := SQL.order_by String.leb _).
  set (cols := SQL.order_by Z.leb _).
  rewrite (find_key String.eqb (fun a => List.map (pivot_value df a) cols)
             index a String.eqb_eq).
  destruct (existsb (fun x => String.eqb x a) index) eqn:E.
  - simpl. rewrite combine_map_r.
    rewrite (find_key Z.eqb (pivot_value df a) cols y Z.eqb_eq).
    destruct (existsb (fun x => (x =? y)%Z) cols) eqn:E'; [reflexivity|].
    symmetry. apply pivot_value_absent. right. intros Hin.
    apply not_true_iff_false in E'. apply E'.
    apply (existsb_eqb_In Z.eqb _ _ Z.eqb_eq).
    subst cols. apply order_by_In. now apply (distinct_In _ Z.eqb_eq).
  - symmetry. apply pivot_value_absent. left. intros Hin.
    apply not_true_iff_false in E. apply E.
    apply (existsb_eqb_In String.eqb _ _ String.eqb_eq).
    subst index. apply order_by_In. now apply (distinct_In _ String.eqb_eq).
Qed.

Lemma pivot_table_index (df : list ArtistYear) (a : string) :
  In a (List.map fst (rows (pivot_table df))) <-> In a (List.map ay_Artist df).
Proof.
  unfold pivot_table. simpl. rewrite List.map_map. simpl. rewrite map_id.
  rewrite order_by_In. apply distinct_In, String.eqb_eq.
Qed.

Lemma pivot_table_columns (df : list ArtistYear) (y : Z) :
  In y (columns (pivot_table df)) <-> In y (List.map ay_Year df).
Proof.
  unfold pivot_table. simpl. rewrite order_by_In.
  apply distinct_In, Z.eqb_eq.
Qed.

Lemma map_seq_nth {A B} (f : A -> B) (d : A) (l : list A) :
  List.map (fun i => f (nth i l d)) (seq 0 (length l)) = List.map f l.
Proof.
  induction l as [|x t IH]; simpl; [reflexivity|].
  f_equal. rewrite <- seq_shift, List.map_map. exact IH.
Qed.

(** The means of the columns, column by column. *)
Lemma column_means_pivot_table (df : list ArtistYear) :
  column_means (pivot_table df)
  = List.map
      (fun y => mean_skipna
                  (List.map (fun a => pivot_value df a y)
                            (List.map fst (rows (pivot_table df)))))
      (columns (pivot_table df)).
Proof.
  unfold column_means.
  rewrite <- (map_seq_nth
                (fun y => mean_skipna
                            (List.map (fun a => pivot_value df a y)
                               (List.map fst (rows (pivot_table df)))))
                0%Z (columns (pivot_table df))).
  apply map_ext_in. intros i Hi. apply in_seq in Hi. f_equal.
  unfold pivot_table. simpl. rewrite !List.map_map. simpl.
  apply map_ext. intros a.
  rewrite (nth_indep _ None (pivot_value df a 0%Z))
    by (rewrite length_map; simpl in Hi; lia).
  apply map_nth.
Qed.

Lemma loc_set_find (label : string) (values : list (option Q))
    (rs : list (string * list (option Q))) :
  List.find (fun r => String.eqb (fst r) label) (loc_set label values rs)
  = Some (label, values).
Proof.
  unfold loc_set.
  destruct (existsb (fun r => String.eqb (fst r) label) rs) eqn:E.
  - induction rs as [|r t IH]; simpl in *; [discriminate|].
    destruct (String.eqb (fst r) label) eqn:E1; simpl.
    + rewrite String.eqb_refl. reflexivity.
    + rewrite E1. apply IH. exact E.
  - induction rs as [|r t IH]; simpl in *.
    + rewrite String.eqb_refl. reflexivity.
    + apply orb_false_iff in E. destruct E as [E1 E2].
      rewrite E1. apply IH. exact E2.
Qed.

Lemma omap_id_map {A} (g : A -> option Q) (l : list A) :
  omap id (List.map g l) = omap g l.
Proof.
  induction l as [|x t IH]; simpl; [reflexivity|].
  destruct (g x); simpl; [f_equal|]; exact IH.
Qed.

Lemma omap_nonempty {A} (g : A -> option Q) (l : list A) (x : A) (v : Q) :
  In x l -> g x = Some v -> omap g l <> [].
Proof.
  induction l as [|z t IH]; intros Hin Hg; [destruct Hin|].
  simpl. destruct Hin as [->|Hin].
  - rewrite Hg. simpl. discriminate.
  - destruct (g z); simpl; [discriminate|]. now apply IH.
Qed.

Lemma pivot_cell_loc_set (cols : list Z) (label : string)
    (values : list (option Q)) (rs : list (string * list (option Q)))
    (y : Z) :
  pivot_cell (mkPivot cols (loc_set label values rs)) label y
  = match List.find (fun cv => (fst cv =? y)%Z) (combine cols values) with
    | Some cv => snd cv
    | None => None
    end.
Proof.
  unfold pivot_cell. cbn [rows columns]. rewrite loc_set_find. reflexivity.
Qed.

(** The row set by [loc] holds, in each column, the mean of the values
    present in that column of the pivot. *)
Lemma average_row (df : list ArtistYear) (y : Z) :
  let pivot := pivot_table df in
  let yearly :=
    mkPivot (columns pivot)
            (loc_set "Average" (column_means pivot) (rows pivot)) in
  In y (columns pivot) ->
  exists vs,
    omap (fun a => pivot_cell pivot a y) (List.map fst (rows pivot)) = vs /\
    vs <> [] /\
    pivot_cell yearly "Average" y = Some (SQL.avg vs).
Proof.
  intros pivot yearly Hy. subst yearly pivot.
  exists (omap (fun a => pivot_cell (pivot_table df) a y)
               (List.map fst (rows (pivot_table df)))).
  split; [reflexivity|].
  assert (Hne : omap (fun a => pivot_cell (pivot_table df) a y)
                     (List.map fst (rows (pivot_table df))) <> []).
  { apply pivot_table_columns in Hy. apply in_map_iff in Hy.
    destruct Hy as (r & <- & Hr).
    assert (Hv : exists v,
               pivot_cell (pivot_table df) (ay_Artist r) (ay_Year r) = Some v).
    { rewrite pivot_cell_pivot_table. unfold pivot_value.
      assert (Hin : In r (List.filter
                            (fun r' => String.eqb (ay_Artist r') (ay_Artist r)
                                       && (ay_Year r' =? ay_Year r)%Z) df)).
      { apply filter_In. split; [exact Hr|].
        now rewrite String.eqb_refl, Z.eqb_refl. }
      destruct (List.filter _ df) as [|r0 t]; [destruct Hin|].
      unfold mean_skipna. simpl. eauto. }
    destruct Hv as [v Hv].
    eapply omap_nonempty; [|exact Hv].
    apply pivot_table_index. now apply in_map. }
  split; [exact Hne|].
  rewrite pivot_cell_loc_set.
  rewrite column_means_pivot_table, combine_map_r.
  rewrite (find_key Z.eqb _ (columns (pivot_table df)) y Z.eqb_eq).
  apply (existsb_eqb_In Z.eqb _ _ Z.eqb_eq) in Hy. rewrite Hy.
  cbv beta iota. cbn [snd]. unfold mean_skipna. rewrite omap_id_map.
  assert (Hext : omap (fun a => pivot_value df a y)
                      (List.map fst (rows (pivot_table df)))
                 = omap (fun a => pivot_cell (pivot_table df) a y)
                        (List.map fst (rows (pivot_table df)))).
  { generalize (List.map fst (rows (pivot_table df))).
    intros l. induction l as [|a t IH]; simpl; [reflexivity|].
    rewrite pivot_cell_pivot_table.
    destruct (pivot_value df a y); simpl; [f_equal|]; exact IH. }
  rewrite Hext.
  destruct (omap _ _) as [|v t] eqn:E; [congruence|reflexivity].
Qed.

(** *** The totals and the theorem *)

Lemma top_artists_In (df : list ArtistYear) (t : ArtistTotal) :
  In t (top_artists df) ->
  In (at_Artist t) (List.map ay_Artist df) /\
  t = total_row (at_Artist t,
                 List.filter (fun r => String.eqb (at_Artist t) (ay_Artist r)) df).
Proof.
  unfold top_artists. intros H. apply In_firstn in H.
  apply order_by_In in H. apply in_map_iff in H.
  destruct H as ([a rs] & <- & Hg). apply order_by_In in Hg.
  apply (group_by_In String.eqb ay_Artist String.eqb_eq) in Hg.
  destruct Hg as [Ha ->]. simpl. split; [exact Ha|reflexivity].
Qed.

Lemma years_In (s e y : Z) : In y (years s e) <-> (s <= y <= e)%Z.
Proof.
  unfold years. rewrite in_map_iff. split.
  - intros (i & <- & Hi). apply in_seq in Hi. lia.
  - intros Hy. exists (Z.to_nat (y - s)). split; [lia|].
    apply in_seq. lia.
Qed.

Lemma years_NoDup (s e : Z) : List.NoDup (years s e).
Proof.
  unfold years. apply (NoDup_map_inv (fun z => Z.to_nat (z - s))).
  rewrite List.map_map. erewrite map_ext; [rewrite map_id; apply seq_NoDup|].
  intros i. simpl. lia.
Qed.

Lemma loc_set_find_other (label label' : string) (values : list (option Q))
    (rs : list (string * list (option Q))) :
  label' <> label ->
  List.find (fun r => String.eqb (fst r) label') (loc_set label values rs)
  = List.find (fun r => String.eqb (fst r) label') rs.
Proof.
  intros Hne. unfold loc_set.
  destruct (existsb _ rs).
  - induction rs as [|r t IH]; simpl; [reflexivity|].
    destruct (String.eqb (fst r) label) eqn:E; simpl.
    + apply String.eqb_eq in E. rewrite E.
      assert (E' : String.eqb label label' = false)
        by (apply String.eqb_neq; congruence).
      rewrite E'. exact IH.
    + destruct (String.eqb (fst r) label'); [reflexivity|exact IH].
  - induction rs as [|r t IH]; simpl.
    + assert (E' : String.eqb label label' = false)
        by (apply String.eqb_neq; congruence).
      now rewrite E'.
    + destruct (String.eqb (fst r) label'); [reflexivity|exact IH].
Qed.

Section RankingTotals.

Variables (start_year end_year : Z) (weights : RankingWeights) (db : Database).

Local Abbreviation stats := (artist_year_stats start_year end_year weights db).
Local Abbreviation row_of := (stats_row_of start_year end_year weights db).

(** The rows of an artist are the rows of the years of the range in
    which the artist has songs, one row per year. *)
Lemma artist_rows_perm (a : string) :
  Permutation
    (List.filter (fun r => String.eqb a (ay_Artist r)) stats)
    (List.map (fun y => row_of (a, y))
              (List.filter (has_data start_year end_year db a)
                           (years start_year end_year))).
Proof.
  apply Stdlib.Sorting.Permutation.NoDup_Permutation.
  - apply List.NoDup_filter, stats_NoDup.
  - apply (NoDup_map_inv ay_Year). rewrite List.map_map.
    erewrite map_ext; [rewrite map_id|intros y; reflexivity].
    apply List.NoDup_filter, years_NoDup.
  - intros r. rewrite filter_In, stats_In, in_map_iff. split.
    + intros [(a' & y & Hd & ->) Ha]. apply String.eqb_eq in Ha.
      simpl in Ha. subst a'. exists y. split; [reflexivity|].
      apply filter_In. split; [|exact Hd].
      apply years_In. eapply has_data_in_range. exact Hd.
    + intros (y & <- & Hy). apply filter_In in Hy. destruct Hy as [_ Hd].
      split; [exists a, y; auto|]. simpl. apply String.eqb_refl.
Qed.


Lemma top_cell (t : ArtistTotal) (y : Z) :
  In t (top_artists stats) ->
  pivot_cell (pivot_table (List.filter (isin (top_artists stats)) stats))
             (at_Artist t) y
  = if has_data start_year end_year db (at_Artist t) y
    then Some (SQL.avg [rank_of start_year end_year weights db (at_Artist t) y])
    else None.
Proof.
  intros Ht. rewrite pivot_cell_pivot_table. unfold pivot_value.
  rewrite filter_filter_implied.
  - change (List.filter _ stats)
      with (List.filter
              (fun r => same_artist_year (row_key r) (at_Artist t, y)) stats).
    rewrite stats_lookup.
    destruct (has_data start_year end_year db (at_Artist t) y); reflexivity.
  - intros r Hr. apply andb_true_iff in Hr. destruct Hr as [Ha _].
    apply String.eqb_eq in Ha. unfold isin. apply existsb_exists.
    exists t. split; [exact Ht|]. rewrite Ha. apply String.eqb_refl.
Qed.

End RankingTotals.



(** The worked example: artist "A" has songs in 2010 and 2012 only, so
    the cell of 2011 is null and the total adds the two years with data;
    the 2011 cell of the "Average" row is the value of "B", the only
    artist with a value in 2011. *)
Example top_artists_example :
  pivot_cell ranking_yearly "A" 2011 = None /\
  pivot_cell ranking_yearly "B" 2011
  = Some (rank_of 2010 2012 default_weights ranking_db "B" 2011) /\
  (exists v, pivot_cell ranking_yearly "Average" 2011 = Some v /\
             (v == rank_of 2010 2012 default_weights ranking_db "B" 2011)%Q) /\
  (exists t, In t ranking_top /\ at_Artist t = "A" /\
             (at_RankValue t
              == rank_of 2010 2012 default_weights ranking_db "A" 2010
                 + rank_of 2010 2012 default_weights ranking_db "A" 2012)%Q).
Proof.
  split; [reflexivity|]. split; [vm_compute; reflexivity|]. split.
  - eexists. split; [vm_compute; reflexivity|]. vm_compute. reflexivity.
  - eexists. split; [left; reflexivity|]. split; [reflexivity|].
    vm_compute. reflexivity.
Qed.

(** * Further properties *)

(** ** The loader: the store it builds *)

Lemma with_ids_app {A B} (mk : nat -> A -> B) (n : nat) (l l' : list A) :
  with_ids mk n (l ++ l')
  = with_ids mk n l ++ with_ids mk (n + length l) l'.
Proof.
  revert n. induction l as [|x t IH]; intros n; simpl.
  - now rewrite Nat.add_0_r.
  - rewrite IH, Nat.add_succ_r. reflexivity.
Qed.

Lemma with_ids_length {A B} (mk : nat -> A -> B) (n : nat) (l : list A) :
  length (with_ids mk n l) = length l.
Proof. revert n. induction l as [|x t IH]; intros n; simpl; auto. Qed.

Lemma with_ids_In {A B} (mk : nat -> A -> B) (n : nat) (l : list A) (y : B) :
  In y (with_ids mk n l) <->
  exists i x, nth_error l i = Some x /\ y = mk (n + i) x.
Proof.
  revert n. induction l as [|x t IH]; intros n; simpl.
  - split; [intros []|]. intros (i & x & H & _). destruct i; discriminate.
  - rewrite IH. split.
    + intros [<-|(i & x' & H & ->)].
      * exists 0, x. rewrite Nat.add_0_r. auto.
      * exists (S i), x'. split; [exact H|]. f_equal. lia.
    + intros ([|i] & x' & H & ->); simpl in H.
      * injection H as <-. left. now rewrite Nat.add_0_r.
      * right. exists i, x'. split; [exact H|]. f_equal. lia.
Qed.

Lemma with_ids_ext {A B} (mk mk' : nat -> A -> B) (n : nat) (l : list A) :
  (forall i x, In x l -> mk i x = mk' i x) ->
  with_ids mk n l = with_ids mk' n l.
Proof.
  revert n. induction l as [|x t IH]; intros n H; simpl; [reflexivity|].
  rewrite H by now left. f_equal. apply IH. intros i y Hy. apply H. now right.
Qed.

Lemma index_of_cons_ne (x a : string) (t : list string) :
  x <> a -> index_of (x :: t) a = S (index_of t a).
Proof. intros H. simpl. apply String.eqb_neq in H. now rewrite H. Qed.

Lemma index_of_nth (l : list string) (a : string) :
  In a l -> nth_error l (index_of l a) = Some a.
Proof.
  induction l as [|x t IH]; intros Hin; [destruct Hin|]. simpl.
  destruct (String.eqb_spec x a) as [->|Hne]; [reflexivity|].
  simpl. apply IH. destruct Hin; [contradiction|assumption].
Qed.

Lemma index_of_inj (l : list string) (a b : string) :
  In a l -> In b l -> index_of l a = index_of l b -> a = b.
Proof.
  intros Ha Hb E. apply index_of_nth in Ha, Hb. rewrite E in Ha. congruence.
Qed.

(** The loop over the distinct artists: the rows appended and the dict. *)
Lemma add_artists_run (l : list string) :
  forall (db : Database) (m : gmap string nat),
    List.NoDup l ->
    (forall a, In a l -> ~ In a (List.map a_Name (Artist db))) ->
    exists m',
      for_each add_artist (List.map Some l) (db, m)
      = ok (mkDatabase
              (Artist db ++ with_ids mkArtist (S (length (Artist db))) l)
              (Genre db) (Song db) (SongGenre db), m') /\
      (forall a, In a l ->
                 m' !! a = Some (S (length (Artist db) + index_of l a))) /\
      (forall a, ~ In a l -> m' !! a = m !! a).
Proof.
  induction l as [|a t IH]; intros db m Hnd Hfresh.
  - exists m. simpl. rewrite app_nil_r. destruct db. repeat split; tauto.
  - inversion Hnd as [|? ? Hat Hndt]; subst. simpl. unfold insert_Artist.
    destruct (existsb _ (Artist db)) eqn:E.
    { exfalso. apply existsb_exists in E. destruct E as (row & Hrow & Heq).
      apply String.eqb_eq in Heq. apply (Hfresh a); [now left|].
      apply in_map_iff. eauto. }
    cbn [bind ok].
    destruct (IH (mkDatabase (Artist db ++ [mkArtist (S (length (Artist db))) a])
                             (Genre db) (Song db) (SongGenre db))
                 (<[a := S (length (Artist db))]> m) Hndt)
      as (m' & Hrun & Hin & Hout).
    { intros a' Ha' Hc. simpl in Hc. rewrite List.map_app in Hc.
      apply in_app_or in Hc. destruct Hc as [Hc|[<-|[]]].
      - apply (Hfresh a'); [now right|exact Hc].
      - contradiction. }
    exists m'. rewrite Hrun. cbn [Artist Genre Song SongGenre].
    rewrite length_app, <- app_assoc. simpl.
    replace (length (Artist db) + 1) with (S (length (Artist db))) by lia.
    split; [reflexivity|]. split.
    + intros a' [<-|Ha'].
      * rewrite Hout by exact Hat. rewrite lookup_insert_eq.
        rewrite String.eqb_refl. f_equal. lia.
      * rewrite (Hin a' Ha').
        assert (Hne : String.eqb a a' = false)
          by (apply String.eqb_neq; intros ->; contradiction).
        rewrite Hne. cbn [Artist Genre].
        rewrite length_app. simpl. f_equal. lia.
    + intros a' Ha'. rewrite Hout by tauto.
      apply lookup_insert_ne. intros ->. apply Ha'. now left.
Qed.

(** The loop over the distinct genres. *)
Lemma add_genres_run (l : list string) :
  forall (db : Database) (m : gmap string nat),
    List.NoDup l ->
    (forall g, In g l -> ~ In g (List.map g_Genre (Genre db))) ->
    exists m',
      for_each add_genre l (db, m)
      = ok (mkDatabase
              (Artist db)
              (Genre db ++ with_ids mkGenre (S (length (Genre db))) l)
              (Song db) (SongGenre db), m') /\
      (forall g, In g l ->
                 m' !! g = Some (S (length (Genre db) + index_of l g))) /\
      (forall g, ~ In g l -> m' !! g = m !! g).
Proof.
  induction l as [|a t IH]; intros db m Hnd Hfresh.
  - exists m. simpl. rewrite app_nil_r. destruct db. repeat split; tauto.
  - inversion Hnd as [|? ? Hat Hndt]; subst. simpl. unfold insert_Genre.
    destruct (existsb _ (Genre db)) eqn:E.
    { exfalso. apply existsb_exists in E. destruct E as (row & Hrow & Heq).
      apply String.eqb_eq in Heq. apply (Hfresh a); [now left|].
      apply in_map_iff. eauto. }
    cbn [bind ok].
    destruct (IH (mkDatabase (Artist db)
                             (Genre db ++ [mkGenre (S (length (Genre db))) a])
                             (Song db) (SongGenre db))
                 (<[a := S (length (Genre db))]> m) Hndt)
      as (m' & Hrun & Hin & Hout).
    { intros a' Ha' Hc. simpl in Hc. rewrite List.map_app in Hc.
      apply in_app_or in Hc. destruct Hc as [Hc|[<-|[]]].
      - apply (Hfresh a'); [now right|exact Hc].
      - contradiction. }
    exists m'. rewrite Hrun. cbn [Artist Genre Song SongGenre].
    rewrite length_app, <- app_assoc. simpl.
    replace (length (Genre db) + 1) with (S (length (Genre db))) by lia.
    split; [reflexivity|]. split.
    + intros a' [<-|Ha'].
      * rewrite Hout by exact Hat. rewrite lookup_insert_eq.
        rewrite String.eqb_refl. f_equal. lia.
      * rewrite (Hin a' Ha').
        assert (Hne : String.eqb a a' = false)
          by (apply String.eqb_neq; intros ->; contradiction).
        rewrite Hne. cbn [Artist Genre].
        rewrite length_app. simpl. f_equal. lia.
    + intros a' Ha'. rewrite Hout by tauto.
      apply lookup_insert_ne. intros ->. apply Ha'. now left.
Qed.

Section LoadRowsRun.

Variables am gm : gmap string nat.
Variables (aid gid : string -> nat) (known : string -> Prop).

Hypothesis gid_inj :
  forall g1 g2, known g1 -> known g2 -> gid g1 = gid g2 -> g1 = g2.
Hypothesis gm_known : forall g, known g -> gm !! g = Some (gid g).

Lemma link_genres_run (sid : nat) (gs : list string) :
  forall db : Database,
    List.NoDup gs ->
    (forall g, In g gs -> known g) ->
    (forall sg, In sg (SongGenre db) -> sg_SongID sg = sid ->
                exists g, known g /\ sg_GenreID sg = gid g /\ ~ In g gs) ->
    for_each (link_genre gm sid) gs db
    = ok (mkDatabase (Artist db) (Genre db) (Song db)
            (SongGenre db ++ List.map (fun g => mkSongGenre sid (gid g)) gs)).
Proof.
  induction gs as [|g t IH]; intros db Hnd Hknown Hold.
  - simpl. rewrite app_nil_r. now destruct db.
  - inversion Hnd as [|? ? Hgt Hndt]; subst. simpl.
    unfold link_genre at 1, dict_get.
    rewrite (gm_known g) by (apply Hknown; now left). cbn [bind ok].
    unfold insert_SongGenre.
    destruct (existsb _ (SongGenre db)) eqn:E.
    { exfalso. apply existsb_exists in E. destruct E as (sg & Hsg & Heq).
      unfold same_link in Heq. simpl in Heq.
      apply andb_true_iff in Heq. destruct Heq as [H1 H2].
      apply Nat.eqb_eq in H1, H2.
      destruct (Hold sg Hsg (eq_sym H1)) as (g' & Hk & Hg' & Hnot).
      apply Hnot. left. apply gid_inj; [apply Hknown; now left|exact Hk|].
      congruence. }
    cbn [bind ok]. rewrite IH; trivial.
    + cbn [Artist Genre Song SongGenre]. now rewrite <- app_assoc.
    + intros g' Hg'. apply Hknown. now right.
    + cbn [SongGenre]. intros sg Hsg Hsid. apply in_app_or in Hsg.
      destruct Hsg as [Hsg|[<-|[]]].
      * destruct (Hold sg Hsg Hsid) as (g' & Hk & Hg' & Hnot).
        exists g'. repeat split; trivial. intros Hc. apply Hnot. now right.
      * exists g. repeat split; trivial. apply Hknown. now left.
Qed.

(** A song whose genre list names a label twice, or names a label the
    song is linked to already, has a link refused. *)
Lemma link_genres_raise (sid : nat) (gs : list string) :
  forall db : Database,
    (forall g, In g gs -> known g) ->
    (exists g, In g gs /\ In (mkSongGenre sid (gid g)) (SongGenre db))
    \/ ~ List.NoDup gs ->
    for_each (link_genre gm sid) gs db = raise IntegrityError.
Proof.
  induction gs as [|g t IH]; intros db Hknown Hbad.
  - exfalso. destruct Hbad as [(g & [] & _)|Hnd]. apply Hnd. constructor.
  - simpl. unfold link_genre at 1, dict_get.
    rewrite (gm_known g) by (apply Hknown; now left). cbn [bind ok].
    unfold insert_SongGenre.
    destruct (existsb _ (SongGenre db)) eqn:E; [reflexivity|].
    cbn [bind ok]. apply IH.
    + intros g' Hg'. apply Hknown. now right.
    + cbn [SongGenre]. rewrite existsb_false_iff in E.
      destruct (in_dec string_dec g t) as [Hin|Hnin].
      * left. exists g. split; [exact Hin|]. apply in_or_app. right. now left.
      * destruct Hbad as [(g' & [<-|Hg'] & Hl)|Hnd].
        -- specialize (E _ Hl). unfold same_link in E. simpl in E.
           rewrite !Nat.eqb_refl in E. discriminate.
        -- left. exists g'. split; [exact Hg'|]. apply in_or_app. now left.
        -- right. intros Hndt. apply Hnd. now constructor.
Qed.

End LoadRowsRun.

Section LoadFrameRun.

Variables am gm : gmap string nat.
Variables (aid gid : string -> nat) (known : string -> Prop).

Hypothesis gid_inj :
  forall g1 g2, known g1 -> known g2 -> gid g1 = gid g2 -> g1 = g2.
Hypothesis gm_known : forall g, known g -> gm !! g = Some (gid g).

Lemma insert_Song_numeric (db : Database) (r : record) (a : nat) :
  numeric r ->
  insert_Song db (Some (song r)) (duration r) (Some (explicit r)) (year r)
              (popularity r) (danceability r) (speechiness r) a
  = ok (mkDatabase (Artist db) (Genre db)
          (Song db ++ [mkSong (S (length (Song db))) (song r) (duration r)
                         (explicit r) (year r) (cell_number (popularity r))
                         (cell_number (danceability r))
                         (cell_number (speechiness r)) a])
          (SongGenre db), S (length (Song db))).
Proof.
  intros (p & d & s & Hp & Hd & Hs). unfold insert_Song.
  rewrite Hp, Hd, Hs. reflexivity.
Qed.

(** The loop over the rows: the songs and the links it appends. *)
Lemma load_rows_run (df : list record) :
  forall db : Database,
    Forall numeric df ->
    Forall (fun r => List.NoDup (genres r)) df ->
    (forall r, In r df -> am !! artist r = Some (aid (artist r))) ->
    (forall r g, In r df -> In g (genres r) -> known g) ->
    (forall sg, In sg (SongGenre db) -> sg_SongID sg <= length (Song db)) ->
    for_each (load_row am gm) (frame df) db
    = ok (mkDatabase (Artist db) (Genre db)
            (Song db ++ with_ids (song_row aid) (S (length (Song db))) df)
            (SongGenre db
             ++ concat (with_ids (link_rows gid) (S (length (Song db))) df))).
Proof.
  induction df as [|r t IH]; intros db Hnum Hnd Ham Hk Hle.
  - simpl. rewrite !app_nil_r. now destruct db.
  - inversion Hnum as [|? ? Hr Hnumt]; subst.
    inversion Hnd as [|? ? Hndr Hndt]; subst.
    cbn [frame List.map for_each]. unfold load_row at 1.
    cbn [complete artist song duration explicit year popularity danceability
         speechiness genres dict_get_cell].
    unfold dict_get at 1.
    rewrite (Ham r) by now left. cbn [bind ok].
    rewrite (insert_Song_numeric db r _ Hr). cbn [bind ok].
    rewrite (link_genres_run gm gid known gid_inj gm_known); trivial.
    + cbn [Artist Genre Song SongGenre bind ok]. fold (frame t).
      rewrite IH; trivial.
      * cbn [Artist Genre Song SongGenre]. rewrite length_app. simpl.
        replace (length (Song db) + 1) with (S (length (Song db))) by lia.
        rewrite <- !app_assoc. reflexivity.
      * intros r' Hr'. apply Ham. now right.
      * intros r' g Hr' Hg. apply (Hk r' g); [now right|exact Hg].
      * cbn [Song SongGenre]. intros sg Hsg. rewrite length_app. simpl.
        apply in_app_or in Hsg. destruct Hsg as [Hsg|Hsg].
        -- specialize (Hle sg Hsg). lia.
        -- apply in_map_iff in Hsg. destruct Hsg as (g & <- & _). simpl. lia.
    + intros g Hg. apply (Hk r g); [now left|exact Hg].
    + cbn [SongGenre]. intros sg Hsg Hsid. specialize (Hle sg Hsg). lia.
Qed.

Lemma numeric_dec {T B} (r : record_of T B) : {numeric r} + {~ numeric r}.
Proof.
  unfold numeric.
  destruct (popularity r) as [p|bp| |tp rp] eqn:Ep;
    [|right; intros (p' & d' & s' & H & _); discriminate..].
  destruct (danceability r) as [d|bd| |td rd] eqn:Ed;
    [|right; intros (p' & d' & s' & _ & H & _); discriminate..].
  destruct (speechiness r) as [s|bs| |ts rs] eqn:Es;
    [|right; intros (p' & d' & s' & _ & _ & H); discriminate..].
  left. exists p, d, s. auto.
Qed.

Lemma missing_text_dec (r : row) : {missing_text r} + {~ missing_text r}.
Proof.
  unfold missing_text.
  destruct (artist r) as [a|]; [|left; auto].
  destruct (song r) as [t|]; [|left; auto].
  destruct (explicit r) as [e|]; [|left; auto].
  right. intros [H|[H|H]]; discriminate.
Qed.

(** A row without a missing text cell is the row of a record. *)
Lemma complete_row (r : row) :
  ~ missing_text r -> exists r0 : record, r = complete r0.
Proof.
  unfold missing_text. destruct r as [[a|] [t|] dur [e|] yr p d s gs];
    simpl; intros H; try (exfalso; apply H; auto; fail).
  exists (mkRecord a t dur e yr p d s gs). reflexivity.
Qed.

Lemma complete_frame (df : list row) :
  Forall (fun r => ~ missing_text r) df -> exists df0, df = frame df0.
Proof.
  induction 1 as [|r t Hr _ (t0 & ->)].
  - exists []. reflexivity.
  - destruct (complete_row r Hr) as (r0 & ->). exists (r0 :: t0). reflexivity.
Qed.

Lemma complete_present (r : record) : ~ missing_text (complete r).
Proof. intros [H|[H|H]]; discriminate. Qed.

(** A row with a missing title or explicit cell, or with a numeric cell
    that is not a number, is refused. *)
Lemma insert_Song_refused (db : Database) (r : row) (a : nat) :
  song r = None \/ explicit r = None \/ ~ numeric r ->
  insert_Song db (song r) (duration r) (explicit r) (year r)
              (popularity r) (danceability r) (speechiness r) a
  = raise IntegrityError.
Proof.
  intros Hn. unfold insert_Song, numeric in *.
  destruct (song r); [|reflexivity].
  destruct (explicit r); [|reflexivity]. cbn [bind_present bind ok].
  destruct (popularity r); try reflexivity.
  destruct (danceability r); try reflexivity.
  destruct (speechiness r); try reflexivity.
  exfalso. destruct Hn as [H|[H|H]]; try discriminate.
  apply H. repeat eexists.
Qed.

(** The loop stops with an IntegrityError at the first row it cannot
    insert. *)
Lemma load_rows_raise (df : list row) :
  forall db : Database,
    Exists (fun r => ~ loadable_row r) df ->
    (forall r, In r df ->
               exists a, artist r = Some a /\ am !! a = Some (aid a)) ->
    (forall r g, In r df -> In g (genres r) -> known g) ->
    (forall sg, In sg (SongGenre db) -> sg_SongID sg <= length (Song db)) ->
    for_each (load_row am gm) df db = raise IntegrityError.
Proof.
  induction df as [|r t IH]; intros db Hex Ham Hk Hle.
  - inversion Hex.
  - simpl. unfold load_row at 1.
    destruct (Ham r (or_introl eq_refl)) as (a & Ea & Haid).
    rewrite Ea. cbn [dict_get_cell]. unfold dict_get at 1.
    rewrite Haid. cbn [bind ok].
    destruct (missing_text_dec r) as [[Hm|Hm]|Hp];
      [congruence|now rewrite insert_Song_refused by tauto|].
    destruct (numeric_dec r) as [Hr|Hr];
      [|now rewrite insert_Song_refused by tauto].
    destruct (complete_row r Hp) as (r0 & ->).
    change (numeric r0) in Hr.
    cbn [complete song duration explicit year popularity danceability
         speechiness genres].
    rewrite (insert_Song_numeric db r0 _ Hr). cbn [bind ok].
    destruct (ListDec.NoDup_dec string_dec (genres r0)) as [Hndr|Hdup].
    + rewrite (link_genres_run gm gid known gid_inj gm_known); trivial.
      * cbn [Artist Genre Song SongGenre bind ok]. apply IH; trivial.
        -- inversion Hex as [? ? H|]; subst; [|assumption].
           exfalso. apply H. split; [apply complete_present|]. now split.
        -- intros r' Hr'. apply Ham. now right.
        -- intros r' g Hr' Hg. apply (Hk r' g); [now right|exact Hg].
        -- cbn [Song SongGenre]. intros sg Hsg. rewrite length_app. simpl.
           apply in_app_or in Hsg. destruct Hsg as [Hsg|Hsg].
           ++ specialize (Hle sg Hsg). lia.
           ++ apply in_map_iff in Hsg. destruct Hsg as (g & <- & _).
              simpl. lia.
      * intros g Hg. apply (Hk (complete r0) g); [now left|exact Hg].
      * cbn [SongGenre]. intros sg Hsg Hsid. specialize (Hle sg Hsg). lia.
    + rewrite (link_genres_raise gm gid known gm_known); trivial.
      * intros g Hg. apply (Hk (complete r0) g); [now left|exact Hg].
      * now right.
Qed.

End LoadFrameRun.

Section LoadFrame.

Variable iter : set_order.
Hypothesis iter_visits : set_iteration iter.

Lemma genre_known {T B} (df : list (record_of T B)) (g : string) :
  In g (iter (unique_genres df)) <-> exists r, In r df /\ In g (genres r).
Proof.
  rewrite (set_iteration_In iter _ _ iter_visits).
  apply elem_of_unique_genres.
Qed.

Lemma genre_id_inj (df : list record) (g1 g2 : string) :
  In g1 (iter (unique_genres df)) ->
  In g2 (iter (unique_genres df)) ->
  genre_id iter df g1 = genre_id iter df g2 -> g1 = g2.
Proof.
  unfold genre_id. intros H1 H2 E. injection E as E.
  eapply index_of_inj; eassumption.
Qed.

(** The artist loop stops at a missing artist: [Name] is NOT NULL. *)
Lemma add_artists_raise (l : list (option string)) :
  forall (db : Database) (m : gmap string nat),
    List.NoDup l ->
    In None l ->
    (forall a, In (Some a) l -> ~ In a (List.map a_Name (Artist db))) ->
    for_each add_artist l (db, m) = raise IntegrityError.
Proof.
  induction l as [|[a|] t IH]; intros db m Hnd Hin Hfresh.
  - destruct Hin.
  - inversion Hnd as [|? ? Hat Hndt]; subst. simpl.
    destruct (existsb _ (Artist db)) eqn:E; [reflexivity|].
    cbn [bind ok]. apply IH; trivial.
    + destruct Hin as [H|H]; [discriminate|exact H].
    + intros a' Ha' Hc. simpl in Hc. rewrite List.map_app in Hc.
      apply in_app_or in Hc. destruct Hc as [Hc|[<-|[]]].
      * apply (Hfresh a'); [now right|exact Hc].
      * contradiction.
  - reflexivity.
Qed.

(** The artists of a frame without a missing artist. *)
Lemma present_artists (df : list row) :
  ~ In None (List.map artist df) ->
  exists names, List.map artist df = List.map Some names.
Proof.
  induction df as [|r t IH]; intros H.
  - exists []. reflexivity.
  - simpl in *. destruct (artist r) as [a|]; [|exfalso; auto].
    destruct IH as (names & ->); [tauto|]. exists (a :: names). reflexivity.
Qed.

(** The two dicts and the two tables the loader has built when it
    starts on the rows of a frame without a missing artist. *)
Lemma load_tables_rows (df : list row) (names : list string) :
  List.map artist df = List.map Some names ->
  exists am gm,
    (forall a, In a names -> am !! a = Some (S (index_of (unique names) a))) /\
    (forall g, In g (iter (unique_genres df)) ->
               gm !! g = Some (S (index_of (iter (unique_genres df)) g))) /\
    create_and_populate_database iter df
    = for_each (load_row am gm) df
        (mkDatabase (with_ids mkArtist 1 (unique names))
                    (with_ids mkGenre 1 (iter (unique_genres df)))
                    [] []).
Proof.
  intros Hnames. unfold create_and_populate_database.
  rewrite Hnames, Series_unique_Some.
  destruct (add_artists_run (unique names)
              create_database_schema ∅ (unique_NoDup _))
    as (am & Hrun1 & Ham & _).
  { intros a _ []. }
  rewrite Hrun1. cbn [bind ok Artist Genre Song SongGenre
                      create_database_schema length app].
  destruct (add_genres_run (iter (unique_genres df))
              (mkDatabase (with_ids mkArtist 1 (unique names))
                          [] [] []) ∅)
    as (gm & Hrun2 & Hgm & _).
  { now apply set_iteration_NoDup. }
  { intros g _ []. }
  rewrite Hrun2. cbn [bind ok Artist Genre Song SongGenre length app].
  exists am, gm. split; [|split; [|reflexivity]].
  - intros a Ha. apply Ham. apply unique_In. exact Ha.
  - intros g Hg. now apply Hgm.
Qed.

Lemma load_tables_run (df : list record) :
  exists am gm,
    (forall r, In r df -> am !! artist r = Some (artist_id df (artist r))) /\
    (forall g, In g (iter (unique_genres df)) ->
               gm !! g = Some (genre_id iter df g)) /\
    create_and_populate_database iter (frame df)
    = for_each (load_row am gm) (frame df)
        (mkDatabase (with_ids mkArtist 1 (unique (List.map artist df)))
                    (with_ids mkGenre 1 (iter (unique_genres df)))
                    [] []).
Proof.
  destruct (load_tables_rows (frame df) (List.map artist df)
              (frame_artists df)) as (am & gm & Ham & Hgm & E).
  rewrite unique_genres_frame in Hgm, E.
  exists am, gm. split; [|split; [exact Hgm|exact E]].
  intros r Hr. apply Ham, in_map. exact Hr.
Qed.

(** The run of the loader on a loadable frame. *)
Lemma load_run (df : list record) :
  loadable df ->
  create_and_populate_database iter (frame df) = ok (loaded_store iter df).
Proof.
  intros [Hnum Hnd]. destruct (load_tables_run df) as (am & gm & Ham & Hgm & ->).
  rewrite (load_rows_run am gm (artist_id df) (genre_id iter df)
             (fun g => In g (iter (unique_genres df)))); trivial.
  - apply genre_id_inj.
  - intros r g Hr Hg. apply genre_known. eauto.
  - intros sg [].
Qed.

(** The run of the loader on a frame with a row it cannot insert. *)
Lemma load_raise (df : list row) :
  Exists (fun r => ~ loadable_row r) df ->
  create_and_populate_database iter df = raise IntegrityError.
Proof.
  intros Hex.
  destruct (existsb is_missing (List.map artist df)) eqn:Eex;
    [assert (Hnone : In None (List.map artist df))
       by now apply existsb_missing
    |assert (Hall : ~ In None (List.map artist df))
       by (intros Hc; apply existsb_missing in Hc; congruence)].
  - unfold create_and_populate_database.
    rewrite add_artists_raise; [reflexivity| | |].
    + apply distinct_NoDup, text_eqb_eq.
    + apply Series_unique_In. exact Hnone.
    + intros a _ [].
  - destruct (present_artists df Hall) as (names & Hnames).
    destruct (load_tables_rows df names Hnames) as (am & gm & Ham & Hgm & ->).
    apply (load_rows_raise am gm (fun a => S (index_of (unique names) a))
             (fun g => S (index_of (iter (unique_genres df)) g))
             (fun g => In g (iter (unique_genres df)))); trivial.
    + intros g1 g2 H1 H2 E. injection E as E.
      eapply index_of_inj; eassumption.
    + intros r Hr.
      assert (Hin : In (artist r) (List.map Some names))
        by (rewrite <- Hnames; apply in_map; exact Hr).
      apply in_map_iff in Hin. destruct Hin as (a & Ea & Ha).
      exists a. split; [now symmetry|]. now apply Ham.
    + intros r g Hr Hg. apply genre_known. eauto.
    + intros sg [].
Qed.

Lemma loadable_row_dec (r : row) : {loadable_row r} + {~ loadable_row r}.
Proof.
  unfold loadable_row.
  destruct (missing_text_dec r) as [Hm|Hm]; [right; tauto|].
  destruct (numeric_dec r) as [Hn|Hn]; [|right; tauto].
  destruct (ListDec.NoDup_dec string_dec (genres r)) as [Hd|Hd];
    [left|right]; tauto.
Qed.

(** A load that returns has inserted every row: the frame is the frame
    of a loadable list of records, and the store is its store. *)
Lemma load_inv (df : list row) (db : Database) :
  create_and_populate_database iter df = ok db ->
  exists df0, df = frame df0 /\ loadable df0 /\ db = loaded_store iter df0.
Proof.
  intros H.
  assert (Hall : Forall loadable_row df).
  { apply List.Forall_forall. intros r Hr.
    destruct (loadable_row_dec r) as [Hl|Hl]; [exact Hl|].
    rewrite load_raise in H; [discriminate|].
    apply List.Exists_exists. eauto. }
  destruct (complete_frame df) as (df0 & ->).
  { eapply List.Forall_impl; [|exact Hall]. intros r Hr. apply Hr. }
  assert (Hl : loadable df0).
  { split; apply List.Forall_forall; intros r Hr;
      rewrite List.Forall_forall in Hall;
      destruct (Hall (complete r) (in_map complete _ _ Hr)) as (_ & Hn & Hd);
      assumption. }
  exists df0. split; [reflexivity|]. split; [exact Hl|].
  rewrite (load_run df0 Hl) in H. now injection H as <-.
Qed.

End LoadFrame.

(** X1.  In whatever order the set of the genres is visited, a frame
    without a missing artist, title or explicit cell, with numbers in
    the three numeric columns and no label twice in a genre list, is
    loaded completely, and the store is the one [loaded_store]
    describes: the artists in order of first appearance, numbered from
    1; the genres in the order of their visit, numbered from 1; the
    songs in the order of the records, numbered from 1, each with the
    fields of its record and the id of its artist; one link per genre of
    each record, with the id of the song and of the genre.  Among the
    frames without a [str] or an infinity in the numeric columns, a load
    that returns has been given such a frame. *)
Theorem load_result (iter : set_order) :
  set_iteration iter ->
  (forall df : list record,
      loadable df ->
      create_and_populate_database iter (frame df)
      = ok (loaded_store iter df)) /\
  (forall (df : list row) (db : Database),
      Forall storable df ->
      create_and_populate_database iter df = ok db ->
      exists df0 : list record,
        df = frame df0 /\ loadable df0 /\ db = loaded_store iter df0).
Proof.
  intros Hiter. split.
  - intros df. now apply load_run.
  - intros df db _. now apply load_inv.
Qed.

Lemma load_result_witness :
  create_and_populate_database alphabetical (frame two_record_frame)
  = ok (mkDatabase
          [mkArtist 1 "A"]
          [mkGenre 1 "pop"; mkGenre 2 "rock"]
          [mkSong 1 "t" 200 false 2010 (60 # 1) (1 # 2) (1 # 2) 1;
           mkSong 2 "u" 180 true 2011 (70 # 1) (1 # 2) (2 # 5) 1]
          [mkSongGenre 1 1; mkSongGenre 1 2; mkSongGenre 2 1]) /\
  create_and_populate_database reverse_alphabetical (frame two_record_frame)
  = ok (mkDatabase
          [mkArtist 1 "A"]
          [mkGenre 1 "rock"; mkGenre 2 "pop"]
          [mkSong 1 "t" 200 false 2010 (60 # 1) (1 # 2) (1 # 2) 1;
           mkSong 2 "u" 180 true 2011 (70 # 1) (1 # 2) (2 # 5) 1]
          [mkSongGenre 1 2; mkSongGenre 1 1; mkSongGenre 2 2]).
Proof.
  split.
  - apply (proj1 (load_result alphabetical alphabetical_visits)
             two_record_frame).
    split.
    + repeat constructor; repeat eexists.
    + repeat constructor; simpl; intuition discriminate.
  - apply (proj1 (load_result reverse_alphabetical
                    reverse_alphabetical_visits) two_record_frame).
    split.
    + repeat constructor; repeat eexists.
    + repeat constructor; simpl; intuition discriminate.
Defined.

(** X2.  On a frame without text in the numeric columns, a row with a
    missing value in one of them, with a genre list that names a label
    twice, or with a missing artist, title or explicit cell makes the
    load raise an IntegrityError, wherever the row stands in the frame
    and in whatever order the set of the genres is visited: the NOT NULL
    or the primary key constraint refuses a row and no store is
    committed. *)
Theorem load_refused (iter : set_order) (df : list row) :
  set_iteration iter ->
  Forall text_free df ->
  Exists (fun r => missing_cell r \/ ~ List.NoDup (genres r)
                   \/ missing_text r) df ->
  create_and_populate_database iter df = raise IntegrityError.
Proof.
  intros Hiter _ Hex. apply load_raise; [exact Hiter|].
  eapply List.Exists_impl; [|exact Hex].
  intros r [Hm|[Hdup|Hm]] (Hp & Hn & Hd); [|contradiction..].
  destruct Hn as (p & d & sp & Ep & Ed & Es). unfold missing_cell in Hm.
  rewrite Ep, Ed, Es in Hm. intuition discriminate.
Qed.

Lemma load_refused_witness :
  create_and_populate_database elements (frame late_repeat_frame)
  = raise IntegrityError /\
  create_and_populate_database elements (frame missing_popularity_frame)
  = raise IntegrityError /\
  create_and_populate_database elements late_untitled_frame
  = raise IntegrityError /\
  create_and_populate_database elements anonymous_frame
  = raise IntegrityError.
Proof.
  split; [|split; [|split]].
  - apply (load_refused elements (frame late_repeat_frame)
             set_iteration_elements).
    + repeat constructor.
    + apply Exists_cons_tl, Exists_cons_tl, Exists_cons_hd. right. left.
      intros H. inversion H as [|? ? Hn _]. apply Hn. simpl. now left.
  - apply (load_refused elements (frame missing_popularity_frame)
             set_iteration_elements).
    + repeat constructor.
    + apply Exists_cons_hd. left. left. reflexivity.
  - apply (load_refused elements late_untitled_frame set_iteration_elements).
    + repeat constructor.
    + apply Exists_cons_tl, Exists_cons_tl, Exists_cons_hd. right. right.
      right. left. reflexivity.
  - apply (load_refused elements anonymous_frame set_iteration_elements).
    + repeat constructor.
    + apply Exists_cons_hd. right. right. left. reflexivity.
Defined.

(** ** The loader: what the joins read back *)

Lemma join_single {A B} (on : A -> B -> bool) (h : A -> B) (l : list A)
    (r : list B) :
  (forall a, In a l -> List.filter (on a) r = [h a]) ->
  SQL.join on l r = List.map (fun a => (a, h a)) l.
Proof.
  unfold SQL.join. induction l as [|a t IH]; intros H; simpl; [reflexivity|].
  rewrite (H a) by now left. simpl. f_equal. apply IH.
  intros a' Ha'. apply H. now right.
Qed.

(** In a table numbered by [with_ids] an id selects the row of its
    position. *)
Lemma filter_with_ids {A B} (mk : nat -> A -> B) (id : B -> nat) (l : list A) :
  (forall i x, id (mk i x) = i) ->
  forall n j x,
    nth_error l j = Some x ->
    List.filter (fun y => (n + j =? id y)%nat) (with_ids mk n l)
    = [mk (n + j) x].
Proof.
  intros Hid. induction l as [|z t IH]; intros n j x Hj.
  - destruct j; discriminate.
  - simpl. rewrite Hid. destruct j as [|j]; simpl in Hj.
    + injection Hj as ->. rewrite Nat.add_0_r, Nat.eqb_refl. f_equal.
      apply filter_none. intros y Hy. apply with_ids_In in Hy.
      destruct Hy as (i & x' & _ & ->). rewrite Hid. apply Nat.eqb_neq. lia.
    + replace (n + S j =? n)%nat with false by (symmetry; apply Nat.eqb_neq; lia).
      replace (n + S j) with (S n + j) by lia. now apply IH.
Qed.

(** The links of the song of one record, selected by the id of the song. *)
Lemma filter_links (gid : string -> nat) (l : list record) :
  forall n j r,
    nth_error l j = Some r ->
    List.filter (fun sg => (n + j =? sg_SongID sg)%nat)
                (concat (with_ids (link_rows gid) n l))
    = link_rows gid (n + j) r.
Proof.
  induction l as [|z t IH]; intros n j r Hj.
  - destruct j; discriminate.
  - simpl. rewrite List.filter_app. destruct j as [|j]; simpl in Hj.
    + injection Hj as ->. rewrite Nat.add_0_r.
      rewrite filter_all, filter_none; [apply app_nil_r| |].
      * intros sg Hsg. apply in_concat in Hsg. destruct Hsg as (b & Hb & Hsg).
        apply with_ids_In in Hb. destruct Hb as (i & x & _ & ->).
        apply in_map_iff in Hsg. destruct Hsg as (g & <- & _). simpl.
        apply Nat.eqb_neq. lia.
      * intros sg Hsg. apply in_map_iff in Hsg. destruct Hsg as (g & <- & _).
        simpl. apply Nat.eqb_refl.
    + rewrite filter_none.
      * simpl. replace (n + S j) with (S n + j) by lia. now apply IH.
      * intros sg Hsg. apply in_map_iff in Hsg. destruct Hsg as (g & <- & _).
        simpl. apply Nat.eqb_neq. lia.
Qed.

Lemma flat_map_with_ids {A B C} (mk : nat -> A -> B) (f : B -> list C)
    (n : nat) (l : list A) :
  flat_map f (with_ids mk n l) = concat (with_ids (fun i x => f (mk i x)) n l).
Proof.
  revert n. induction l as [|x t IH]; intros n; simpl; [reflexivity|].
  now rewrite IH.
Qed.

Lemma map_with_ids {A B C} (mk : nat -> A -> B) (f : B -> C) (n : nat)
    (l : list A) :
  List.map f (with_ids mk n l) = with_ids (fun i x => f (mk i x)) n l.
Proof.
  revert n. induction l as [|x t IH]; intros n; simpl; [reflexivity|].
  now rewrite IH.
Qed.

Lemma map_concat_with_ids {A B C} (mk : nat -> A -> list B) (f : B -> C)
    (n : nat) (l : list A) :
  List.map f (concat (with_ids mk n l))
  = concat (with_ids (fun i x => List.map f (mk i x)) n l).
Proof.
  revert n. induction l as [|x t IH]; intros n; simpl; [reflexivity|].
  now rewrite List.map_app, IH.
Qed.

(** [with_ids] over the rows of a frame, the function being given on the
    positions of the frame only. *)
Lemma with_ids_ext_nth {A B} (mk mk' : nat -> A -> B) (l : list A) :
  (forall j x, nth_error l j = Some x -> mk (S j) x = mk' (S j) x) ->
  with_ids mk 1 l = with_ids mk' 1 l.
Proof.
  assert (H : forall n t,
             (forall j x, nth_error t j = Some x -> mk (n + j) x = mk' (n + j) x) ->
             with_ids mk n t = with_ids mk' n t).
  { intros n t. revert n. induction t as [|x t IH]; intros n Hext; simpl;
      [reflexivity|].
    rewrite <- (Nat.add_0_r n) at 1 3. rewrite (Hext 0 x eq_refl).
    rewrite Nat.add_0_r. f_equal. apply IH. intros j y Hj.
    replace (S n + j) with (n + S j) by lia. now apply Hext. }
  intros Hext. apply H. intros j x Hj. now apply Hext.
Qed.

Lemma nth_error_In_frame {A} (l : list A) (j : nat) (x : A) :
  nth_error l j = Some x -> In x l.
Proof. apply nth_error_In. Qed.

Lemma loaded_song_artists (iter : set_order) (df : list record) :
  song_artists (loaded_store iter df)
  = with_ids (fun i r => (song_of_record df i r, artist r)) 1 df.
Proof.
  unfold song_artists, loaded_store. cbn [Song Artist].
  set (U := unique (List.map artist df)).
  rewrite (join_single _
             (fun s => mkArtist (s_ArtistID s)
                                (nth (s_ArtistID s - 1) U ""))).
  - rewrite List.map_map, map_with_ids. cbn [fst snd a_Name].
    apply with_ids_ext_nth. intros j r Hj. f_equal.
    unfold song_of_record, song_row, artist_id. cbn [s_ArtistID]. fold U.
    rewrite Nat.sub_succ, Nat.sub_0_r.
    apply nth_error_nth, index_of_nth. subst U.
    apply unique_In, in_map. eapply nth_error_In. exact Hj.
  - intros s Hs. apply with_ids_In in Hs. destruct Hs as (j & r & Hj & ->).
    unfold song_of_record, song_row. cbn [s_ArtistID]. unfold artist_id.
    fold U. rewrite Nat.sub_succ, Nat.sub_0_r.
    assert (Hin : In (artist r) U).
    { subst U. apply unique_In, in_map. eapply nth_error_In. exact Hj. }
    pose proof (index_of_nth U (artist r) Hin) as Hn.
    rewrite (nth_error_nth _ _ _ Hn).
    exact (filter_with_ids mkArtist a_ID U (fun _ _ => eq_refl) 1 _ _ Hn).
Qed.

Lemma loaded_song_genres (iter : set_order) (df : list record) :
  set_iteration iter ->
  song_genres (loaded_store iter df)
  = concat (with_ids (fun i r => List.map (pair (song_of_record df i r))
                                          (genres r)) 1 df).
Proof.
  intros Hiter. unfold song_genres, loaded_store. cbn [Song SongGenre Genre].
  set (E := iter (unique_genres df)).
  assert (Hjoin1 :
    SQL.join (fun s sg => (s_ID s =? sg_SongID sg)%nat)
             (with_ids (song_of_record df) 1 df)
             (concat (with_ids (links_of_record iter df) 1 df))
    = concat (with_ids (fun i r => List.map (pair (song_of_record df i r))
                                            (links_of_record iter df i r)) 1 df)).
  { unfold SQL.join. rewrite flat_map_with_ids. f_equal.
    apply with_ids_ext_nth. intros j r Hj. f_equal.
    unfold song_of_record at 1. unfold song_row. cbn [s_ID].
    exact (filter_links (genre_id iter df) df 1 j r Hj). }
  rewrite Hjoin1.
  rewrite (join_single _
             (fun ssg => mkGenre (sg_GenreID (snd ssg))
                                 (nth (sg_GenreID (snd ssg) - 1) E ""))).
  - rewrite List.map_map. cbn [fst snd g_Genre].
    rewrite map_concat_with_ids. f_equal.
    apply with_ids_ext_nth. intros j r Hj.
    unfold links_of_record, link_rows. rewrite !List.map_map.
    apply map_ext_in. intros g Hg. cbn [fst snd sg_GenreID]. f_equal.
    unfold genre_id. fold E. rewrite Nat.sub_succ, Nat.sub_0_r.
    apply nth_error_nth, index_of_nth. subst E. apply (genre_known iter Hiter).
    exists r. split; [eapply nth_error_In; exact Hj|exact Hg].
  - intros [s sg] Hin. apply in_concat in Hin. destruct Hin as (b & Hb & Hin).
    apply with_ids_In in Hb. destruct Hb as (j & r & Hj & ->).
    apply in_map_iff in Hin. destruct Hin as (sg' & Heq & Hsg).
    injection Heq as <- <-.
    unfold links_of_record, link_rows in Hsg. apply in_map_iff in Hsg.
    destruct Hsg as (g & <- & Hg). cbn [snd sg_GenreID].
    unfold genre_id. fold E. rewrite Nat.sub_succ, Nat.sub_0_r.
    assert (Hin : In g E).
    { subst E. apply (genre_known iter Hiter). exists r.
      split; [eapply nth_error_In; exact Hj|exact Hg]. }
    pose proof (index_of_nth E g Hin) as Hn.
    rewrite (nth_error_nth _ _ _ Hn).
    exact (filter_with_ids mkGenre g_ID E (fun _ _ => eq_refl) 1 _ _ Hn).
Qed.

(** X3.  After the load of a loadable frame the join of Song with Artist
    reads back, for every record and in the order of the records, the
    song of the record with the artist name of the record: every song
    has exactly one artist row, the one of its record. *)
Theorem load_song_artists (iter : set_order) (df : list record) :
  set_iteration iter ->
  loadable df ->
  exists db,
    create_and_populate_database iter (frame df) = ok db /\
    song_artists db
    = with_ids (fun i r => (song_of_record df i r, artist r)) 1 df.
Proof.
  intros Hiter H. exists (loaded_store iter df).
  split; [now apply load_run|apply loaded_song_artists].
Qed.

Lemma load_song_artists_witness :
  exists db,
    create_and_populate_database elements (frame two_record_frame) = ok db /\
    song_artists db
    = with_ids (fun i r => (song_of_record two_record_frame i r, artist r))
               1 two_record_frame.
Proof.
  apply (load_song_artists elements two_record_frame set_iteration_elements). split.
  - repeat constructor; repeat eexists.
  - repeat constructor; simpl; intuition discriminate.
Defined.

(** X4.  After the load of a loadable frame the join of Song, SongGenre
    and Genre reads back, for every record and in the order of the
    records, the song of the record with each genre label of the record,
    in the order of its genre list. *)
Theorem load_song_genres (iter : set_order) (df : list record) :
  set_iteration iter ->
  loadable df ->
  exists db,
    create_and_populate_database iter (frame df) = ok db /\
    song_genres db
    = concat (with_ids (fun i r => List.map (pair (song_of_record df i r))
                                            (genres r)) 1 df).
Proof.
  intros Hiter H. exists (loaded_store iter df).
  split; [now apply load_run|now apply loaded_song_genres].
Qed.

Lemma load_song_genres_witness :
  exists db,
    create_and_populate_database elements (frame two_record_frame) = ok db /\
    song_genres db
    = concat (with_ids
                (fun i r => List.map (pair (song_of_record two_record_frame i r))
                                     (genres r)) 1 two_record_frame).
Proof.
  apply (load_song_genres elements two_record_frame set_iteration_elements). split.
  - repeat constructor; repeat eexists.
  - repeat constructor; simpl; intuition discriminate.
Defined.

Lemma with_ids_count {A B C} (f : nat -> A -> B) (g : A -> C) (P : C -> bool)
    (n : nat) (l : list A) :
  length (List.filter (fun x => P (snd x)) (with_ids (fun i x => (f i x, g x)) n l))
  = length (List.filter (fun x => P (g x)) l).
Proof.
  revert n. induction l as [|x t IH]; intros n; simpl; [reflexivity|].
  destruct (P (g x)); simpl; now rewrite IH.
Qed.

Lemma with_ids_names {A} (mk : nat -> string -> A) (name : A -> string)
    (n : nat) (l : list string) :
  (forall i x, name (mk i x) = x) -> List.map name (with_ids mk n l) = l.
Proof.
  intros H. revert n. induction l as [|x t IH]; intros n; simpl; [reflexivity|].
  now rewrite H, IH.
Qed.

Lemma with_ids_ids {A B} (mk : nat -> A -> B) (id : B -> nat) (n : nat)
    (l : list A) :
  (forall i x, id (mk i x) = i) ->
  List.map id (with_ids mk n l) = seq n (length l).
Proof.
  intros H. revert n. induction l as [|x t IH]; intros n; simpl; [reflexivity|].
  now rewrite H, IH.
Qed.

(** X5.  After the load of a loadable frame the Artist table holds each
    distinct artist name of the frame once, in order of first
    appearance, with the ids 1, 2, ...; and the number of songs the join
    gives an artist is the number of records of the frame with that
    artist name. *)
Theorem load_artists (iter : set_order) (df : list record) :
  set_iteration iter ->
  loadable df ->
  exists db,
    create_and_populate_database iter (frame df) = ok db /\
    List.map a_Name (Artist db) = unique (List.map artist df) /\
    List.NoDup (List.map a_Name (Artist db)) /\
    List.map a_ID (Artist db) = seq 1 (length (Artist db)) /\
    (forall a,
        length (List.filter (fun x => String.eqb (snd x) a) (song_artists db))
        = length (List.filter (fun r => String.eqb (artist r) a) df)).
Proof.
  intros Hiter H. exists (loaded_store iter df). split; [now apply load_run|].
  assert (Hnames : List.map a_Name (Artist (loaded_store iter df))
                   = unique (List.map artist df))
    by (apply with_ids_names; reflexivity).
  split; [exact Hnames|]. split; [rewrite Hnames; apply unique_NoDup|]. split.
  - cbn [loaded_store Artist]. rewrite with_ids_length.
    apply with_ids_ids. reflexivity.
  - intros a. rewrite loaded_song_artists.
    apply (with_ids_count (song_of_record df) artist
                          (fun x => String.eqb x a)).
Qed.

Lemma load_artists_witness :
  exists db,
    create_and_populate_database elements (frame two_record_frame) = ok db /\
    List.map a_Name (Artist db) = unique (List.map artist two_record_frame) /\
    List.NoDup (List.map a_Name (Artist db)) /\
    List.map a_ID (Artist db) = seq 1 (length (Artist db)) /\
    (forall a,
        length (List.filter (fun x => String.eqb (snd x) a) (song_artists db))
        = length (List.filter (fun r => String.eqb (artist r) a)
                              two_record_frame)).
Proof.
  apply (load_artists elements two_record_frame set_iteration_elements). split.
  - repeat constructor; repeat eexists.
  - repeat constructor; simpl; intuition discriminate.
Defined.

(** X6.  The foreign keys, which SQLite is not asked to enforce, hold
    after the load of a loadable frame: the songs are numbered 1, 2, ...
    in the order of the records, every song refers to an artist row,
    every link to a song row and to a genre row; and the Genre table
    holds each label of the frame once and no other label. *)
Theorem load_foreign_keys (iter : set_order) (df : list record) :
  set_iteration iter ->
  loadable df ->
  exists db,
    create_and_populate_database iter (frame df) = ok db /\
    List.map s_ID (Song db) = seq 1 (length df) /\
    (forall s, In s (Song db) ->
               exists a, In a (Artist db) /\ a_ID a = s_ArtistID s) /\
    (forall sg, In sg (SongGenre db) ->
                (exists s, In s (Song db) /\ s_ID s = sg_SongID sg) /\
                (exists g, In g (Genre db) /\ g_ID g = sg_GenreID sg)) /\
    List.NoDup (List.map g_Genre (Genre db)) /\
    (forall g, In g (List.map g_Genre (Genre db)) <->
               exists r, In r df /\ In g (genres r)).
Proof.
  intros Hiter H. exists (loaded_store iter df). split; [now apply load_run|].
  assert (Hlabels : List.map g_Genre (Genre (loaded_store iter df))
                    = iter (unique_genres df))
    by (apply with_ids_names; reflexivity).
  split; [|split; [|split; [|split]]].
  - cbn [loaded_store Song]. apply with_ids_ids. reflexivity.
  - intros s Hs. cbn [loaded_store Song Artist] in *.
    apply with_ids_In in Hs. destruct Hs as (j & r & Hj & ->).
    exists (mkArtist (artist_id df (artist r)) (artist r)).
    split; [|reflexivity]. apply with_ids_In.
    exists (index_of (unique (List.map artist df)) (artist r)), (artist r).
    split; [|reflexivity]. apply index_of_nth, unique_In, in_map.
    eapply nth_error_In. exact Hj.
  - intros sg Hsg. cbn [loaded_store Song SongGenre Genre] in *.
    apply in_concat in Hsg. destruct Hsg as (b & Hb & Hsg).
    apply with_ids_In in Hb. destruct Hb as (j & r & Hj & ->).
    apply in_map_iff in Hsg. destruct Hsg as (g & <- & Hg). split.
    + exists (song_of_record df (1 + j) r). split; [|reflexivity].
      apply with_ids_In. eauto.
    + exists (mkGenre (genre_id iter df g) g). split; [|reflexivity].
      apply with_ids_In.
      exists (index_of (iter (unique_genres df)) g), g.
      split; [|reflexivity]. apply index_of_nth, (genre_known iter Hiter).
      exists r. split; [eapply nth_error_In; exact Hj|exact Hg].
  - rewrite Hlabels. now apply set_iteration_NoDup.
  - intros g. rewrite Hlabels. apply (genre_known iter Hiter).
Qed.

Lemma load_foreign_keys_witness :
  exists db,
    create_and_populate_database elements (frame two_record_frame) = ok db /\
    List.map s_ID (Song db) = seq 1 (length two_record_frame) /\
    (forall s, In s (Song db) ->
               exists a, In a (Artist db) /\ a_ID a = s_ArtistID s) /\
    (forall sg, In sg (SongGenre db) ->
                (exists s, In s (Song db) /\ s_ID s = sg_SongID sg) /\
                (exists g, In g (Genre db) /\ g_ID g = sg_GenreID sg)) /\
    List.NoDup (List.map g_Genre (Genre db)) /\
    (forall g, In g (List.map g_Genre (Genre db)) <->
               exists r, In r two_record_frame /\ In g (genres r)).
Proof.
  apply (load_foreign_keys elements two_record_frame
           set_iteration_elements). split.
  - repeat constructor; repeat eexists.
  - repeat constructor; simpl; intuition discriminate.
Defined.


(** ** The filter stage on whole frames *)

Lemma to_numeric_idem (c : cell) :
  Series.to_numeric (Series.to_numeric c) = Series.to_numeric c.
Proof. destruct c as [q|b| |s [|q|b]]; reflexivity. Qed.

Lemma coerced_idem {T B} (r : record_of T B) : coerced (coerced r) = coerced r.
Proof. unfold coerced. simpl. now rewrite !to_numeric_idem. Qed.

Lemma retained_coerced {T B} (r : record_of T B) :
  retained (coerced r) = retained r.
Proof. unfold retained. simpl. now rewrite !to_numeric_idem. Qed.

Lemma retained_passes {T B} (r : record_of T B) :
  retained r = true <-> passes (coerced r).
Proof.
  rewrite retained_iff. unfold passes, exceeds. simpl.
  rewrite !above_iff. reflexivity.
Qed.

Lemma filter_map_fixed {A} (f : A -> A) (p : A -> bool) (l : list A) :
  (forall x, p (f x) = p x) ->
  List.filter p (List.map f (List.filter p l)) = List.map f (List.filter p l).
Proof.
  intros H. apply filter_all. intros x Hx. apply in_map_iff in Hx.
  destruct Hx as (y & <- & Hy). apply filter_In in Hy. rewrite H. apply Hy.
Qed.

(** X7.  When the speechiness column holds no text and the artists of
    the rows that pass can be put in order, none of them being missing
    beside one that is present, [filter_data] returns exactly the rows
    that pass, each as often as it stands in the frame and in the order
    of the frame, with the popularity and the danceability coerced.  A
    row passes when its popularity, coerced, is a number above 50, its
    danceability, coerced, a number above 0.20, and its speechiness a
    number from 0.33 to 0.66, both ends included; a [str] in the two
    coerced columns counts as the number it spells and as missing when
    it spells none. *)
Theorem filter_data_selects (dfSongs : list row) :
  Forall (fun r => is_text (speechiness r) = false) dfSongs ->
  sortable (List.map artist (List.filter retained dfSongs)) ->
  filter_data dfSongs = ok (List.map coerced (List.filter retained dfSongs)) /\
  (forall r : row, retained r = true <-> passes (coerced r)).
Proof.
  intros Hn Hs. split; [now apply filter_data_ok|].
  intros r. apply retained_passes.
Qed.

Lemma filter_data_selects_witness :
  filter_data mixed_frame = ok mixed_frame_filtered /\
  (forall r : row, retained r = true <-> passes (coerced r)).
Proof.
  apply (filter_data_selects mixed_frame).
  - repeat constructor.
  - intros [H _]. simpl in H. intuition discriminate.
Defined.

(** X8.  Filtering is idempotent: a frame [filter_data] has returned
    passes the filter again unchanged. *)
Theorem filter_data_idempotent (dfSongs df : list row) :
  filter_data dfSongs = ok df -> filter_data df = ok df.
Proof.
  intros H. apply filter_data_ok_inv in H. destruct H as (_ & Hs & ->).
  set (df := List.map coerced (List.filter retained dfSongs)).
  assert (Hf : List.filter retained df = df).
  { apply filter_map_fixed. intros r. apply retained_coerced. }
  rewrite filter_data_ok.
  - rewrite Hf. subst df. rewrite List.map_map. f_equal.
    apply map_ext. intros r. apply coerced_idem.
  - apply List.Forall_forall. intros r Hr. subst df.
    apply in_map_iff in Hr. destruct Hr as (r0 & <- & Hr0).
    apply filter_In in Hr0. destruct Hr0 as [_ Hret].
    apply retained_iff in Hret. destruct Hret as (_ & _ & s & Es & _).
    simpl. now rewrite Es.
  - rewrite Hf. subst df. rewrite List.map_map. exact Hs.
Qed.

Lemma filter_data_idempotent_witness :
  filter_data mixed_frame_filtered = ok mixed_frame_filtered.
Proof.
  apply (filter_data_idempotent mixed_frame). reflexivity.
Defined.

(** X9.  [filter_data] returns a frame if and only if the speechiness
    column holds no text and the artists of the rows that pass can be
    put in order.  One [str] in the speechiness column, in whatever row,
    makes it raise a TypeError, and so does a row that passes without an
    artist beside a row that passes with one; it raises nothing else. *)
Theorem filter_data_raises_iff (dfSongs : list row) :
  (filter_data dfSongs = raise TypeError <->
   Exists (fun r => is_text (speechiness r) = true) dfSongs \/
   ~ sortable (List.map artist (List.filter retained dfSongs))) /\
  ((exists df, filter_data dfSongs = ok df) <->
   Forall (fun r => is_text (speechiness r) = false) dfSongs /\
   sortable (List.map artist (List.filter retained dfSongs))) /\
  (forall e, filter_data dfSongs = raise e -> e = TypeError).
Proof.
  destruct (text_speechiness_dec dfSongs) as [Hn|Ht].
  - destruct (sortable_dec (List.map artist (List.filter retained dfSongs)))
      as [Hs|Hs].
    + rewrite (filter_data_ok _ Hn Hs). split; [|split].
      * split; [discriminate|]. intros [H|H]; [|contradiction].
        exfalso. apply List.Exists_exists in H. destruct H as (r & Hr & Hx).
        rewrite List.Forall_forall in Hn. rewrite (Hn r Hr) in Hx.
        discriminate.
      * split; [tauto|]. intros _. eauto.
      * discriminate.
    + rewrite (filter_data_not_sortable _ Hn Hs). split; [|split].
      * split; [auto|reflexivity].
      * split; [intros [df H]; discriminate|tauto].
      * intros e H. now injection H.
  - rewrite (filter_data_text _ Ht). split; [|split].
    + split; [auto|reflexivity].
    + split; [intros [df H]; discriminate|].
      intros [Hn _]. exfalso. apply List.Exists_exists in Ht.
      destruct Ht as (r & Hr & Hx).
      rewrite List.Forall_forall in Hn. rewrite (Hn r Hr) in Hx.
      discriminate.
    + intros e H. now injection H.
Qed.

(** The two ways to the TypeError, on frames of one and two rows. *)
Example filter_data_raises_examples :
  filter_data (frame text_speechiness_frame) = raise TypeError /\
  filter_data unsortable_frame = raise TypeError /\
  filter_data [mkRecord None (Some "u") 180 (Some true) 2011
                        (Num (60 # 1)) (Num (1 # 2)) (Num (2 # 5)) ["rock"]]
  = ok [mkRecord None (Some "u") 180 (Some true) 2011
                 (Num (60 # 1)) (Num (1 # 2)) (Num (2 # 5)) ["rock"]].
Proof. repeat split; reflexivity. Qed.

(** ** Cleaning the raw frame *)

Lemma Qltb_ge (x y : Q) : Qltb x y = false -> (y <= x)%Q.
Proof. unfold Qltb. rewrite negb_false_iff. apply Qle_bool_iff. Qed.

Lemma Qabs_bounds (x : Q) :
  (0 <= x -> Qabs x == x)%Q /\ (x <= 0 -> Qabs x == - x)%Q.
Proof. split; [apply Qabs_pos|apply Qabs_neg]. Qed.

Lemma round_half_even_nearest (q : Q) : nearest_even q (round_half_even q).
Proof.
  unfold nearest_even, round_half_even.
  pose proof (Qfloor_le q) as Hlo. pose proof (Qlt_floor q) as Hhi.
  rewrite inject_Z_plus in Hhi. change (inject_Z 1) with 1%Q in Hhi.
  set (f := Qfloor q) in *. cbv zeta.
  destruct (Qltb (q - inject_Z f) (1 # 2)) eqn:E1.
  - apply Qltb_lt in E1.
    rewrite (proj1 (Qabs_bounds _)) by lra. split; [lra|]. intros H. lra.
  - apply Qltb_ge in E1.
    destruct (Qltb (1 # 2) (q - inject_Z f)) eqn:E2.
    + apply Qltb_lt in E2. rewrite inject_Z_plus. change (inject_Z 1) with 1%Q.
      rewrite (proj2 (Qabs_bounds _)) by lra. split; [lra|]. intros H. lra.
    + apply Qltb_ge in E2. destruct (Z.even f) eqn:Ev.
      * rewrite (proj1 (Qabs_bounds _)) by lra. split; [lra|].
        intros _. exact Ev.
      * rewrite inject_Z_plus. change (inject_Z 1) with 1%Q.
        rewrite (proj2 (Qabs_bounds _)) by lra. split; [lra|]. intros _.
        rewrite Z.add_1_r, Z.even_succ, <- Z.negb_even, Ev. reflexivity.
Qed.

Lemma truncate_inject_Z (z : Z) : truncate (inject_Z z) = z.
Proof.
  unfold truncate. destruct (Qle_bool 0 (inject_Z z));
    [apply Qfloor_Z|apply Qceiling_Z].
Qed.

(** The rounded value lies within a half of the number. *)
Lemma round_half_even_bounds (q : Q) :
  (q - (1 # 2) <= inject_Z (round_half_even q) <= q + (1 # 2))%Q.
Proof.
  destruct (round_half_even_nearest q) as [H _].
  apply Qabs_Qle_condition in H. lra.
Qed.

Lemma divide_column (cells : list cell) :
  mapM divide_by_1000 cells
  = if existsb is_text cells then raise TypeError
    else ok (List.map quotient cells).
Proof.
  induction cells as [|c t IH]; simpl; [reflexivity|].
  destruct c as [q|b| |s r]; simpl; [| | |reflexivity];
    rewrite IH; destruct (existsb is_text t); reflexivity.
Qed.

Lemma astype_column {A} (f : A -> cell) (l : list A) :
  mapM astype_int (List.map f l)
  = if forallb (fun x => is_number (f x)) l
    then ok (List.map (fun x => to_int64 (truncate (cell_number (f x)))) l)
    else raise ValueError.
Proof.
  induction l as [|x t IH]; simpl; [reflexivity|].
  destruct (f x) as [q|b| |s r]; simpl; try reflexivity.
  rewrite IH. destruct (forallb _ t); reflexivity.
Qed.

Lemma duration_column_run (dfSongs : list raw_record) :
  duration_column dfSongs
  = if existsb duration_is_text dfSongs then inl DivisionTypeError
    else if existsb duration_not_finite dfSongs then inl IntCastingNaNError
    else inr (List.map seconds dfSongs).
Proof.
  unfold duration_column. rewrite divide_column.
  assert (Ht : existsb is_text (List.map raw_duration_ms dfSongs)
               = existsb duration_is_text dfSongs).
  { induction dfSongs as [|x t IH]; simpl; [reflexivity|].
    rewrite IH. reflexivity. }
  rewrite Ht.
  destruct (existsb duration_is_text dfSongs) eqn:E; [reflexivity|].
  unfold ok at 1. cbv beta iota. rewrite !List.map_map.
  rewrite (astype_column
             (fun x => round_cell (quotient (raw_duration_ms x)))).
  rewrite existsb_false_iff in E.
  assert (Hall : forall t : list raw_record,
             (forall x, In x t -> duration_is_text x = false) ->
             forallb (fun x => is_number
                                 (round_cell (quotient (raw_duration_ms x)))) t
             = negb (existsb duration_not_finite t)).
  { assert (Hpt : forall x, duration_is_text x = false ->
               is_number (round_cell (quotient (raw_duration_ms x)))
               = negb (duration_not_finite x)).
    { intros x. unfold duration_is_text, duration_not_finite.
      destruct (raw_duration_ms x); simpl; intros H;
        reflexivity || discriminate. }
    induction t as [|x t IH]; intros Hx; simpl; [reflexivity|].
    rewrite IH by (intros y Hy; apply Hx; now right).
    rewrite Hpt by (apply Hx; now left).
    now rewrite negb_orb. }
  rewrite (Hall dfSongs E).
  destruct (existsb duration_not_finite dfSongs) eqn:Ef; [reflexivity|].
  simpl. unfold ok. f_equal. apply map_ext_in. intros x Hx.
  rewrite existsb_false_iff in Ef. specialize (Ef x Hx).
  unfold seconds. unfold duration_not_finite in Ef.
  specialize (E x Hx). unfold duration_is_text in E.
  destruct (raw_duration_ms x); simpl in *; try discriminate.
  now rewrite truncate_inject_Z.
Qed.

Lemma dropna_year_combine (dfSongs : list raw_record) (f : raw_record -> Z) :
  dropna_year (combine dfSongs (List.map f dfSongs))
  = List.map (fun x => (x, f x)) (List.filter has_year dfSongs).
Proof.
  unfold dropna_year. induction dfSongs as [|x t IH]; simpl; [reflexivity|].
  fold (has_year x). destruct (has_year x); simpl; now rewrite IH.
Qed.

(** A coerced year is a number, an infinity or missing. *)
Lemma coerced_year_cases (x : raw_record) :
  (exists y, coerced_year x = Num y) \/ (exists b, coerced_year x = Inf b)
  \/ coerced_year x = NaN.
Proof.
  unfold coerced_year. destruct (raw_year x) as [q|b| |s [|q|b]]; simpl; eauto.
Qed.

Lemma year_column_run (dfSongs : list raw_record) (f : raw_record -> Z) :
  year_column (List.map (fun x => (x, f x)) (List.filter has_year dfSongs))
  = if existsb year_is_infinite dfSongs then inl IntCastingNaNError
    else inr (List.map year_of (List.filter has_year dfSongs)).
Proof.
  unfold year_column. rewrite List.map_map. cbn [fst].
  rewrite (astype_column coerced_year).
  assert (Hall : forallb (fun x => is_number (coerced_year x))
                         (List.filter has_year dfSongs)
                 = negb (existsb year_is_infinite dfSongs)).
  { induction dfSongs as [|x t IH]; simpl; [reflexivity|].
    unfold has_year at 1, year_is_infinite at 1.
    destruct (coerced_year_cases x) as [(y & E)|[(b & E)|E]]; rewrite E;
      simpl; rewrite ?E; simpl; exact IH || (rewrite IH; reflexivity)
      || reflexivity. }
  rewrite Hall. destruct (existsb year_is_infinite dfSongs); [reflexivity|].
  simpl. unfold ok. f_equal. apply map_ext. intros x. unfold year_of.
  destruct (coerced_year x); reflexivity.
Qed.

Lemma zip_with_map_pairs {A B C D} (g : A -> B) (h : A -> C)
    (k : A * B -> C -> D) (l : list A) :
  zip_with k (List.map (fun x => (x, g x)) l) (List.map h l)
  = List.map (fun x => k (x, g x) (h x)) l.
Proof. induction l as [|x t IH]; simpl; [reflexivity|]. now rewrite IH. Qed.

(** The run of the cleaner, by cases on the frame. *)
Lemma clean_run (dfSongs : list raw_record) :
  load_and_clean_data dfSongs
  = if existsb duration_is_text dfSongs then inl DivisionTypeError
    else if existsb duration_not_finite dfSongs then inl IntCastingNaNError
    else if existsb year_is_infinite dfSongs then inl IntCastingNaNError
    else if has_str_accessor dfSongs
         then inr (List.map cleaned (List.filter has_year dfSongs))
         else inl StrAccessorAttributeError.
Proof.
  unfold load_and_clean_data. rewrite duration_column_run.
  destruct (existsb duration_is_text dfSongs); [reflexivity|].
  destruct (existsb duration_not_finite dfSongs); [reflexivity|].
  cbv zeta. rewrite dropna_year_combine, year_column_run.
  destruct (existsb year_is_infinite dfSongs); [reflexivity|].
  destruct (has_str_accessor dfSongs); [|reflexivity].
  rewrite zip_with_map_pairs. reflexivity.
Qed.

(** X10.  The outcome of [load_and_clean_data] in closed form.  A [str]
    in [duration_ms] fails the division; a missing or infinite
    [duration_ms] fails the cast to [int], and so does a year that reads
    as an infinity, which [dropna] does not remove; the checks are made
    in that order and also on rows whose year would have them dropped; a
    genre column without any string fails the [.str] accessor.
    Otherwise the function returns. *)
Theorem load_and_clean_data_run (dfSongs : list raw_record) :
  error_of (load_and_clean_data dfSongs)
  = if existsb duration_is_text dfSongs then Some DivisionTypeError
    else if existsb duration_not_finite dfSongs then Some IntCastingNaNError
    else if existsb year_is_infinite dfSongs then Some IntCastingNaNError
    else if has_str_accessor dfSongs then None
         else Some StrAccessorAttributeError.
Proof.
  rewrite clean_run.
  destruct (existsb duration_is_text dfSongs); [reflexivity|].
  destruct (existsb duration_not_finite dfSongs); [reflexivity|].
  destruct (existsb year_is_infinite dfSongs); [reflexivity|].
  destruct (has_str_accessor dfSongs); reflexivity.
Qed.

(** The outcomes on the example frames. *)
Example load_and_clean_data_outcomes :
  error_of (load_and_clean_data raw_frame) = None /\
  error_of (load_and_clean_data infinite_duration_frame)
  = Some IntCastingNaNError /\
  error_of (load_and_clean_data infinite_year_frame)
  = Some IntCastingNaNError /\
  List.map duration (match load_and_clean_data long_frame with
                     | inr df => df
                     | inl _ => []
                     end) = [int64_min] /\
  List.map year (match load_and_clean_data long_frame with
                 | inr df => df
                 | inl _ => []
                 end) = [int64_min].
Proof. repeat split; vm_compute; reflexivity. Qed.

Lemma load_and_clean_data_inv (dfSongs : list raw_record) (df : list row) :
  load_and_clean_data dfSongs = inr df ->
  existsb duration_is_text dfSongs = false /\
  existsb duration_not_finite dfSongs = false /\
  existsb year_is_infinite dfSongs = false /\
  has_str_accessor dfSongs = true /\
  df = List.map cleaned (List.filter has_year dfSongs).
Proof.
  rewrite clean_run.
  destruct (existsb duration_is_text dfSongs); [discriminate|].
  destruct (existsb duration_not_finite dfSongs); [discriminate|].
  destruct (existsb year_is_infinite dfSongs); [discriminate|].
  destruct (has_str_accessor dfSongs); [|discriminate].
  intros H. injection H as <-. auto.
Qed.

Lemma int64_bounds :
  int64_min = (-9223372036854775808)%Z /\ int64_max = 9223372036854775807%Z.
Proof. split; reflexivity. Qed.

Lemma in_int64_iff (z : Z) :
  in_int64 z = true
  <-> (-9223372036854775808 <= z <= 9223372036854775807)%Z.
Proof.
  unfold in_int64. rewrite andb_true_iff, !Z.leb_le.
  destruct int64_bounds as [-> ->]. reflexivity.
Qed.

(** The seconds of a duration in milliseconds. *)
Lemma duration_of_seconds (ms : Q) :
  duration_of ms (to_int64 (round_half_even (ms / (1000 # 1)))).
Proof.
  pose proof (round_half_even_bounds (ms / (1000 # 1))) as Hb.
  set (z := round_half_even (ms / (1000 # 1))) in *.
  assert (Hq : (ms / (1000 # 1) == ms * (1 # 1000))%Q) by (unfold Qdiv; reflexivity).
  rewrite Hq in Hb.
  unfold duration_of, to_int64. split.
  - intros Hms. apply Qabs_Qle_condition in Hms.
    change (inject_Z (2 ^ 53)) with (9007199254740992 # 1)%Q in Hms.
    assert (Hz : (-9007199254742 < z < 9007199254742)%Z).
    { split; rewrite Zlt_Qlt.
      - change (inject_Z (-9007199254742)) with (-9007199254742 # 1)%Q. lra.
      - change (inject_Z 9007199254742) with (9007199254742 # 1)%Q. lra. }
    assert (Hin : in_int64 z = true) by (apply in_int64_iff; lia).
    rewrite Hin. subst z. apply round_half_even_nearest.
  - intros Hms.
    change (inject_Z (2 ^ 63)) with (9223372036854775808 # 1)%Q in Hms.
    destruct (in_int64 z) eqn:Hin; [|reflexivity].
    apply in_int64_iff in Hin.
    destruct (Qlt_le_dec ms 0) as [Hneg|Hpos].
    + rewrite (proj2 (Qabs_bounds ms)) in Hms by lra.
      assert (Hz : (z <= -9223372036854775808)%Z).
      { assert (Hz' : (z < -9223372036854775807)%Z).
        { rewrite Zlt_Qlt.
          change (inject_Z (-9223372036854775807))
            with (-9223372036854775807 # 1)%Q. lra. }
        lia. }
      destruct int64_bounds as [-> _]. lia.
    + rewrite (proj1 (Qabs_bounds ms)) in Hms by lra.
      exfalso.
      assert (Hz' : (9223372036854775807 < z)%Z).
      { rewrite Zlt_Qlt.
        change (inject_Z 9223372036854775807)
          with (9223372036854775807 # 1)%Q. lra. }
      lia.
Qed.

Lemma year_from_cast (y : Q) : year_from y (to_int64 (truncate y)).
Proof.
  unfold year_from, to_int64.
  destruct (in_int64 (truncate y)); split; intros H;
    try reflexivity; discriminate.
Qed.

(** The cleaned form of a row that is kept. *)
Lemma cleaned_cleaned_from (x : raw_record) :
  duration_is_text x = false ->
  duration_not_finite x = false ->
  year_is_infinite x = false ->
  has_year x = true ->
  cleaned_from x (cleaned x).
Proof.
  intros Ht Hf Hi Hy. unfold cleaned_from, cleaned, clean_record.
  cbn [artist song explicit popularity danceability speechiness genres
       duration year].
  repeat (split; [reflexivity|]). split.
  - unfold seconds, duration_is_text, duration_not_finite in *.
    destruct (raw_duration_ms x) as [ms|b| |s r]; try discriminate.
    exists ms. split; [reflexivity|apply duration_of_seconds].
  - unfold year_of, year_is_infinite, has_year in *.
    destruct (coerced_year_cases x) as [(y & E)|[(b & E)|E]];
      rewrite E in *; try discriminate.
    exists y. split; [reflexivity|apply year_from_cast].
Qed.

(** X11.  The frame [load_and_clean_data] returns holds one row per row
    of the frame as read whose year, coerced, is not missing, in the
    order of the rows.  The row has the text cells, the flag and the
    three numeric cells of its row unchanged and the genre list of the
    row's genre cell.  Its year is the coerced year cut to an integer,
    and the least [int64] when that integer is beyond the range of
    [int64].  Its duration, for a [duration_ms] of at most 2^53 in
    magnitude, is an integer nearest to a thousandth of [duration_ms],
    the even one when two are equally near; from 2^63 seconds on it is
    the least [int64]. *)
Theorem load_and_clean_data_rows (dfSongs : list raw_record)
    (df : list row) :
  load_and_clean_data dfSongs = inr df ->
  Forall2 cleaned_from (List.filter has_year dfSongs) df.
Proof.
  intros H. apply load_and_clean_data_inv in H.
  destruct H as (Ht & Hf & Hi & _ & ->).
  rewrite existsb_false_iff in Ht, Hf, Hi.
  assert (Hall : forall x, In x (List.filter has_year dfSongs) ->
                           cleaned_from x (cleaned x)).
  { intros x Hx. apply filter_In in Hx. destruct Hx as [Hx Hy].
    apply cleaned_cleaned_from; auto. }
  clear Ht Hf Hi. induction (List.filter has_year dfSongs) as [|x t IH];
    simpl; constructor.
  - apply Hall. now left.
  - apply IH. intros y Hy. apply Hall. now right.
Qed.

Lemma load_and_clean_data_rows_witness :
  Forall2 cleaned_from (List.filter has_year raw_frame)
          (List.map cleaned (List.filter has_year raw_frame)).
Proof.
  apply (load_and_clean_data_rows raw_frame). reflexivity.
Defined.

(** ** The three stages in turn *)

Lemma retained_cleaned (x : raw_record) :
  has_year x && retained (cleaned x) = selected x.
Proof.
  unfold selected, retained, cleaned, clean_record. simpl.
  now rewrite !andb_assoc.
Qed.

(** The rows that pass the filter among the cleaned rows. *)
Lemma filtered_cleaned (dfSongs : list raw_record) :
  List.filter retained (List.map cleaned (List.filter has_year dfSongs))
  = List.map cleaned (List.filter selected dfSongs).
Proof.
  induction dfSongs as [|x t IH]; simpl; [reflexivity|].
  rewrite <- (retained_cleaned x).
  destruct (has_year x); simpl; [|exact IH].
  destruct (retained (cleaned x)); simpl; now rewrite IH.
Qed.

Lemma kept_records (dfSongs : list raw_record) :
  List.map coerced
    (List.filter retained (List.map cleaned (List.filter has_year dfSongs)))
  = List.map kept_record (List.filter selected dfSongs).
Proof. rewrite filtered_cleaned, List.map_map. reflexivity. Qed.

Lemma cleaned_speechiness (dfSongs : list raw_record) :
  Forall (fun r : row => is_text (speechiness r) = false)
         (List.map cleaned (List.filter has_year dfSongs))
  <-> Forall (fun x => has_year x = true -> is_text (raw_speechiness x) = false)
             dfSongs.
Proof.
  rewrite !List.Forall_forall. split.
  - intros H x Hx Hy. apply (H (cleaned x)).
    apply in_map, filter_In. auto.
  - intros H r Hr. apply in_map_iff in Hr. destruct Hr as (x & <- & Hx).
    apply filter_In in Hx. destruct Hx as [Hx Hy]. exact (H x Hx Hy).
Qed.

(** The cells of a selected row. *)
Lemma selected_cells (x : raw_record) :
  selected x = true ->
  has_year x = true /\
  exceeds (50 # 1) (Series.to_numeric (raw_popularity x)) /\
  exceeds (20 # 100) (Series.to_numeric (raw_danceability x)) /\
  exists s, raw_speechiness x = Num s /\ (33 # 100 <= s)%Q /\ (s <= 66 # 100)%Q.
Proof.
  unfold selected, exceeds. rewrite !andb_true_iff, !above_iff, within_iff.
  tauto.
Qed.

(** A row of records stands for the kept record of a selected row. *)
Lemma kept_record_complete (x : raw_record) (r : record) :
  kept_record x = complete r ->
  raw_artist x = Some (artist r) /\ raw_song x = Some (song r) /\
  raw_explicit x = Some (explicit r) /\
  duration r = seconds x /\ year r = year_of x /\
  popularity r = Series.to_numeric (raw_popularity x) /\
  danceability r = Series.to_numeric (raw_danceability x) /\
  speechiness r = raw_speechiness x /\
  genres r = clean_genres (genre_text (raw_genre x)).
Proof.
  unfold kept_record, coerced, cleaned, clean_record, complete,
    set_danceability, set_popularity. simpl.
  intros H. injection H. intros. repeat split; congruence.
Qed.

Lemma map_eq_Forall2 {A B C} (f : A -> C) (g : B -> C) (l : list A)
    (l' : list B) :
  List.map f l = List.map g l' -> Forall2 (fun x y => f x = g y) l l'.
Proof.
  revert l'. induction l as [|x t IH]; intros [|y t'] H; try discriminate;
    constructor.
  - simpl in H. congruence.
  - apply IH. simpl in H. congruence.
Qed.

Lemma with_ids_Forall2 {A B C} (R : A -> B -> Prop) (P : A -> C -> Prop)
    (mk : nat -> B -> C) (l : list A) (l' : list B) :
  Forall2 R l l' ->
  (forall i x y, In y l' -> R x y -> P x (mk i y)) ->
  forall n, Forall2 P l (with_ids mk n l').
Proof.
  induction 1 as [|x y t t' Hxy _ IH]; intros H n; simpl; constructor.
  - apply H; [now left|exact Hxy].
  - apply IH. intros i x' y' Hy'. apply H. now right.
Qed.

Lemma artist_row_stored (iter : set_order) (df : list record) (r : record) :
  In r df ->
  In (mkArtist (artist_id df (artist r)) (artist r))
     (Artist (loaded_store iter df)).
Proof.
  intros Hr. cbn [loaded_store Artist]. apply with_ids_In.
  exists (index_of (unique (List.map artist df)) (artist r)), (artist r).
  split; [|reflexivity].
  apply index_of_nth, unique_In, in_map. exact Hr.
Qed.

(** What a run of [main] that returns has gone through. *)
Lemma main_inv (iter : set_order) (dfSongs : list raw_record) (db : Database) :
  set_iteration iter ->
  Preprocessing_main iter dfSongs = inr db ->
  existsb duration_is_text dfSongs = false /\
  existsb duration_not_finite dfSongs = false /\
  existsb year_is_infinite dfSongs = false /\
  has_str_accessor dfSongs = true /\
  Forall (fun x => has_year x = true -> is_text (raw_speechiness x) = false)
         dfSongs /\
  exists df0 : list record,
    List.map kept_record (List.filter selected dfSongs) = frame df0 /\
    loadable df0 /\ db = loaded_store iter df0.
Proof.
  intros Hiter H. unfold Preprocessing_main in H.
  destruct (load_and_clean_data dfSongs) as [e|df] eqn:E0; [discriminate|].
  destruct (filter_data df) as [e|dfFiltered] eqn:E1; [discriminate|].
  destruct (create_and_populate_database iter dfFiltered) as [e|db'] eqn:E2;
    [discriminate|].
  injection H as ->.
  apply load_and_clean_data_inv in E0.
  destruct E0 as (Ht & Hf & Hi & Hs & ->).
  apply filter_data_ok_inv in E1. destruct E1 as (Htext & _ & ->).
  rewrite kept_records in E2. apply (load_inv iter Hiter) in E2.
  apply cleaned_speechiness in Htext. auto 10.
Qed.

(** The run of [main] on a frame the three stages accept. *)
Lemma main_run (iter : set_order) (dfSongs : list raw_record)
    (df0 : list record) :
  set_iteration iter ->
  existsb duration_is_text dfSongs = false ->
  existsb duration_not_finite dfSongs = false ->
  existsb year_is_infinite dfSongs = false ->
  has_str_accessor dfSongs = true ->
  Forall (fun x => has_year x = true -> is_text (raw_speechiness x) = false)
         dfSongs ->
  List.map kept_record (List.filter selected dfSongs) = frame df0 ->
  loadable df0 ->
  Preprocessing_main iter dfSongs = inr (loaded_store iter df0).
Proof.
  intros Hiter Ht Hf Hi Hs Htext Hk Hl. unfold Preprocessing_main.
  rewrite clean_run, Ht, Hf, Hi, Hs.
  apply cleaned_speechiness in Htext.
  rewrite (filter_data_ok _ Htext).
  - unfold ok at 1. cbv beta iota.
    rewrite kept_records, Hk. rewrite (load_run iter Hiter df0 Hl).
    reflexivity.
  - rewrite filtered_cleaned.
    assert (E : List.map artist (List.map cleaned (List.filter selected dfSongs))
                = List.map artist (frame df0)).
    { rewrite <- Hk, !List.map_map. reflexivity. }
    rewrite E. apply sortable_frame.
Qed.

(** X12.  When [main] returns on a frame without an infinite popularity
    or danceability, the Song table holds exactly the rows of the frame
    as read whose year, coerced, is not missing and which pass the three
    predicates of the filter, once each and in the order of the frame.
    The song has the title and the flag of its row; the popularity and
    the danceability are the numbers the row holds or spells, the
    speechiness the number it holds, and they lie within the thresholds;
    the year and the duration are those of the cleaned row; the artist
    id is the id of the Artist row that carries the row's artist name.
    This holds in whatever order the set of the genres is visited. *)
Theorem main_stores_selected_rows (iter : set_order)
    (dfSongs : list raw_record) (db : Database) :
  set_iteration iter ->
  Forall finite_cells dfSongs ->
  Preprocessing_main iter dfSongs = inr db ->
  Forall2 (stored_as db) (List.filter selected dfSongs) (Song db).
Proof.
  intros Hiter _ H. apply (main_inv iter _ _ Hiter) in H.
  destruct H as (Ht & Hf & Hi & _ & _ & df0 & Hk & [Hnum _] & ->).
  rewrite existsb_false_iff in Ht, Hf, Hi.
  cbn [loaded_store Song].
  apply (with_ids_Forall2 (fun x r => kept_record x = complete r
                                      /\ In x dfSongs /\ selected x = true)).
  - assert (Hin : forall x, In x (List.filter selected dfSongs) ->
                            In x dfSongs /\ selected x = true)
      by (intros x Hx; now apply filter_In).
    apply map_eq_Forall2 in Hk. clear -Hk Hin.
    induction Hk as [|x r t t' Hxr _ IH]; constructor.
    + split; [exact Hxr|]. apply Hin. now left.
    + apply IH. intros y Hy. apply Hin. now right.
  - intros i x r Hr (Hxr & Hx & Hsel).
    apply kept_record_complete in Hxr.
    destruct Hxr as (Ea & Es & Ee & Ed & Ey & Ep & Edn & Esp & _).
    destruct (selected_cells x Hsel) as (Hy & _ & _ & s & Hs & Hs1 & Hs2).
    rewrite List.Forall_forall in Hnum.
    destruct (Hnum r Hr) as (p & d & s' & Hp & Hd & Hs').
    assert (Hsel' := Hsel). unfold selected in Hsel'.
    rewrite !andb_true_iff in Hsel'.
    destruct Hsel' as [[[_ Hpa] Hda] _].
    rewrite <- Ep, Hp in Hpa. rewrite <- Edn, Hd in Hda.
    simpl in Hpa, Hda. apply Qltb_lt in Hpa, Hda.
    assert (s' = s) by congruence. subst s'.
    pose proof (cleaned_cleaned_from x (Ht x Hx) (Hf x Hx) (Hi x Hx) Hy)
      as (_ & _ & _ & _ & _ & _ & _ & Hdur & Hyr).
    unfold stored_as, song_of_record, song_row. cbn [s_Title s_Duration
      s_Explicit s_Year s_Popularity s_Danceability s_Speechiness s_ArtistID].
    rewrite Hp, Hd, Hs'. cbn [cell_number].
    split; [exact Es|]. split; [exact Ee|].
    split; [rewrite Ed; exact Hdur|]. split; [rewrite Ey; exact Hyr|].
    split; [congruence|]. split; [congruence|]. split; [congruence|].
    split; [unfold within_thresholds; auto|].
    exists (artist r). split; [exact Ea|].
    now apply artist_row_stored.
Qed.

Lemma main_stores_selected_rows_witness :
  Preprocessing_main alphabetical raw_frame = inr raw_frame_store /\
  Forall2 (stored_as raw_frame_store) (List.filter selected raw_frame)
          (Song raw_frame_store).
Proof.
  split; [reflexivity|].
  apply (main_stores_selected_rows alphabetical raw_frame raw_frame_store).
  - apply alphabetical_visits.
  - repeat constructor.
  - reflexivity.
Defined.

(** A selected row of a frame without an infinite popularity or
    danceability holds numbers in its three cells once it is coerced. *)
Lemma selected_numeric (x : raw_record) :
  finite_cells x -> selected x = true -> numeric (kept_record x).
Proof.
  intros [Hp Hd] Hsel. unfold kept_record. apply retained_numeric.
  - rewrite <- (retained_cleaned x) in Hsel.
    apply andb_true_iff in Hsel. apply Hsel.
  - exact Hp.
  - exact Hd.
Qed.

Lemma insertable_complete (x : raw_record) :
  insertable x -> exists r : record, kept_record x = complete r.
Proof.
  intros (Ha & Hs & He & _). apply complete_row.
  unfold missing_text, kept_record, coerced, cleaned, clean_record. simpl.
  tauto.
Qed.

(** X13.  On a frame without an infinite popularity or danceability,
    and in whatever order the set of the genres is visited, [main]
    returns if and only if no [duration_ms] cell is a [str], missing or
    infinite, no year reads as an infinity, the genre column holds a
    string (or the frame is empty), no row that is kept for its year has
    a [str] in the speechiness column, and every row that passes the
    filter has its artist, its title and its flag and names no genre
    twice in its genre cell. *)
Theorem main_returns_iff (iter : set_order) (dfSongs : list raw_record) :
  set_iteration iter ->
  Forall finite_cells dfSongs ->
  ((exists db, Preprocessing_main iter dfSongs = inr db) <->
   existsb duration_is_text dfSongs = false /\
   existsb duration_not_finite dfSongs = false /\
   existsb year_is_infinite dfSongs = false /\
   has_str_accessor dfSongs = true /\
   Forall (fun x => has_year x = true -> is_text (raw_speechiness x) = false)
          dfSongs /\
   Forall (fun x => selected x = true -> insertable x) dfSongs).
Proof.
  intros Hiter Hfin. split.
  - intros [db H]. apply (main_inv iter _ _ Hiter) in H.
    destruct H as (Ht & Hf & Hi & Hs & Htext & df0 & Hk & [_ Hnd] & _).
    repeat (split; [assumption|]).
    apply List.Forall_forall. intros x Hx Hsel.
    assert (Hin : In (kept_record x) (frame df0)).
    { rewrite <- Hk. apply in_map, filter_In. auto. }
    apply in_map_iff in Hin. destruct Hin as (r & Er & Hr).
    symmetry in Er. apply kept_record_complete in Er.
    destruct Er as (Ea & Es & Ee & _ & _ & _ & _ & _ & Eg).
    rewrite List.Forall_forall in Hnd. specialize (Hnd r Hr).
    unfold insertable. rewrite Ea, Es, Ee, <- Eg.
    repeat split; try discriminate. exact Hnd.
  - intros (Ht & Hf & Hi & Hs & Htext & Hins).
    rewrite List.Forall_forall in Hins, Hfin.
    destruct (complete_frame
                (List.map kept_record (List.filter selected dfSongs)))
      as (df0 & Hk).
    { apply List.Forall_forall. intros r Hr. apply in_map_iff in Hr.
      destruct Hr as (x & <- & Hx). apply filter_In in Hx.
      destruct (insertable_complete x (Hins x (proj1 Hx) (proj2 Hx)))
        as (r0 & ->).
      apply complete_present. }
    exists (loaded_store iter df0).
    apply main_run; trivial. split.
    + apply List.Forall_forall. intros r Hr.
      assert (Hin : In (complete r) (frame df0)) by now apply in_map.
      rewrite <- Hk in Hin. apply in_map_iff in Hin.
      destruct Hin as (x & Ex & Hx). apply filter_In in Hx.
      pose proof (selected_numeric x (Hfin x (proj1 Hx)) (proj2 Hx)) as Hn.
      rewrite Ex in Hn. exact Hn.
    + apply List.Forall_forall. intros r Hr.
      assert (Hin : In (complete r) (frame df0)) by now apply in_map.
      rewrite <- Hk in Hin. apply in_map_iff in Hin.
      destruct Hin as (x & Ex & Hx). apply filter_In in Hx.
      destruct (Hins x (proj1 Hx) (proj2 Hx)) as (_ & _ & _ & Hnd).
      apply kept_record_complete in Ex.
      destruct Ex as (_ & _ & _ & _ & _ & _ & _ & _ & ->). exact Hnd.
Qed.

Lemma main_returns_iff_witness :
  (exists db, Preprocessing_main alphabetical raw_frame = inr db) <->
  existsb duration_is_text raw_frame = false /\
  existsb duration_not_finite raw_frame = false /\
  existsb year_is_infinite raw_frame = false /\
  has_str_accessor raw_frame = true /\
  Forall (fun x => has_year x = true -> is_text (raw_speechiness x) = false)
         raw_frame /\
  Forall (fun x => selected x = true -> insertable x) raw_frame.
Proof.
  apply (main_returns_iff alphabetical raw_frame).
  - apply alphabetical_visits.
  - repeat constructor.
Defined.

(** A frame whose speechiness column holds text makes [main] raise a
    TypeError although the only row with such a field that is no number
    is dropped for its year. *)
Example main_text_column :
  forall iter,
    Preprocessing_main iter text_column_frame = inl (StageError TypeError).
Proof. intros iter. reflexivity. Qed.

(** ** Genre statistics: the shape of the frame *)

Lemma round_percent (x : Q) :
  (0 <= x)%Q -> (x <= 100 # 1)%Q ->
  (0 <= SQL.round x 1)%Q /\ (SQL.round x 1 <= 100 # 1)%Q.
Proof.
  intros H0 H100. unfold SQL.round.
  assert (Hb : Qle_bool 0 x = true) by now apply Qle_bool_iff.
  rewrite Hb. change (inject_Z (10 ^ Z.of_nat 1)) with (10 # 1)%Q.
  rewrite Qred_correct.
  assert (Hlo : (0 <= Qfloor (x * (10 # 1) + (1 # 2)))%Z).
  { change 0%Z with (Qfloor 0). apply Qfloor_resp_le. lra. }
  assert (Hhi : (Qfloor (x * (10 # 1) + (1 # 2)) <= 1000)%Z).
  { change 1000%Z with (Qfloor (2001 # 2)). apply Qfloor_resp_le. lra. }
  rewrite Zle_Qle in Hlo, Hhi.
  change (inject_Z 0) with 0%Q in Hlo.
  change (inject_Z 1000) with (1000 # 1)%Q in Hhi.
  set (f := inject_Z (Qfloor (x * (10 # 1) + (1 # 2)))) in *. clearbody f.
  unfold Qdiv. change (/ (10 # 1))%Q with (1 # 10)%Q.
  split; lra.
Qed.

Lemma share_bounds (c t : nat) :
  0 < c -> c <= t ->
  (0 <= inject_Z (Z.of_nat c) * (100 # 1) / inject_Z (Z.of_nat t))%Q /\
  (inject_Z (Z.of_nat c) * (100 # 1) / inject_Z (Z.of_nat t) <= 100 # 1)%Q.
Proof.
  intros Hc Hct.
  assert (Ht : (0 < inject_Z (Z.of_nat t))%Q).
  { change 0%Q with (inject_Z 0). rewrite <- Zlt_Qlt. lia. }
  assert (Hc' : (0 <= inject_Z (Z.of_nat c))%Q).
  { change 0%Q with (inject_Z 0). rewrite <- Zle_Qle. lia. }
  assert (Hle : (inject_Z (Z.of_nat c) <= inject_Z (Z.of_nat t))%Q).
  { rewrite <- Zle_Qle. lia. }
  split.
  - apply Qle_shift_div_l; [exact Ht|]. lra.
  - apply Qle_shift_div_r; [exact Ht|]. lra.
Qed.

Lemma filter_length_le {A} (p : A -> bool) (l : list A) :
  length (List.filter p l) <= length l.
Proof.
  induction l as [|x t IH]; simpl; [lia|]. destruct (p x); simpl; lia.
Qed.

Lemma song_count_desc_total (x y : GenreStat) :
  song_count_desc x y = true \/ song_count_desc y x = true.
Proof. unfold song_count_desc. rewrite !Nat.leb_le. lia. Qed.

Lemma song_count_desc_trans (x y z : GenreStat) :
  song_count_desc x y = true -> song_count_desc y z = true ->
  song_count_desc x z = true.
Proof. unfold song_count_desc. rewrite !Nat.leb_le. lia. Qed.

Lemma genre_query_genres (year : Z) (db : Database) :
  Permutation (List.map gs_Genre (genre_query year db))
              (distinct String.eqb (List.map snd (year_links year db))).
Proof.
  unfold genre_query. fold (year_links year db).
  rewrite order_by_perm, List.map_map. simpl.
  rewrite <- (group_by_keys String.eqb snd). reflexivity.
Qed.

Lemma genre_links_nonempty (year : Z) (db : Database) (g : string) :
  In g (List.map snd (year_links year db)) <-> genre_links year g db <> [].
Proof.
  unfold genre_links. split.
  - intros H Hnil. apply in_map_iff in H. destruct H as (x & <- & Hx).
    assert (Hin : In x (List.filter (fun y => String.eqb (snd x) (snd y))
                                    (year_links year db))).
    { apply filter_In. split; [exact Hx|apply String.eqb_refl]. }
    rewrite Hnil in Hin. destruct Hin.
  - intros H. destruct (List.filter _ _) as [|x t] eqn:E; [congruence|].
    assert (Hin : In x (x :: t)) by now left. rewrite <- E in Hin.
    apply filter_In in Hin. destruct Hin as [Hx Hg].
    apply String.eqb_eq in Hg. subst. now apply in_map.
Qed.


Lemma get_genre_statistics_some (year min_songs : Z) (db : Database)
    (df : list GenreStat) (printed : notice) :
  get_genre_statistics year db min_songs = (Some df, printed) ->
  validate_year year = true /\ df = genre_query year db /\ df <> [].
Proof.
  unfold get_genre_statistics.
  destruct (validate_year year); simpl; [|discriminate].
  destruct (_ =? 0)%nat; [discriminate|].
  destruct (genre_query year db) as [|r t] eqn:E; [discriminate|].
  intros H. injection H as <- _. repeat split. discriminate.
Qed.

(** X14.  The frame [get_genre_statistics] returns is never empty, has
    one row per genre that a song of the year is linked to and no genre
    twice, is sorted by song count in descending order, and every row
    has a song count of at least 1 and a percentage from 0 to 100. *)
Theorem genre_statistics_frame (year min_songs : Z) (db : Database)
    (df : list GenreStat) (printed : notice) :
  get_genre_statistics year db min_songs = (Some df, printed) ->
  df <> [] /\
  List.NoDup (List.map gs_Genre df) /\
  (forall g, In g (List.map gs_Genre df) <-> genre_links year g db <> []) /\
  StronglySorted (fun x y => gs_SongCount y <= gs_SongCount x) df /\
  Forall (fun r => 1 <= gs_SongCount r /\
                   (0 <= gs_Percentage r)%Q /\
                   (gs_Percentage r <= 100 # 1)%Q) df.
Proof.
  intros H. apply get_genre_statistics_some in H. destruct H as (_ & -> & Hne).
  split; [exact Hne|]. split; [|split; [|split]].
  - eapply Permutation_NoDup; [symmetry; apply genre_query_genres|].
    apply distinct_NoDup, String.eqb_eq.
  - intros g. rewrite <- genre_links_nonempty. split; intros Hg.
    + apply (proj1 (distinct_In String.eqb String.eqb_eq _ _)).
      eapply Permutation_in; [apply genre_query_genres|exact Hg].
    + apply (proj2 (distinct_In String.eqb String.eqb_eq _ _)) in Hg.
      eapply Permutation_in; [symmetry; apply genre_query_genres|exact Hg].
  - unfold genre_query.
    eapply StronglySorted_weaken;
      [|apply order_by_sorted;
        [apply song_count_desc_total|apply song_count_desc_trans]].
    intros x y Hxy. now apply Nat.leb_le.
  - apply List.Forall_forall. intros r Hr.
    destruct (genre_query_rows year db r Hr) as (Hc & Hpos & Hp).
    split; [lia|]. rewrite Hp. unfold share_of_links.
    destruct (share_bounds (gs_SongCount r) (length (year_links year db)))
      as [H0 H100]; [exact Hpos| |].
    + rewrite Hc. apply filter_length_le.
    + destruct (round_percent _ H0 H100). split; assumption.
Qed.

Lemma genre_statistics_frame_witness :
  exists df,
    get_genre_statistics 2010 two_genre_db 10
    = (Some df, LimitedData 1 []) /\
    df <> [] /\
    List.NoDup (List.map gs_Genre df) /\
    (forall g, In g (List.map gs_Genre df) <->
               genre_links 2010 g two_genre_db <> []) /\
    StronglySorted (fun x y => gs_SongCount y <= gs_SongCount x) df /\
    Forall (fun r => 1 <= gs_SongCount r /\
                     (0 <= gs_Percentage r)%Q /\
                     (gs_Percentage r <= 100 # 1)%Q) df.
Proof.
  exists (genre_query 2010 two_genre_db). split; [reflexivity|].
  apply (genre_statistics_frame 2010 10 two_genre_db _ (LimitedData 1 [])).
  reflexivity.
Defined.






(** ** The diagnostic listing of the years *)

Lemma insert_sorted_map {A B} (f : A -> B) (le : B -> B -> bool) (x : A)
    (l : list A) :
  List.map f (SQL.insert_sorted (fun a b => le (f a) (f b)) x l)
  = SQL.insert_sorted le (f x) (List.map f l).
Proof.
  induction l as [|y t IH]; simpl; [reflexivity|].
  destruct (le (f x) (f y)); simpl; [reflexivity|]. now rewrite IH.
Qed.

Lemma order_by_map {A B} (f : A -> B) (le : B -> B -> bool) (l : list A) :
  List.map f (SQL.order_by (fun a b => le (f a) (f b)) l)
  = SQL.order_by le (List.map f l).
Proof.
  induction l as [|x t IH]; simpl; [reflexivity|].
  now rewrite insert_sorted_map, IH.
Qed.

Lemma sorted_NoDup_strict (l : list Z) :
  StronglySorted Z.le l -> List.NoDup l -> StronglySorted Z.lt l.
Proof.
  induction 1 as [|x t Hs IH Hall]; intros Hnd; constructor.
  - apply IH. now inversion Hnd.
  - inversion Hnd as [|? ? Hx _]; subst.
    rewrite List.Forall_forall in Hall |- *. intros y Hy.
    specialize (Hall y Hy). assert (x <> y) by congruence. lia.
Qed.

Lemma count_sum_perm (l l' : list (Z * nat)) :
  Permutation l l' ->
  fold_right Nat.add 0 (List.map snd l) = fold_right Nat.add 0 (List.map snd l').
Proof.
  induction 1 as [|x l l' _ IH|x y l|l l' l'' _ IH1 _ IH2]; simpl; lia.
Qed.

(** X17.  [check_database_years] lists every year that has a song once,
    in strictly ascending order; the second listing has the same years in
    the same order, each with the number of its songs, which is at least
    1, and the counts add up to the number of songs in the store. *)
Theorem check_database_years_listing (db : Database) :
  let (listed, counts) := check_database_years db in
  StronglySorted Z.lt listed /\
  (forall y, In y listed <-> exists s, In s (Song db) /\ s_Year s = y) /\
  List.map fst counts = listed /\
  (forall y c, In (y, c) counts -> c = songs_in_year y db /\ 1 <= c) /\
  fold_right Nat.add 0 (List.map snd counts) = length (Song db).
Proof.
  unfold check_database_years.
  set (ys := distinct Z.eqb (List.map s_Year (Song db))).
  assert (Hnd : List.NoDup ys) by apply distinct_NoDup, Z.eqb_eq.
  split; [|split; [|split; [|split]]].
  - apply sorted_NoDup_strict.
    + eapply StronglySorted_weaken;
        [|apply (order_by_sorted Z.leb)].
      * intros x y. apply Z.leb_le.
      * intros x y. rewrite !Z.leb_le. lia.
      * intros x y z. rewrite !Z.leb_le. lia.
    + eapply Permutation_NoDup; [symmetry; apply order_by_perm|exact Hnd].
  - intros y. rewrite order_by_In. unfold ys.
    rewrite (distinct_In Z.eqb Z.eqb_eq), in_map_iff.
    split; intros (s & H1 & H2); exists s; auto.
  - rewrite (order_by_map fst Z.leb). unfold year_counts.
    rewrite List.map_map. simpl.
    change (List.map (fun x : Z * list SongRow => fst x)
                     (SQL.group_by Z.eqb s_Year (Song db)))
      with (List.map fst (SQL.group_by Z.eqb s_Year (Song db))).
    now rewrite (group_by_keys Z.eqb s_Year).
  - intros y c Hin. apply order_by_In in Hin. apply year_counts_In in Hin.
    destruct Hin as [-> Hy]. split; [reflexivity|].
    apply songs_in_year_pos in Hy. lia.
  - rewrite (count_sum_perm _ (year_counts db)) by apply order_by_perm.
    unfold year_counts. rewrite List.map_map. simpl.
    apply (group_by_total Z.eqb s_Year Z.eqb_eq).
Qed.


(** ** Artist popularity: the rows of the frame *)

Lemma flat_map_single {A B} (f : A -> list B) (g : A -> B) (l : list A) :
  (forall x, In x l -> f x = [g x]) -> flat_map f l = List.map g l.
Proof.
  induction l as [|x t IH]; intros H; simpl; [reflexivity|].
  rewrite (H x (or_introl eq_refl)), IH; [reflexivity|].
  intros y Hy. apply H. now right.
Qed.

Lemma merged_frame (name : string) (db : Database) :
  flat_map (merge_row (query_overall db)) (query_artist name db)
  = List.map (merged_row db) (query_artist name db).
Proof.
  apply flat_map_single. intros [[g p] n] Hl.
  apply query_artist_In in Hl. destruct Hl as [_ Hg].
  unfold merge_row. rewrite (query_overall_lookup db g Hg). reflexivity.
Qed.

Lemma query_artist_keys (name : string) (db : Database) :
  List.map (fun l => fst (fst l)) (query_artist name db)
  = distinct String.eqb (List.map snd (artist_links name db)).
Proof.
  unfold query_artist. fold (artist_links name db).
  rewrite List.map_map. simpl.
  apply (group_by_keys String.eqb snd).
Qed.

Lemma query_artist_counts (name : string) (db : Database) (g : string)
    (p : Q) (n : nat) :
  In (g, p, n) (query_artist name db) ->
  n = length (artist_genre_songs name g db) /\ 1 <= n.
Proof.
  unfold query_artist. fold (artist_links name db). rewrite in_map_iff.
  intros ([g' rs] & Heq & Hin). simpl in Heq. injection Heq as -> _ <-.
  pose proof (group_by_nonempty String.eqb snd String.eqb_eq _ _ _ Hin) as Hne.
  apply (group_by_In String.eqb snd String.eqb_eq) in Hin.
  destruct Hin as [_ ->]. split; [reflexivity|].
  destruct (List.filter _ (artist_links name db)); [congruence|simpl; lia].
Qed.

Lemma artist_genre_songs_nonempty (name g : string) (db : Database) :
  In g (List.map snd (artist_links name db)) <->
  artist_genre_songs name g db <> [].
Proof.
  unfold artist_genre_songs. fold (artist_links name db). split.
  - intros H Hnil. apply in_map_iff in H. destruct H as (x & <- & Hx).
    assert (Hin : In x (List.filter (fun y => String.eqb (snd x) (snd y))
                                    (artist_links name db))).
    { apply filter_In. split; [exact Hx|apply String.eqb_refl]. }
    rewrite Hnil in Hin. destruct Hin.
  - intros H. destruct (List.filter _ _) as [|x t] eqn:E; [congruence|].
    assert (Hin : In x (x :: t)) by now left. rewrite <- E in Hin.
    apply filter_In in Hin. destruct Hin as [Hx Hg].
    apply String.eqb_eq in Hg. subst. now apply in_map.
Qed.

Lemma get_artist_popularity_some (name : string) (db : Database)
    (df : list PopularityRow) (printed : list string) :
  get_artist_popularity name db = (Some df, printed) ->
  printed = [] /\
  Permutation df (List.map (merged_row db) (query_artist name db)).
Proof.
  unfold get_artist_popularity.
  destruct (negb (validate_artist name db)).
  { destruct (get_similar_artists name db 3); discriminate. }
  intros Heq. injection Heq as <- <-. split; [reflexivity|].
  rewrite merged_frame. apply order_by_perm.
Qed.

(** X18.  The frame [get_artist_popularity] returns for a stored artist
    has exactly one row per genre that a song of the artist is linked
    to; the row's song count is the number of the artist's songs linked
    to the genre, at least 1, and its total is the number of all songs
    linked to it.  Nothing is suggested. *)
Theorem artist_popularity_genres (name : string) (db : Database)
    (df : list PopularityRow) (printed : list string) :
  get_artist_popularity name db = (Some df, printed) ->
  printed = [] /\
  List.NoDup (List.map pr_Genre df) /\
  (forall g, In g (List.map pr_Genre df) <->
             artist_genre_songs name g db <> []) /\
  Forall (fun r =>
            pr_SongCount r = length (artist_genre_songs name (pr_Genre r) db) /\
            1 <= pr_SongCount r /\
            pr_TotalSongs r = Some (length (genre_songs (pr_Genre r) db))) df.
Proof.
  intros H. apply get_artist_popularity_some in H. destruct H as [-> Hp].
  assert (Hg : Permutation (List.map pr_Genre df)
                 (distinct String.eqb (List.map snd (artist_links name db)))).
  { rewrite Hp, List.map_map, <- query_artist_keys.
    erewrite map_ext; [reflexivity|]. now intros [[g p] n]. }
  split; [reflexivity|]. split; [|split].
  - eapply Permutation_NoDup; [symmetry; exact Hg|].
    apply distinct_NoDup, String.eqb_eq.
  - intros g. rewrite <- artist_genre_songs_nonempty. split; intros Hin.
    + apply (proj1 (distinct_In String.eqb String.eqb_eq _ _)).
      eapply Permutation_in; [exact Hg|exact Hin].
    + apply (proj2 (distinct_In String.eqb String.eqb_eq _ _)) in Hin.
      eapply Permutation_in; [symmetry; exact Hg|exact Hin].
  - apply List.Forall_forall. intros r Hr.
    eapply Permutation_in in Hr; [|exact Hp].
    apply in_map_iff in Hr. destruct Hr as ([[g p] n] & <- & Hl).
    apply query_artist_counts in Hl. simpl. tauto.
Qed.

Lemma artist_popularity_genres_witness :
  get_artist_popularity "A" pop_db = (Some [pop_row], []) /\
  List.NoDup (List.map pr_Genre [pop_row]) /\
  (forall g, In g (List.map pr_Genre [pop_row]) <->
             artist_genre_songs "A" g pop_db <> []) /\
  Forall (fun r =>
            pr_SongCount r
            = length (artist_genre_songs "A" (pr_Genre r) pop_db) /\
            1 <= pr_SongCount r /\
            pr_TotalSongs r
            = Some (length (genre_songs (pr_Genre r) pop_db))) [pop_row].
Proof.
  split; [reflexivity|].
  apply (artist_popularity_genres "A" pop_db [pop_row] []). reflexivity.
Defined.


(** ** Unknown artists and the menu entry *)

Lemma validate_artist_stored (name : string) (db : Database) :
  validate_artist name db = true <-> In name (List.map a_Name (Artist db)).
Proof.
  unfold validate_artist. rewrite negb_true_iff, Nat.eqb_neq. split.
  - intros H. destruct (List.filter _ (Artist db)) as [|a t] eqn:E;
      [now simpl in H|].
    assert (Hin : In a (a :: t)) by now left. rewrite <- E in Hin.
    apply filter_In in Hin. destruct Hin as [Ha Hn].
    apply String.eqb_eq in Hn. subst. now apply in_map.
  - intros H. apply in_map_iff in H. destruct H as (a & <- & Ha).
    assert (Hin : In a (List.filter (fun x => String.eqb (a_Name x) (a_Name a))
                                    (Artist db))).
    { apply filter_In. split; [exact Ha|apply String.eqb_refl]. }
    destruct (List.filter _ (Artist db)); [destruct Hin|simpl; lia].
Qed.

Lemma exact_match_nil (name : string) (db : Database) :
  validate_artist name db = false ->
  List.filter (fun a => String.eqb (a_Name a) name) (Artist db) = [].
Proof.
  unfold validate_artist. rewrite negb_false_iff, Nat.eqb_eq.
  now destruct (List.filter _ (Artist db)).
Qed.

Lemma NoDup_firstn_map {A B} (f : A -> B) (n : nat) (l : list A) :
  List.NoDup (List.map f l) -> List.NoDup (List.map f (firstn n l)).
Proof.
  intros H. rewrite <- (firstn_skipn n l), List.map_app in H.
  now apply NoDup_app_remove_r in H.
Qed.

Lemma suggestions_shape (name : string) (db : Database) (limit : nat)
    (l : list string) :
  validate_artist name db = false ->
  get_similar_artists name db limit = ok l ->
  length l <= limit /\
  List.NoDup l /\
  forall s,
    In s l ->
    In s (List.map a_Name (Artist db)) /\ s <> name /\
    exists part,
      In part (Str.split_ws (Str.lower name)) /\
      SQL.like ("%" ++ part ++ "%") s = true.
Proof.
  intros Hv. unfold get_similar_artists. rewrite (exact_match_nil name db Hv).
  destruct (Str.split_ws (Str.lower name)) as [|p ps] eqn:Eparts;
    [discriminate|].
  intros H. injection H as <-.
  set (params := List.map (fun part => ("%" ++ part ++ "%")%string) (p :: ps)).
  set (rows := List.filter
                 (fun a => existsb (fun q => SQL.like q (a_Name a)) params)
                 (Artist db)).
  set (groups := List.map (fun g : string * list ArtistRow =>
                             (fst g, length (snd g)))
                          (SQL.group_by String.eqb a_Name rows)).
  assert (Hkeys : List.map fst groups
                  = distinct String.eqb (List.map a_Name rows)).
  { unfold groups. rewrite List.map_map. simpl.
    apply (group_by_keys String.eqb a_Name). }
  split; [|split].
  - rewrite length_map, length_firstn. lia.
  - apply NoDup_firstn_map.
    eapply Permutation_NoDup;
      [symmetry; apply Permutation_map, order_by_perm|].
    change (List.NoDup (List.map fst groups)).
    rewrite Hkeys. apply distinct_NoDup, String.eqb_eq.
  - intros s Hs. apply in_map_iff in Hs. destruct Hs as (x & <- & Hx).
    apply In_firstn, order_by_In in Hx.
    assert (Hin : In (fst x) (List.map a_Name rows)).
    { apply (distinct_In String.eqb String.eqb_eq). rewrite <- Hkeys.
      now apply in_map. }
    apply in_map_iff in Hin. destruct Hin as (a & Ha & Hrow).
    apply filter_In in Hrow. destruct Hrow as [Hstored Hlike].
    rewrite <- Ha. split; [now apply in_map|]. split.
    + intros Heq.
      assert (Hv' : validate_artist name db = true).
      { apply validate_artist_stored. rewrite <- Heq. now apply in_map. }
      congruence.
    + apply existsb_exists in Hlike. destruct Hlike as (q & Hq & Hl).
      apply in_map_iff in Hq. destruct Hq as (part & <- & Hpart).
      exists part. split; [exact Hpart|exact Hl].
Qed.

(** X19.  [get_artist_popularity] returns no frame exactly when the name
    is not a stored artist name.  The names it then suggests are at most
    3, all different, all stored, none the name asked for, and each is
    matched by the LIKE pattern of some blank-separated part of the
    lower-cased name. *)
Theorem unknown_artist_suggestions (name : string) (db : Database) :
  (fst (get_artist_popularity name db) = None <->
   ~ In name (List.map a_Name (Artist db))) /\
  (forall printed,
      get_artist_popularity name db = (None, printed) ->
      length printed <= 3 /\
      List.NoDup printed /\
      forall s,
        In s printed ->
        In s (List.map a_Name (Artist db)) /\ s <> name /\
        exists part,
          In part (Str.split_ws (Str.lower name)) /\
          SQL.like ("%" ++ part ++ "%") s = true).
Proof.
  rewrite <- validate_artist_stored. unfold get_artist_popularity.
  destruct (validate_artist name db) eqn:Hv; simpl.
  - split; [split; [discriminate|congruence]|]. intros printed H. discriminate.
  - split.
    + destruct (get_similar_artists name db 3); simpl; split; congruence.
    + intros printed H.
      destruct (get_similar_artists name db 3) as [e|l] eqn:E.
      * injection H as <-. split; [simpl; lia|]. split; [constructor|].
        intros s [].
      * injection H as <-. exact (suggestions_shape name db 3 l Hv E).
Qed.

Lemma artist_links_stored (name : string) (db : Database) :
  artist_links name db <> [] -> In name (List.map a_Name (Artist db)).
Proof.
  unfold artist_links. intros H.
  destruct (List.filter _ (song_artist_genres db)) as [|[[s a] g] t] eqn:E;
    [congruence|].
  assert (Hin : In (s, a, g) ((s, a, g) :: t)) by now left.
  rewrite <- E in Hin. apply filter_In in Hin. destruct Hin as [Hin Hn].
  simpl in Hn. apply String.eqb_eq in Hn. subst a.
  unfold song_artist_genres in Hin. apply in_map_iff in Hin.
  destruct Hin as ([[[s' ar] sg] gr] & Heq & Hin). simpl in Heq.
  injection Heq as _ <- _.
  apply join_In in Hin. destruct Hin as (Hj & _ & _).
  apply join_In in Hj. destruct Hj as (Hj' & _ & _).
  apply join_In in Hj'. destruct Hj' as (_ & Har & _).
  now apply in_map.
Qed.

Lemma query_artist_nil (name : string) (db : Database) :
  query_artist name db = [] <-> artist_links name db = [].
Proof.
  split; intros H.
  - pose proof (query_artist_keys name db) as Hk. rewrite H in Hk.
    simpl in Hk. destruct (artist_links name db); [reflexivity|].
    simpl in Hk. discriminate.
  - unfold query_artist. fold (artist_links name db). now rewrite H.
Qed.

Lemma analyze_artist_cases (name : string) (db : Database) :
  match artist_links name db with
  | [] => analyze_artist name db = raise ValueError
  | _ :: _ =>
      exists r t,
        fst (get_artist_popularity name db) = Some (r :: t) /\
        analyze_artist name db = ok (r :: t)
  end.
Proof.
  unfold analyze_artist.
  destruct (get_artist_popularity name db) as [[df|] printed] eqn:E; simpl.
  - destruct (get_artist_popularity_some name db df printed E) as [_ Hp].
    assert (Hnil : df = [] <-> artist_links name db = []).
    { rewrite <- query_artist_nil. split; intros H.
      - rewrite H in Hp. apply Permutation_nil in Hp.
        now destruct (query_artist name db).
      - rewrite H in Hp. simpl in Hp. symmetry in Hp.
        now apply Permutation_nil in Hp. }
    destruct df as [|r t], (artist_links name db) as [|x l]; trivial.
    + destruct Hnil as [Hnil _]. specialize (Hnil eq_refl). discriminate.
    + destruct Hnil as [_ Hnil]. specialize (Hnil eq_refl). discriminate.
    + now exists r, t.
  - destruct (artist_links name db) as [|x t] eqn:El; [reflexivity|].
    exfalso.
    assert (Hs : In name (List.map a_Name (Artist db)))
      by (apply artist_links_stored; rewrite El; discriminate).
    apply validate_artist_stored in Hs. unfold get_artist_popularity in E.
    rewrite Hs in E. discriminate.
Qed.

(** X20.  [analyze_artist] displays a frame exactly when some song of
    the artist is linked to a genre, and then it is the frame
    [get_artist_popularity] returns; for an unknown artist, and for a
    stored artist none of whose songs has a genre, it raises a
    ValueError. *)
Theorem analyze_artist_outcome (name : string) (db : Database) :
  ((exists df, analyze_artist name db = ok df /\
               fst (get_artist_popularity name db) = Some df) <->
   artist_links name db <> []) /\
  (analyze_artist name db = raise ValueError <-> artist_links name db = []).
Proof.
  pose proof (analyze_artist_cases name db) as H.
  destruct (artist_links name db) as [|x l].
  - rewrite H. split; [|tauto].
    split; [intros (df & Hd & _); discriminate|congruence].
  - destruct H as (r & t & Hf & Ha). rewrite Ha. split.
    + split; [discriminate|]. intros _. now exists (r :: t).
    + split; discriminate.
Qed.


(** ** The ranking value as a measure *)

(** X21.  With weights that are not negative, the ranking value does
    not decrease when the number of songs or the average popularity
    grows; for a song count from 0 and a popularity from 0 to 100 it lies
    between 0 and 100 times the sum of the weights.  From 100 songs on
    the number of songs makes no difference, whatever the weights. *)
Theorem calculate_ranking_value_order (w : RankingWeights) :
  (0 <= song_weight w)%Q -> (0 <= popularity_weight w)%Q ->
  (forall n n' p p',
      (n <= n')%Z -> (p <= p')%Q ->
      (calculate_ranking_value n p w <= calculate_ranking_value n' p' w)%Q) /\
  (forall n p,
      (0 <= n)%Z -> (0 <= p)%Q -> (p <= 100 # 1)%Q ->
      (0 <= calculate_ranking_value n p w)%Q /\
      (calculate_ranking_value n p w
       <= (100 # 1) * (song_weight w + popularity_weight w))%Q) /\
  (forall n p,
      (100 <= n)%Z ->
      (calculate_ranking_value n p w == calculate_ranking_value 100 p w)%Q).
Proof.
  intros Hs Hp. unfold calculate_ranking_value.
  set (sw := song_weight w) in *. set (pw := popularity_weight w) in *.
  clearbody sw pw. split; [|split].
  - intros n n' p p' Hn Hpp. rewrite !normalized_songs_clamp.
    assert (Hm : (inject_Z (Z.min n 100) <= inject_Z (Z.min n' 100))%Q)
      by (rewrite <- Zle_Qle; lia).
    set (a := inject_Z (Z.min n 100)) in *.
    set (a' := inject_Z (Z.min n' 100)) in *. clearbody a a'. nra.
  - intros n p Hn H0 H100. rewrite normalized_songs_clamp.
    assert (Hlo : (0 <= inject_Z (Z.min n 100))%Q)
      by (change 0%Q with (inject_Z 0); rewrite <- Zle_Qle; lia).
    assert (Hhi : (inject_Z (Z.min n 100) <= 100 # 1)%Q)
      by (change (100 # 1)%Q with (inject_Z 100); rewrite <- Zle_Qle; lia).
    set (a := inject_Z (Z.min n 100)) in *. clearbody a. split; nra.
  - intros n p Hn. rewrite !normalized_songs_clamp.
    replace (Z.min n 100) with 100%Z by lia. reflexivity.
Qed.

Lemma calculate_ranking_value_order_witness :
  (forall n n' p p',
      (n <= n')%Z -> (p <= p')%Q ->
      (calculate_ranking_value n p default_weights
       <= calculate_ranking_value n' p' default_weights)%Q) /\
  (forall n p,
      (0 <= n)%Z -> (0 <= p)%Q -> (p <= 100 # 1)%Q ->
      (0 <= calculate_ranking_value n p default_weights)%Q /\
      (calculate_ranking_value n p default_weights
       <= (100 # 1) * (song_weight default_weights
                       + popularity_weight default_weights))%Q) /\
  (forall n p,
      (100 <= n)%Z ->
      (calculate_ranking_value n p default_weights
       == calculate_ranking_value 100 p default_weights)%Q).
Proof.
  apply (calculate_ranking_value_order default_weights); discriminate.
Defined.


(** ** The five artists chosen *)

Lemma rank_desc_total (x y : ArtistTotal) :
  rank_desc x y = true \/ rank_desc y x = true.
Proof.
  unfold rank_desc. rewrite !Qle_bool_iff.
  destruct (Qlt_le_dec (at_RankValue x) (at_RankValue y));
    auto using Qlt_le_weak.
Qed.

Lemma rank_desc_trans (x y z : ArtistTotal) :
  rank_desc x y = true -> rank_desc y z = true -> rank_desc x z = true.
Proof.
  unfold rank_desc. rewrite !Qle_bool_iff. intros H1 H2.
  eapply Qle_trans; eassumption.
Qed.

Lemma get_top_artists_some (start_year end_year : Z) (weights : RankingWeights)
    (db : Database) (yearly : Pivot) (top : list ArtistTotal) :
  get_top_artists start_year end_year weights db = Some (yearly, top) ->
  let stats := artist_year_stats start_year end_year weights db in
  let pivot := pivot_table (List.filter (isin top) stats) in
  stats <> [] /\ top = top_artists stats /\
  yearly = mkPivot (columns pivot)
                   (loc_set "Average" (column_means pivot) (rows pivot)).
Proof.
  unfold get_top_artists.
  destruct (artist_year_stats start_year end_year weights db) as [|r t] eqn:E;
    [discriminate|].
  intros H. injection H as <- <-. repeat split. discriminate.
Qed.

Section TopFive.

Variables (start_year end_year : Z) (weights : RankingWeights) (db : Database).

Local Abbreviation stats := (artist_year_stats start_year end_year weights db).
Local Abbreviation songs := (songs_in_range start_year end_year db).

Lemma stats_artists (a : string) :
  In a (List.map ay_Artist stats) <-> In a (List.map snd songs).
Proof.
  rewrite !in_map_iff. split.
  - intros (r & <- & Hr). apply stats_In in Hr.
    destruct Hr as (a & y & Hd & ->). apply key_in_songs in Hd.
    apply in_map_iff in Hd. destruct Hd as (x & Hk & Hx).
    exists x. split; [|exact Hx]. unfold artist_year_key in Hk.
    now injection Hk.
  - intros (x & <- & Hx).
    exists (stats_row_of start_year end_year weights db (artist_year_key x)).
    split; [reflexivity|]. apply stats_In.
    exists (snd x), (s_Year (fst x)). split; [|reflexivity].
    apply key_in_songs. apply in_map_iff. exists x. auto.
Qed.

(** The totals of all the artists, before the first five are taken. *)
Lemma totals_names :
  Permutation
    (List.map at_Artist
       (SQL.order_by rank_desc
          (List.map total_row
             (SQL.order_by (fun x y => String.leb (fst x) (fst y))
                           (SQL.group_by String.eqb ay_Artist stats)))))
    (artists_in_range start_year end_year db).
Proof.
  rewrite order_by_perm, List.map_map. simpl.
  change (List.map (fun x : string * list ArtistYear => fst x))
    with (@List.map (string * list ArtistYear) _ fst).
  rewrite order_by_perm, (group_by_keys String.eqb ay_Artist).
  apply Stdlib.Sorting.Permutation.NoDup_Permutation.
  - apply distinct_NoDup, String.eqb_eq.
  - apply distinct_NoDup, String.eqb_eq.
  - intros a. unfold artists_in_range.
    rewrite !(distinct_In String.eqb String.eqb_eq). apply stats_artists.
Qed.

Lemma total_row_value (a : string) :
  (at_RankValue
     (total_row (a, List.filter (fun r => String.eqb a (ay_Artist r)) stats))
   == artist_total start_year end_year weights db a)%Q.
Proof.
  simpl.
  rewrite (sum_perm _ _ (Permutation_map ay_RankValue
                           (artist_rows_perm start_year end_year weights db a))).
  rewrite List.map_map. reflexivity.
Qed.

Lemma totals_In (t : ArtistTotal) :
  In t (SQL.order_by rank_desc
          (List.map total_row
             (SQL.order_by (fun x y => String.leb (fst x) (fst y))
                           (SQL.group_by String.eqb ay_Artist stats)))) <->
  In (at_Artist t) (List.map snd songs) /\
  t = total_row (at_Artist t,
                 List.filter (fun r => String.eqb (at_Artist t) (ay_Artist r))
                             stats).
Proof.
  rewrite order_by_In, in_map_iff. split.
  - intros ([a rs] & <- & Hg). apply order_by_In in Hg.
    apply (group_by_In String.eqb ay_Artist String.eqb_eq) in Hg.
    destruct Hg as [Ha ->]. simpl. split; [|reflexivity].
    now apply stats_artists.
  - intros [Ha Ht].
    exists (at_Artist t,
            List.filter (fun r => String.eqb (at_Artist t) (ay_Artist r)) stats).
    split; [now symmetry|]. apply order_by_In.
    apply (group_by_In String.eqb ay_Artist String.eqb_eq).
    split; [now apply stats_artists|reflexivity].
Qed.

End TopFive.

(** X22.  [get_top_artists] chooses five artists, or all of them when
    fewer have a song in the range; no artist is chosen twice; the chosen
    are listed by their total rank value in descending order, the total
    being the sum of the artist's rank values over the years with songs;
    and no artist left out has a greater total than a chosen one. *)
Theorem top_five_chosen (start_year end_year : Z) (weights : RankingWeights)
    (db : Database) (yearly : Pivot) (top : list ArtistTotal) :
  get_top_artists start_year end_year weights db = Some (yearly, top) ->
  length top
  = Nat.min 5 (length (artists_in_range start_year end_year db)) /\
  List.NoDup (List.map at_Artist top) /\
  StronglySorted (fun x y => (at_RankValue y <= at_RankValue x)%Q) top /\
  (forall t,
      In t top ->
      In (at_Artist t) (artists_in_range start_year end_year db) /\
      (at_RankValue t
       == artist_total start_year end_year weights db (at_Artist t))%Q) /\
  (forall a t,
      In a (artists_in_range start_year end_year db) ->
      ~ In a (List.map at_Artist top) ->
      In t top ->
      (artist_total start_year end_year weights db a <= at_RankValue t)%Q).
Proof.
  intros H. apply get_top_artists_some in H. destruct H as (_ & -> & _).
  unfold top_artists.
  set (all := SQL.order_by rank_desc _).
  pose proof (totals_names start_year end_year weights db) as Hnames.
  fold all in Hnames.
  pose proof (totals_In start_year end_year weights db) as HIn.
  fold all in HIn.
  assert (Hsorted : StronglySorted (fun x y => rank_desc x y = true) all)
    by (apply order_by_sorted; [apply rank_desc_total|apply rank_desc_trans]).
  assert (Hnd : List.NoDup (List.map at_Artist all)).
  { eapply Permutation_NoDup; [symmetry; exact Hnames|].
    apply distinct_NoDup, String.eqb_eq. }
  split; [|split; [|split; [|split]]].
  - rewrite length_firstn. f_equal.
    rewrite <- (Permutation_length Hnames). now rewrite length_map.
  - now apply NoDup_firstn_map.
  - rewrite <- (firstn_skipn 5 all) in Hsorted.
    assert (Hfirst : forall l l' : list ArtistTotal,
               StronglySorted (fun x y => rank_desc x y = true) (l ++ l') ->
               StronglySorted (fun x y => rank_desc x y = true) l).
    { induction l as [|x l IH]; intros l' Hs; [constructor|].
      simpl in Hs. inversion Hs as [|? ? Hs' Hall]; subst.
      constructor; [eapply IH; exact Hs'|].
      apply List.Forall_app in Hall. tauto. }
    apply Hfirst in Hsorted.
    eapply StronglySorted_weaken; [|exact Hsorted].
    intros x y Hxy. unfold rank_desc in Hxy. now apply Qle_bool_iff.
  - intros t Ht. apply In_firstn in Ht. apply HIn in Ht.
    destruct Ht as [Ha Ht]. split.
    + now apply (distinct_In String.eqb String.eqb_eq).
    + rewrite Ht at 1. apply total_row_value.
  - intros a t Ha Hout Ht.
    apply (proj1 (distinct_In String.eqb String.eqb_eq _ _)) in Ha.
    set (ra := total_row
                 (a, List.filter (fun r => String.eqb a (ay_Artist r))
                       (artist_year_stats start_year end_year weights db))).
    assert (Hra : In ra all) by (apply HIn; split; [exact Ha|reflexivity]).
    rewrite <- (firstn_skipn 5 all) in Hra. apply in_app_or in Hra.
    destruct Hra as [Hra|Hra].
    + exfalso. apply Hout. apply in_map_iff. exists ra. split; [reflexivity|].
      exact Hra.
    + pose proof (sorted_firstn_skipn _ 5 all t ra Hsorted Ht Hra) as Hle.
      unfold rank_desc in Hle. apply Qle_bool_iff in Hle.
      rewrite <- (total_row_value start_year end_year weights db a).
      exact Hle.
Qed.

Lemma top_five_chosen_witness :
  length six_top
  = Nat.min 5 (length (artists_in_range 2010 2010 six_artists_db)) /\
  List.NoDup (List.map at_Artist six_top) /\
  StronglySorted (fun x y => (at_RankValue y <= at_RankValue x)%Q) six_top /\
  (forall t,
      In t six_top ->
      In (at_Artist t) (artists_in_range 2010 2010 six_artists_db) /\
      (at_RankValue t
       == artist_total 2010 2010 default_weights six_artists_db
            (at_Artist t))%Q) /\
  (forall a t,
      In a (artists_in_range 2010 2010 six_artists_db) ->
      ~ In a (List.map at_Artist six_top) ->
      In t six_top ->
      (artist_total 2010 2010 default_weights six_artists_db a
       <= at_RankValue t)%Q).
Proof.
  apply (top_five_chosen 2010 2010 default_weights six_artists_db six_yearly).
  vm_compute. reflexivity.
Defined.


(** ** The shape of the yearly table *)

Lemma loc_set_labels (label : string) (values : list (option Q))
    (rs : list (string * list (option Q))) :
  List.map fst (loc_set label values rs)
  = if existsb (fun r => String.eqb (fst r) label) rs
    then List.map fst rs
    else List.map fst rs ++ [label].
Proof.
  unfold loc_set. destruct (existsb _ rs).
  - rewrite List.map_map. apply map_ext. intros r.
    destruct (String.eqb_spec (fst r) label) as [->|_]; reflexivity.
  - now rewrite List.map_app.
Qed.

Lemma stats_nil (start_year end_year : Z) (weights : RankingWeights)
    (db : Database) :
  artist_year_stats start_year end_year weights db = [] <->
  songs_in_range start_year end_year db = [].
Proof.
  pose proof (stats_perm start_year end_year weights db) as Hp. split.
  - intros H. rewrite H in Hp. apply Permutation_nil in Hp.
    destruct (songs_in_range start_year end_year db); [reflexivity|].
    simpl in Hp. discriminate.
  - intros H. rewrite H in Hp. simpl in Hp. symmetry in Hp.
    now apply Permutation_nil in Hp.
Qed.

Section YearlyTable.

Variables (start_year end_year : Z) (weights : RankingWeights) (db : Database).

Local Abbreviation stats := (artist_year_stats start_year end_year weights db).
Local Abbreviation top := (top_artists stats).
Local Abbreviation chosen := (List.filter (isin top) stats).

Lemma isin_top (r : ArtistYear) :
  isin top r = true <-> In (ay_Artist r) (List.map at_Artist top).
Proof.
  unfold isin. rewrite existsb_exists, in_map_iff.
  split; intros (t & H1 & H2); exists t.
  - apply String.eqb_eq in H2. auto.
  - split; [exact H2|]. rewrite H1. apply String.eqb_refl.
Qed.

Lemma chosen_artists (a : string) :
  In a (List.map ay_Artist chosen) <-> In a (List.map at_Artist top).
Proof.
  split.
  - intros H. apply in_map_iff in H. destruct H as (r & <- & Hr).
    apply filter_In in Hr. now apply isin_top.
  - intros H. pose proof H as Ht. apply in_map_iff in Ht.
    destruct Ht as (t & <- & Ht). apply top_artists_In in Ht.
    destruct Ht as [Hs _]. apply in_map_iff in Hs.
    destruct Hs as (r & Hr & Hin). apply in_map_iff. exists r.
    split; [exact Hr|]. apply filter_In. split; [exact Hin|].
    apply isin_top. now rewrite Hr.
Qed.

Lemma chosen_years (y : Z) :
  In y (List.map ay_Year chosen) <->
  exists t, In t top /\ has_data start_year end_year db (at_Artist t) y = true.
Proof.
  split.
  - intros H. apply in_map_iff in H. destruct H as (r & <- & Hr).
    apply filter_In in Hr. destruct Hr as [Hr Hin].
    apply isin_top, in_map_iff in Hin. destruct Hin as (t & Ht & Hin).
    apply stats_In in Hr. destruct Hr as (a & y & Hd & ->).
    exists t. split; [exact Hin|]. simpl in Ht. now rewrite Ht.
  - intros (t & Ht & Hd). apply in_map_iff.
    exists (stats_row_of start_year end_year weights db (at_Artist t, y)).
    split; [reflexivity|]. apply filter_In. split.
    + apply stats_In. eauto.
    + apply isin_top. simpl. now apply in_map.
Qed.

Lemma pivot_labels_perm :
  Permutation (List.map fst (rows (pivot_table chosen)))
              (List.map at_Artist top).
Proof.
  apply Stdlib.Sorting.Permutation.NoDup_Permutation.
  - unfold pivot_table. cbn [rows]. rewrite List.map_map. simpl.
    rewrite map_id.
    eapply Permutation_NoDup; [symmetry; apply order_by_perm|].
    apply distinct_NoDup, String.eqb_eq.
  - apply NoDup_firstn_map.
    eapply Permutation_NoDup;
      [symmetry; apply (totals_names start_year end_year weights db)|].
    apply distinct_NoDup, String.eqb_eq.
  - intros a. rewrite pivot_table_index. apply chosen_artists.
Qed.

End YearlyTable.


Lemma validate_year_range_spec (start_year end_year : Z) :
  validate_year_range start_year end_year = true <->
  (1998 <= start_year /\ start_year <= end_year /\ end_year <= 2020)%Z.
Proof.
  unfold validate_year_range.
  destruct (start_year <? 1998)%Z eqn:E1; simpl.
  - apply Z.ltb_lt in E1. split; [discriminate|lia].
  - apply Z.ltb_ge in E1. destruct (2020 <? end_year)%Z eqn:E2.
    + apply Z.ltb_lt in E2. split; [discriminate|lia].
    + apply Z.ltb_ge in E2. destruct (end_year <? start_year)%Z eqn:E3.
      * apply Z.ltb_lt in E3. split; [discriminate|lia].
      * apply Z.ltb_ge in E3. split; [lia|reflexivity].
Qed.

(** X24.  [analyze_top_artists] returns [True] exactly when the range
    lies within 1998 to 2020, its start is not after its end, and some
    song with an artist falls into it; in every other case it returns
    [False] and raises nothing. *)
Theorem analyze_top_artists_true (start_year end_year : Z) (db : Database) :
  analyze_top_artists start_year end_year db = true <->
  (1998 <= start_year /\ start_year <= end_year /\ end_year <= 2020)%Z /\
  songs_in_range start_year end_year db <> [].
Proof.
  unfold analyze_top_artists. rewrite <- validate_year_range_spec.
  destruct (validate_year_range start_year end_year); simpl.
  - change (RankingWeights_init (4 # 10) (6 # 10)) with (ok default_weights).
    cbv beta iota.
    rewrite <- (stats_nil start_year end_year default_weights db).
    unfold get_top_artists.
    set (stats := artist_year_stats start_year end_year default_weights db).
    change (artist_year_stats start_year end_year _ db) with stats.
    destruct stats.
    + split; [discriminate|]. intros [_ H]. congruence.
    + split; [|reflexivity]. intros _. split; [reflexivity|discriminate].
  - split; [discriminate|]. intros [H _]. discriminate.
Qed.


(** ** The genre labels *)

Lemma contains_char_rev_acc (c : ascii) (s acc : string) :
  contains_char c (Str.rev_acc s acc)
  = contains_char c s || contains_char c acc.
Proof.
  revert acc. induction s as [|d t IH]; intros acc; simpl; [reflexivity|].
  rewrite IH. simpl. destruct (Ascii.eqb d c), (contains_char c t); reflexivity.
Qed.

Lemma contains_char_rev (c : ascii) (s : string) :
  contains_char c (Str.rev s) = contains_char c s.
Proof.
  unfold Str.rev. rewrite contains_char_rev_acc. simpl. apply orb_false_r.
Qed.

Lemma contains_char_lstrip (c : ascii) (s : string) :
  contains_char c s = false -> contains_char c (Str.lstrip s) = false.
Proof.
  induction s as [|d t IH]; simpl; [reflexivity|]. intros H.
  apply orb_false_iff in H. destruct H as [Hd Ht].
  destruct (Str.isspace d); [now apply IH|]. simpl. now rewrite Hd, Ht.
Qed.

Lemma contains_char_strip (c : ascii) (s : string) :
  contains_char c s = false -> contains_char c (Str.strip s) = false.
Proof.
  intros H. unfold Str.strip. rewrite contains_char_rev.
  apply contains_char_lstrip. rewrite contains_char_rev.
  now apply contains_char_lstrip.
Qed.

Lemma split_on_acc_pieces (sep : ascii) (s cur : string) (piece : string) :
  contains_char sep cur = false ->
  In piece (Str.split_on_acc sep s cur) ->
  contains_char sep piece = false.
Proof.
  revert cur. induction s as [|d t IH]; intros cur Hcur; simpl.
  - intros [<-|[]]. now rewrite contains_char_rev.
  - destruct (Ascii.eqb d sep) eqn:E.
    + intros [<-|Hin]; [now rewrite contains_char_rev|].
      now apply (IH EmptyString).
    + apply IH. simpl. now rewrite E, Hcur.
Qed.

Lemma starts_with_space_lstrip (s : string) :
  starts_with_space (Str.lstrip s) = false.
Proof.
  induction s as [|c t IH]; simpl; [reflexivity|].
  destruct (Str.isspace c) eqn:E; [exact IH|]. simpl. exact E.
Qed.

Lemma ends_with_space_lstrip (s : string) :
  ends_with_space s = false -> ends_with_space (Str.lstrip s) = false.
Proof.
  induction s as [|c t IH]; [reflexivity|]. intros H.
  cbn [Str.lstrip]. destruct (Str.isspace c) eqn:E; [|exact H].
  apply IH. destruct t as [|d t']; [reflexivity|exact H].
Qed.

Lemma ends_with_space_cons (c : ascii) (s : string) :
  s <> EmptyString -> ends_with_space (String c s) = ends_with_space s.
Proof. destruct s; [congruence|reflexivity]. Qed.

Lemma ends_with_space_rev_acc (s acc : string) :
  acc <> EmptyString ->
  ends_with_space (Str.rev_acc s acc) = ends_with_space acc.
Proof.
  revert acc. induction s as [|c t IH]; intros acc Hacc; [reflexivity|].
  cbn [Str.rev_acc]. rewrite IH by discriminate.
  now apply ends_with_space_cons.
Qed.

Lemma ends_with_space_rev (s : string) :
  ends_with_space (Str.rev s) = starts_with_space s.
Proof.
  destruct s as [|c t]; [reflexivity|]. unfold Str.rev. cbn [Str.rev_acc].
  now rewrite ends_with_space_rev_acc.
Qed.

Lemma starts_with_space_rev_acc (s acc : string) :
  starts_with_space (Str.rev_acc s acc)
  = match s with
    | EmptyString => starts_with_space acc
    | _ => ends_with_space s
    end.
Proof.
  revert acc. induction s as [|c t IH]; intros acc; [reflexivity|].
  cbn [Str.rev_acc]. rewrite IH. destruct t; reflexivity.
Qed.

Lemma starts_with_space_rev (s : string) :
  starts_with_space (Str.rev s) = ends_with_space s.
Proof.
  unfold Str.rev. rewrite starts_with_space_rev_acc. now destruct s.
Qed.

Lemma strip_ends (s : string) :
  starts_with_space (Str.strip s) = false /\
  ends_with_space (Str.strip s) = false.
Proof.
  unfold Str.strip. rewrite starts_with_space_rev, ends_with_space_rev. split.
  - apply ends_with_space_lstrip. rewrite ends_with_space_rev.
    apply starts_with_space_lstrip.
  - apply starts_with_space_lstrip.
Qed.

(** X25.  Whatever the genre cell holds, no label of the cleaned genre
    list is empty or the text 'set()', none contains a comma, and none
    begins or ends with white space. *)
Theorem clean_genres_labels (genre : option string) :
  Forall (fun g => g <> "" /\ g <> "set()" /\
                   contains_char "," g = false /\
                   starts_with_space g = false /\
                   ends_with_space g = false)
         (clean_genres genre).
Proof.
  apply List.Forall_forall. intros g Hg. unfold clean_genres in Hg.
  apply filter_In in Hg. destruct Hg as [Hin Hkeep].
  apply andb_true_iff in Hkeep. destruct Hkeep as [Hne Hset].
  apply negb_true_iff in Hne, Hset.
  split; [intros ->; discriminate|]. split; [intros ->; discriminate|].
  destruct genre as [s|]; [|destruct Hin].
  apply in_map_iff in Hin. destruct Hin as (piece & <- & Hpiece).
  split; [|apply strip_ends].
  apply contains_char_strip.
  now apply (split_on_acc_pieces "," s EmptyString).
Qed.


(** ** The chart *)

Lemma omap_if_some {A B} (p : A -> bool) (g : A -> B) (l : list A) :
  omap (fun x => if p x then Some (g x) else None) l
  = List.map g (List.filter p l).
Proof.
  induction l as [|x t IH]; [reflexivity|].
  change (omap (fun x => if p x then Some (g x) else None) (x :: t))
    with (match (if p x then Some (g x) else None) with
          | Some y => y :: omap (fun x => if p x then Some (g x) else None) t
          | None => omap (fun x => if p x then Some (g x) else None) t
          end).
  cbn [List.filter]. destruct (p x); simpl; now rewrite IH.
Qed.

Lemma omap_In {A B} (f : A -> option B) (l : list A) (y : B) :
  In y (omap f l) <-> exists x, In x l /\ f x = Some y.
Proof.
  rewrite <- list_elem_of_In, list_elem_of_omap.
  split; intros (x & H1 & H2); exists x; split; trivial;
    now apply list_elem_of_In.
Qed.

Lemma existsb_Zeqb (y : Z) (l : list Z) :
  existsb (Z.eqb y) l = true <-> In y l.
Proof.
  rewrite existsb_exists. split.
  - intros (x & Hx & E). apply Z.eqb_eq in E. now subst.
  - intros H. exists y. split; [exact H|apply Z.eqb_refl].
Qed.

Section Chart.

Variables (start_year end_year : Z) (weights : RankingWeights) (db : Database).

Local Abbreviation stats := (artist_year_stats start_year end_year weights db).
Local Abbreviation top := (top_artists stats).
Local Abbreviation pivot := (pivot_table (List.filter (isin top) stats)).
Local Abbreviation yearly :=
  (mkPivot (columns pivot) (loc_set "Average" (column_means pivot) (rows pivot))).

Lemma artist_line (t : ArtistTotal) :
  In t top -> at_Artist t <> "Average" ->
  line_points yearly (at_Artist t) start_year end_year
  = List.map
      (fun y => (y, SQL.avg [rank_of start_year end_year weights db
                               (at_Artist t) y]))
      (List.filter (has_data start_year end_year db (at_Artist t))
                   (years start_year end_year)).
Proof.
  intros Ht Hne. unfold line_points. rewrite <- omap_if_some.
  apply list_omap_ext. apply Forall_Forall2_diag.
  apply List.Forall_forall. intros y _.
  assert (Hcell : pivot_cell yearly (at_Artist t) y
                  = pivot_cell pivot (at_Artist t) y).
  { unfold pivot_cell. cbn [rows columns].
    rewrite loc_set_find_other by exact Hne. reflexivity. }
  rewrite Hcell, (top_cell start_year end_year weights db t y Ht).
  cbn [columns].
  destruct (has_data start_year end_year db (at_Artist t) y) eqn:Hd.
  - assert (Hcol : existsb (Z.eqb y) (columns pivot) = true).
    { apply existsb_Zeqb, pivot_table_columns.
      apply (chosen_years start_year end_year weights db). eauto. }
    rewrite Hcol. reflexivity.
  - destruct (existsb (Z.eqb y) (columns pivot)); reflexivity.
Qed.

Lemma average_line (y : Z) :
  In y (List.map fst (line_points yearly "Average" start_year end_year)) <->
  In y (columns yearly).
Proof.
  unfold line_points. rewrite in_map_iff. split.
  - intros ([y' v] & <- & Hin). apply omap_In in Hin.
    destruct Hin as (x & _ & Hx).
    destruct (existsb (Z.eqb x) (columns yearly)) eqn:E; [|discriminate].
    apply existsb_Zeqb in E.
    destruct (pivot_cell yearly "Average" x); [|discriminate].
    simpl in Hx. injection Hx as <- _. exact E.
  - intros Hy. cbn [columns] in Hy.
    destruct (average_row (List.filter (isin top) stats) y Hy)
      as (vs & _ & _ & Hcell).
    exists (y, SQL.avg vs). split; [reflexivity|]. apply omap_In.
    exists y. split.
    + apply pivot_table_columns in Hy.
      apply (chosen_years start_year end_year weights db) in Hy.
      destruct Hy as (t & _ & Hd). apply years_In.
      eapply has_data_in_range. exact Hd.
    + cbn [columns]. rewrite (proj2 (existsb_Zeqb y _) Hy).
      cbn [columns rows] in Hcell |- *. rewrite Hcell. reflexivity.
Qed.

End Chart.

(** X26.  When no chosen artist is called "Average", the chart of
    [create_visualization] on the result of [get_top_artists] has one
    line per chosen artist and then the line "Average".  The line of an
    artist has a point for exactly the years of the range in which the
    artist has songs, in ascending order, at the rank value of that
    year; the average line has a point for every column of the table. *)
Theorem chart_lines (start_year end_year : Z) (weights : RankingWeights)
    (db : Database) (yearly : Pivot) (top : list ArtistTotal) :
  get_top_artists start_year end_year weights db = Some (yearly, top) ->
  ~ In "Average" (List.map at_Artist top) ->
  let lines := create_visualization yearly start_year end_year in
  (exists labels,
      List.map fst lines = labels ++ ["Average"] /\
      Permutation labels (List.map at_Artist top)) /\
  (forall t pts,
      In t top -> In (at_Artist t, pts) lines ->
      List.map fst pts
      = List.filter (has_data start_year end_year db (at_Artist t))
                    (years start_year end_year) /\
      Forall (fun yv =>
                (snd yv == rank_of start_year end_year weights db
                             (at_Artist t) (fst yv))%Q) pts) /\
  (forall pts y,
      In ("Average", pts) lines ->
      (In y (List.map fst pts) <-> In y (columns yearly))).
Proof.
  intros H Hno. apply get_top_artists_some in H. destruct H as (_ & -> & ->).
  set (stats := artist_year_stats start_year end_year weights db) in *.
  set (pivot := pivot_table (List.filter (isin (top_artists stats)) stats)).
  pose proof (pivot_labels_perm start_year end_year weights db) as Hlabels.
  fold stats in Hlabels. fold pivot in Hlabels.
  assert (Hrows : List.map fst (loc_set "Average" (column_means pivot)
                                        (rows pivot))
                  = List.map fst (rows pivot) ++ ["Average"]).
  { rewrite loc_set_labels.
    destruct (existsb _ (rows pivot)) eqn:E; [|reflexivity].
    exfalso. apply Hno. apply existsb_exists in E.
    destruct E as (r & Hr & Heq). apply String.eqb_eq in Heq.
    eapply Permutation_in; [exact Hlabels|]. rewrite <- Heq.
    now apply in_map. }
  unfold create_visualization. cbn [rows]. rewrite Hrows, removelast_last.
  cbv zeta.
  assert (Hline : forall a pts,
             a <> "Average" ->
             In (a, pts)
                (List.map
                   (fun artist =>
                      (artist,
                       line_points
                         (mkPivot (columns pivot)
                            (loc_set "Average" (column_means pivot)
                                     (rows pivot)))
                         artist start_year end_year))
                   (List.map fst (rows pivot))
                 ++ [("Average",
                      line_points
                        (mkPivot (columns pivot)
                           (loc_set "Average" (column_means pivot)
                                    (rows pivot)))
                        "Average" start_year end_year)]) ->
             pts = line_points
                     (mkPivot (columns pivot)
                        (loc_set "Average" (column_means pivot) (rows pivot)))
                     a start_year end_year).
  { intros a pts Ha Hin. apply in_app_or in Hin.
    destruct Hin as [Hin|[Heq|[]]].
    - apply in_map_iff in Hin. destruct Hin as (a' & Heq & _).
      now injection Heq as -> <-.
    - injection Heq as <- _. congruence. }
  split; [|split].
  - exists (List.map fst (rows pivot)). split; [|exact Hlabels].
    rewrite List.map_app, List.map_map. simpl. now rewrite map_id.
  - intros t pts Ht Hin.
    assert (Hne : at_Artist t <> "Average").
    { intros Heq. apply Hno. rewrite <- Heq. now apply in_map. }
    rewrite (Hline _ _ Hne Hin). subst pivot stats.
    rewrite (artist_line start_year end_year weights db t Ht Hne).
    rewrite List.map_map. simpl. rewrite map_id. split; [reflexivity|].
    apply List.Forall_forall. intros yv Hyv. apply in_map_iff in Hyv.
    destruct Hyv as (y & <- & _). simpl. apply avg_single.
  - intros pts y Hin. apply in_app_or in Hin.
    destruct Hin as [Hin|[Heq|[]]].
    + exfalso. apply in_map_iff in Hin. destruct Hin as (a & Heq & Ha).
      injection Heq as -> _. apply Hno.
      eapply Permutation_in; [exact Hlabels|exact Ha].
    + injection Heq as <-. subst pivot stats.
      apply (average_line start_year end_year weights db).
Qed.

Lemma chart_lines_witness :
  let lines := create_visualization ranking_yearly 2010 2012 in
  (exists labels,
      List.map fst lines = labels ++ ["Average"] /\
      Permutation labels (List.map at_Artist ranking_top)) /\
  (forall t pts,
      In t ranking_top -> In (at_Artist t, pts) lines ->
      List.map fst pts
      = List.filter (has_data 2010 2012 ranking_db (at_Artist t))
                    (years 2010 2012) /\
      Forall (fun yv =>
                (snd yv == rank_of 2010 2012 default_weights ranking_db
                             (at_Artist t) (fst yv))%Q) pts) /\
  (forall pts y,
      In ("Average", pts) lines ->
      (In y (List.map fst pts) <-> In y (columns ranking_yearly))).
Proof.
  apply (chart_lines 2010 2012 default_weights ranking_db).
  - vm_compute. reflexivity.
  - vm_compute. intros [H|[H|[]]]; discriminate.
Defined.


(** ** The warning about limited data *)




(** ** From the frame to the answers of the queries *)

Lemma filter_andb {A} (p q : A -> bool) (l : list A) :
  List.filter p (List.filter q l) = List.filter (fun x => q x && p x) l.
Proof.
  induction l as [|x t IH]; simpl; [reflexivity|].
  destruct (q x); simpl; [destruct (p x)|]; now rewrite IH.
Qed.

Lemma count_in_NoDup (g : string) (gs : list string) :
  List.NoDup gs ->
  length (List.filter (String.eqb g) gs)
  = if existsb (String.eqb g) gs then 1 else 0.
Proof.
  induction 1 as [|x t Hx _ IH]; simpl; [reflexivity|].
  destruct (String.eqb_spec g x) as [->|Hne]; simpl.
  - rewrite filter_none; [reflexivity|]. intros z Hz.
    destruct (String.eqb_spec x z) as [->|_]; [contradiction|reflexivity].
  - exact IH.
Qed.

Lemma links_of_year_genre (mk : nat -> record -> SongRow) (y : Z)
    (g : string) (l : list record) :
  (forall i r, s_Year (mk i r) = year r) ->
  Forall (fun r => List.NoDup (genres r)) l ->
  forall n,
    length
      (List.filter
         (fun x => (s_Year (fst x) =? y)%Z && String.eqb g (snd x))
         (concat (with_ids (fun i r => List.map (pair (mk i r)) (genres r))
                           n l)))
    = length
        (List.filter
           (fun r => (year r =? y)%Z && existsb (String.eqb g) (genres r)) l).
Proof.
  intros Hyear. induction 1 as [|r t Hnd _ IH]; intros n; [reflexivity|].
  cbn [with_ids concat List.filter]. rewrite List.filter_app, length_app, IH.
  assert (Hrow :
    length (List.filter
              (fun x => (s_Year (fst x) =? y)%Z && String.eqb g (snd x))
              (List.map (pair (mk n r)) (genres r)))
    = if (year r =? y)%Z && existsb (String.eqb g) (genres r) then 1 else 0).
  { destruct (year r =? y)%Z eqn:Ey; cbn [andb].
    - rewrite <- (count_in_NoDup g (genres r) Hnd).
      generalize (genres r) as gs. intros gs.
      induction gs as [|x gs IHgs]; simpl; [reflexivity|].
      rewrite Hyear, Ey. simpl.
      destruct (String.eqb g x); simpl; [f_equal|]; exact IHgs.
    - generalize (genres r) as gs. intros gs.
      induction gs as [|x gs IHgs]; simpl; [reflexivity|].
      rewrite Hyear, Ey. simpl. exact IHgs. }
  rewrite Hrow.
  destruct ((year r =? y)%Z && existsb (String.eqb g) (genres r)); reflexivity.
Qed.

Lemma loaded_genre_links (iter : set_order) (df : list record) (y : Z)
    (g : string) :
  set_iteration iter ->
  Forall (fun r => List.NoDup (genres r)) df ->
  length (genre_links y g (loaded_store iter df))
  = length
      (List.filter
         (fun r => (year r =? y)%Z && existsb (String.eqb g) (genres r)) df).
Proof.
  intros Hiter Hnd. unfold genre_links, year_links.
  rewrite filter_andb, loaded_song_genres by exact Hiter.
  now apply links_of_year_genre.
Qed.

(** X28.  From the frame to the statistics: after the load of a
    loadable frame, the song count [get_genre_statistics] reports for a
    genre of a year is the number of records of the frame that are of
    that year and list the genre. *)
Theorem loaded_genre_statistics (iter : set_order) (df : list record)
    (y min_songs : Z) :
  set_iteration iter ->
  loadable df ->
  exists db,
    create_and_populate_database iter (frame df) = ok db /\
    forall frame printed row,
      get_genre_statistics y db min_songs = (Some frame, printed) ->
      In row frame ->
      gs_SongCount row
      = length
          (List.filter
             (fun r => (year r =? y)%Z
                       && existsb (String.eqb (gs_Genre row)) (genres r))
             df).
Proof.
  intros Hiter Hl. exists (loaded_store iter df).
  split; [now apply load_run|].
  intros frame printed row H Hrow.
  apply get_genre_statistics_some in H. destruct H as (_ & -> & _).
  apply genre_query_rows in Hrow. destruct Hrow as (-> & _).
  apply loaded_genre_links; [exact Hiter|apply Hl].
Qed.

Lemma loaded_genre_statistics_witness :
  exists db,
    create_and_populate_database elements (frame two_record_frame) = ok db /\
    forall frame printed row,
      get_genre_statistics 2010 db 10 = (Some frame, printed) ->
      In row frame ->
      gs_SongCount row
      = length
          (List.filter
             (fun r => (year r =? 2010)%Z
                       && existsb (String.eqb (gs_Genre row)) (genres r))
             two_record_frame).
Proof.
  apply (loaded_genre_statistics elements two_record_frame 2010 10
           set_iteration_elements). split.
  - repeat constructor; repeat eexists.
  - repeat constructor; simpl; intuition discriminate.
Defined.





Section LoadedStore.

Variable iter : set_order.
Hypothesis iter_visits : set_iteration iter.
Variable df : list record.






End LoadedStore.




(** ** The summary columns of the chosen artists *)

Lemma nat_sum_perm (l l' : list nat) :
  Permutation l l' -> fold_right Nat.add 0 l = fold_right Nat.add 0 l'.
Proof.
  induction 1 as [|x l l' _ IH|x y l|l l' l'' _ IH1 _ IH2]; simpl; lia.
Qed.

Lemma avg_perm (l l' : list Q) :
  Permutation l l' -> (SQL.avg l == SQL.avg l')%Q.
Proof.
  intros H. unfold SQL.avg.
  rewrite (sum_perm _ _ H), (Permutation_length H). reflexivity.
Qed.

Section Summary.

Variables (start_year end_year : Z) (weights : RankingWeights) (db : Database).

Local Abbreviation stats := (artist_year_stats start_year end_year weights db).
Local Abbreviation songs := (songs_in_range start_year end_year db).

Lemma artist_year_songs_of_artist (a : string) (y : Z) :
  artist_year_songs start_year end_year db a y
  = List.filter (fun x => (y =? s_Year (fst x))%Z)
                (artist_songs start_year end_year db a).
Proof.
  unfold artist_year_songs, artist_songs. rewrite filter_andb.
  apply filter_ext. intros x. unfold same_artist_year, artist_year_key.
  reflexivity.
Qed.

Lemma songs_by_year (a : string) :
  fold_right Nat.add 0
    (List.map
       (fun y => length (artist_year_songs start_year end_year db a y))
       (List.filter (has_data start_year end_year db a)
                    (years start_year end_year)))
  = length (artist_songs start_year end_year db a).
Proof.
  erewrite map_ext; [|intros y; rewrite artist_year_songs_of_artist;
                      reflexivity].
  apply (count_by_key Z.eqb (fun x : SongRow * string => s_Year (fst x))
                      Z.eqb_eq).
  - apply List.NoDup_filter, years_NoDup.
  - intros x Hx. unfold artist_songs in Hx. apply filter_In in Hx.
    destruct Hx as [Hx Ha]. apply String.eqb_eq in Ha.
    assert (Hd : has_data start_year end_year db a (s_Year (fst x)) = true).
    { apply key_in_songs. apply in_map_iff. exists x. split; [|exact Hx].
      unfold artist_year_key. now rewrite Ha. }
    apply filter_In. split; [|exact Hd]. apply years_In.
    eapply has_data_in_range. exact Hd.
Qed.

End Summary.

(** X30.  The summary columns of a chosen artist: the number of songs
    is the number of the artist's songs in the range, and the average
    popularity is the mean, over the years in which the artist has
    songs, of the rounded average popularity of each year, every year
    counting once however many songs it has. *)
Theorem top_artist_summary (start_year end_year : Z)
    (weights : RankingWeights) (db : Database) (yearly : Pivot)
    (top : list ArtistTotal) (t : ArtistTotal) :
  get_top_artists start_year end_year weights db = Some (yearly, top) ->
  In t top ->
  at_NumSongs t = length (artist_songs start_year end_year db (at_Artist t)) /\
  (at_AvgPopularity t
   == SQL.avg
        (List.map (year_average start_year end_year db (at_Artist t))
           (List.filter (has_data start_year end_year db (at_Artist t))
                        (years start_year end_year))))%Q.
Proof.
  intros H Ht. apply get_top_artists_some in H. destruct H as (_ & -> & _).
  apply top_artists_In in Ht. destruct Ht as [_ Ht].
  pose proof (artist_rows_perm start_year end_year weights db (at_Artist t))
    as Hp.
  rewrite Ht at 1 3. simpl. split.
  - rewrite (nat_sum_perm _ _ (Permutation_map ay_NumSongs Hp)).
    rewrite List.map_map. simpl. apply songs_by_year.
  - rewrite (avg_perm _ _ (Permutation_map ay_AvgPopularity Hp)).
    rewrite List.map_map. reflexivity.
Qed.

Lemma top_artist_summary_witness :
  Forall
    (fun t =>
       at_NumSongs t = length (artist_songs 2010 2012 ranking_db (at_Artist t)) /\
       (at_AvgPopularity t
        == SQL.avg
             (List.map (year_average 2010 2012 ranking_db (at_Artist t))
                (List.filter (has_data 2010 2012 ranking_db (at_Artist t))
                             (years 2010 2012))))%Q)
    ranking_top.
Proof.
  unfold ranking_top.
  repeat (apply List.Forall_cons || apply List.Forall_nil);
    (apply (top_artist_summary 2010 2012 default_weights ranking_db
              ranking_yearly ranking_top);
     [vm_compute; reflexivity|unfold ranking_top; simpl; tauto]).
Defined.
